(** * Nazara Engine: the forward render technique

    A shallow embedding of [src/Nazara/Graphics/ForwardRenderTechnique.cpp]
    (class [Nz::ForwardRenderTechnique]) and proofs about its draw
    submission: the streaming sprite packers, the light selection, the
    multi-pass light submission, the shader uniform cache and the static
    initialisation.

    Conventions.
    - [std::size_t] and [unsigned int] counters are [nat].  Every
      subtraction the source performs on them has its operands ordered on
      the runs studied here (the loop invariants below carry the bounds), so
      the truncated subtraction of [nat] coincides with the machine
      subtraction; additions stay far below the word size for any input that
      fits in memory.
    - [int] uniform locations are [Z]; the mixed [int + unsigned int]
      arithmetic of [SendLightUniforms] is written out with its 32-bit
      wrap-around.
    - Calls into the renderer and the shader are recorded as a trace of
      events, in the order the source issues them.
    - Loops whose termination is not structural take a fuel argument and
      return an [outcome]; totality is then a theorem, not an assumption.

    The first part of the file holds the embedding, the second the
    theorems. *)

From Stdlib Require Import ZArith Lia List Sorting.Sorted Sorting.Permutation.
From stdpp Require Import gmap strings list.

Set Default Proof Using "Type".

(** Result of running a loop of the source with bounded fuel.
    [OutOfBounds] is an access past the end of a vector (undefined
    behaviour in the source). *)
Inductive outcome (A : Type) : Type :=
| Finished (a : A)
| OutOfFuel
| OutOfBounds.
Arguments Finished {A} a.
Arguments OutOfFuel {A}.
Arguments OutOfBounds {A}.

Definition outcome_bind {A B : Type} (o : outcome A) (k : A -> outcome B) : outcome B :=
  match o with
  | Finished a => k a
  | OutOfFuel => OutOfFuel
  | OutOfBounds => OutOfBounds
  end.

(** State passing with [outcome]: a computation over a world [W]. *)
Definition M (W A : Type) : Type := W -> outcome (A * W).

Definition ret {W A : Type} (a : A) : M W A := fun w => Finished (a, w).

Definition bind {W A B : Type} (c : M W A) (k : A -> M W B) : M W B :=
  fun w => outcome_bind (c w) (fun '(a, w') => k a w').

Declare Scope exec_scope.
Delimit Scope exec_scope with exec.
Notation "'let*' x ':=' c 'in' k" := (bind c (fun x => k))
  (at level 10, x pattern, c at level 100, k at level 200) : exec_scope.
Notation "c ';;;' k" := (bind c (fun _ => k))
  (at level 100, k at level 200, right associativity) : exec_scope.

(** [for (i = start; i < start + n; ++i) s = body(i, s)]. *)
Fixpoint for_loop {W St : Type} (n start : nat) (s : St) (body : nat -> St -> M W St)
  : M W St :=
  match n with
  | O => ret s
  | S n' => bind (body start s) (fun s' => for_loop n' (S start) s' body)
  end.

(** [ceil(N/C)] the way the specification spells it. *)
Definition ceil_div (N C : nat) : nat :=
  if N mod C =? 0 then N / C else N / C + 1.

(** [s_maxQuads = std::numeric_limits<UInt16>::max() / 6] (line 36). *)
Definition s_maxQuads : nat := Z.to_nat (65535 / 6).

(** * Streaming vertex packer (sprites) *)

Module Sprites.

Section Packer.
Context {Vertex : Type}.

(** [ForwardRenderQueue::SpriteChain_XYZ_Color_UV] and
    [ForwardRenderQueue::UnbatchedSpriteData], restricted to the two members
    the packers read: a pointer to [4 * spriteCount] vertices and the
    count. *)
Record SpriteChain : Type := {
  vertices : list Vertex;
  spriteCount : nat
}.

(** The queue stores four vertices per sprite. *)
Definition chain_wf (c : SpriteChain) : Prop :=
  length (vertices c) = 4 * spriteCount c.

(** Renderer calls issued by the packers. [FillBuffer] stands for one
    [BufferMapper] scope (map with [BufferAccess_DiscardAndWrite], the
    [memcpy]s into the mapping) and carries the vertices written, in
    order. *)
Inductive RenderEvent : Type :=
| FillBuffer (content : list Vertex)
| DrawIndexedPrimitives (firstIndex indexCount : nat).

(** [std::memcpy(vertices, chain.vertices + offset * 4,
                 4 * count * sizeof(VertexStruct_XYZ_Color_UV))] *)
Definition memcpy_quads (c : SpriteChain) (offset count : nat) : list Vertex :=
  take (4 * count) (drop (4 * offset) (vertices c)).

(** [const std::size_t maxSpriteCount =
       std::min<std::size_t>(s_maxQuads, m_spriteBuffer.GetVertexCount() / 4)]
    (lines 308 and 801). *)
Definition maxSpriteCount_of (spriteBufferVertexCount : nat) : nat :=
  Nat.min s_maxQuads (spriteBufferVertexCount / 4).

(** Observations on a trace. *)
Definition draw_index_counts (tr : list RenderEvent) : list nat :=
  omap (fun e => match e with
                 | DrawIndexedPrimitives _ n => Some n
                 | FillBuffer _ => None
                 end) tr.

Definition filled_vertices (tr : list RenderEvent) : list Vertex :=
  concat (omap (fun e => match e with
                         | FillBuffer b => Some b
                         | DrawIndexedPrimitives _ _ => None
                         end) tr).

(** The vertices the draw calls of a trace read from the sprite buffer, in
    draw order.  Through the quad index buffer (lines 182-191: quad [q] is
    drawn from vertices [4q .. 4q+3]) a draw of [indexCount] indices from
    [firstIndex] reads the quads [firstIndex / 6 .. (firstIndex + indexCount)
    / 6 - 1] of the buffer as it was last filled. *)
Fixpoint drawn_vertices (buffer : list Vertex) (tr : list RenderEvent) : list Vertex :=
  match tr with
  | [] => []
  | FillBuffer content :: tr' => drawn_vertices content tr'
  | DrawIndexedPrimitives firstIndex indexCount :: tr' =>
    take (indexCount / 6 * 4) (drop (firstIndex / 6 * 4) buffer)
    ++ drawn_vertices buffer tr'
  end.

Definition all_vertices (chains : list SpriteChain) : list Vertex :=
  concat (map vertices chains).

Definition total_quads (chains : list SpriteChain) : nat :=
  sum_list (map spriteCount chains).

(** Sprites per draw call: six indices per quad. *)
Definition draw_quad_counts (tr : list RenderEvent) : list nat :=
  (fun indexCount => indexCount / 6) <$> draw_index_counts tr.

(** What is left to submit from the cursor (chain index, offset in it). *)
Definition remaining_vertices (chains : list SpriteChain) (chain offset : nat)
  : list Vertex :=
  drop (4 * offset) (all_vertices (drop chain chains)).

Definition remaining_quads (chains : list SpriteChain) (chain offset : nat) : nat :=
  total_quads (drop chain chains) - offset.

(** ** [DrawBasicSprites], lines 355-395: one overlay's chain vector

    The walk over pipelines, materials and overlays around it (lines
    310-353) binds state and reaches this block once per overlay entry; it
    shares no variable with it. *)

(** Cursor of the inner [do ... while]: chain index, offset in that chain,
    sprites written to the buffer so far, buffer content. *)
Record FillState : Type := {
  fs_spriteChain : nat;
  fs_spriteChainOffset : nat;
  fs_spriteCount : nat;
  fs_written : list Vertex
}.

(** Lines 371-388. *)
Fixpoint fill_loop (maxSpriteCount : nat) (spriteChainVector : list SpriteChain)
    (fuel : nat) (s : FillState) : outcome FillState :=
  match fuel with
  | O => OutOfFuel
  | S fuel' =>
    match spriteChainVector !! fs_spriteChain s with
    | None => OutOfBounds
    | Some currentChain =>
      let count := Nat.min (maxSpriteCount - fs_spriteCount s)
                           (spriteCount currentChain - fs_spriteChainOffset s) in
      let written := fs_written s
                     ++ memcpy_quads currentChain (fs_spriteChainOffset s) count in
      let spriteCount' := fs_spriteCount s + count in
      let spriteChainOffset' := fs_spriteChainOffset s + count in
      let s' :=
        if spriteChainOffset' =? spriteCount currentChain
        then {| fs_spriteChain := S (fs_spriteChain s);
                fs_spriteChainOffset := 0;
                fs_spriteCount := spriteCount';
                fs_written := written |}
        else {| fs_spriteChain := fs_spriteChain s;
                fs_spriteChainOffset := spriteChainOffset';
                fs_spriteCount := spriteCount';
                fs_written := written |} in
      if (fs_spriteCount s' <? maxSpriteCount)
         && (fs_spriteChain s' <? length spriteChainVector)
      then fill_loop maxSpriteCount spriteChainVector fuel' s'
      else Finished s'
    end
  end.

(** Lines 363-394: the outer [do ... while]. *)
Fixpoint batch_loop (maxSpriteCount : nat) (spriteChainVector : list SpriteChain)
    (fuel : nat) (spriteChain spriteChainOffset : nat) : outcome (list RenderEvent) :=
  match fuel with
  | O => OutOfFuel
  | S fuel' =>
    outcome_bind
      (fill_loop maxSpriteCount spriteChainVector fuel'
         {| fs_spriteChain := spriteChain;
            fs_spriteChainOffset := spriteChainOffset;
            fs_spriteCount := 0;
            fs_written := [] |})
      (fun s =>
         let events := [FillBuffer (fs_written s);
                        DrawIndexedPrimitives 0 (fs_spriteCount s * 6)] in
         if fs_spriteChain s <? length spriteChainVector
         then outcome_bind
                (batch_loop maxSpriteCount spriteChainVector fuel'
                   (fs_spriteChain s) (fs_spriteChainOffset s))
                (fun tr => Finished (events ++ tr))
         else Finished events)
  end.

(** Lines 355-395, with [maxSpriteCount] from line 308. *)
Definition DrawBasicSprites_chains (spriteBufferVertexCount : nat)
    (spriteChainVector : list SpriteChain) (fuel : nat) : outcome (list RenderEvent) :=
  if 0 <? length spriteChainVector
  then batch_loop (maxSpriteCount_of spriteBufferVertexCount) spriteChainVector fuel 0 0
  else Finished [].

(** ** [DrawOrderedSprites], lines 800-917

    [depthSortedSprites] is modelled as the sequence of the sprite data its
    indices designate ([layer.depthSortedSpriteData[*it]]); iterators are
    positions in it, [end()] being its length.  The material, pipeline,
    shader and overlay bookkeeping of lines 854-895 neither reads nor writes
    the cursor variables and is left out. *)

Record OrderedState : Type := {
  os_it : nat;
  os_updateVertexBuffer : bool;
  os_alreadyDrawnCount : nat;
  os_spriteIndex : nat;
  os_spriteChainOffset : nat;
  os_splitChainIt : nat
}.

(** What the fill loop hands back: the offset, the chain it broke on (when
    it did) and the vertices written. *)
Record OrderedFill : Type := {
  of_spriteChainOffset : nat;
  of_split : option nat;
  of_written : list Vertex
}.

(** Lines 818-841: [for (auto it2 = it; it2 != end; ++it2)], run on the
    suffix of the sequence that starts at [it2]. *)
Fixpoint ordered_fill (suffix : list SpriteChain) (it2 : nat)
    (availableSpriteSpace spriteChainOffset : nat) (written : list Vertex) : OrderedFill :=
  match suffix with
  | [] => {| of_spriteChainOffset := spriteChainOffset;
             of_split := None;
             of_written := written |}
  | spriteData :: rest =>
    let count := Nat.min availableSpriteSpace (spriteCount spriteData - spriteChainOffset) in
    let written' := written ++ memcpy_quads spriteData spriteChainOffset count in
    let availableSpriteSpace' := availableSpriteSpace - count in
    if negb (count =? spriteCount spriteData)
    then {| of_spriteChainOffset := spriteChainOffset + count;
            of_split := Some it2;
            of_written := written' |}
    else ordered_fill rest (S it2) availableSpriteSpace' 0 written'
  end.

(** Lines 810-848. *)
Definition ordered_refill (maxSpriteCount : nat) (sprites : list SpriteChain)
    (st : OrderedState) : OrderedState * list RenderEvent :=
  if os_updateVertexBuffer st
  then
    let f := ordered_fill (drop (os_it st) sprites) (os_it st)
                          maxSpriteCount (os_spriteChainOffset st) [] in
    ({| os_it := os_it st;
        os_updateVertexBuffer := false;
        os_alreadyDrawnCount := os_alreadyDrawnCount st;
        os_spriteIndex := 0;
        os_spriteChainOffset := of_spriteChainOffset f;
        os_splitChainIt := match of_split f with
                           | Some it2 => it2
                           | None => length sprites
                           end |},
     [FillBuffer (of_written f)])
  else (st, []).

(** Lines 810-916: one turn of the [for] loop. *)
Definition ordered_step (maxSpriteCount : nat) (sprites : list SpriteChain)
    (st : OrderedState) : outcome (OrderedState * list RenderEvent) :=
  let '(st1, fill) := ordered_refill maxSpriteCount sprites st in
  match sprites !! os_it st1 with
  | None => OutOfBounds
  | Some spriteData =>
    if negb (os_it st1 =? os_splitChainIt st1)
    then
      let spriteCount := spriteCount spriteData - os_alreadyDrawnCount st1 in
      Finished
        ({| os_it := S (os_it st1);
            os_updateVertexBuffer := os_updateVertexBuffer st1;
            os_alreadyDrawnCount := 0;
            os_spriteIndex := os_spriteIndex st1 + spriteCount;
            os_spriteChainOffset := os_spriteChainOffset st1;
            os_splitChainIt := os_splitChainIt st1 |},
         fill ++ [DrawIndexedPrimitives (os_spriteIndex st1 * 6) (spriteCount * 6)])
    else
      let spriteCount := os_spriteChainOffset st1 in
      Finished
        ({| os_it := os_it st1;
            os_updateVertexBuffer := true;
            os_alreadyDrawnCount := spriteCount;
            os_spriteIndex := os_spriteIndex st1 + spriteCount;
            os_spriteChainOffset := os_spriteChainOffset st1;
            os_splitChainIt := os_splitChainIt st1 |},
         fill ++ [DrawIndexedPrimitives (os_spriteIndex st1 * 6) (spriteCount * 6)])
  end.

(** Lines 808-917: [for (auto it = begin; it != end;)]. *)
Fixpoint ordered_loop (maxSpriteCount : nat) (sprites : list SpriteChain)
    (fuel : nat) (st : OrderedState) : outcome (OrderedState * list RenderEvent) :=
  if os_it st =? length sprites
  then Finished (st, [])
  else
    match fuel with
    | O => OutOfFuel
    | S fuel' =>
      outcome_bind (ordered_step maxSpriteCount sprites st)
        (fun '(st', events) =>
           outcome_bind (ordered_loop maxSpriteCount sprites fuel' st')
             (fun '(st'', tr) => Finished (st'', events ++ tr)))
    end.

(** Lines 800-806: the locals before the loop. *)
Definition ordered_init (sprites : list SpriteChain) : OrderedState :=
  {| os_it := 0;
     os_updateVertexBuffer := true;
     os_alreadyDrawnCount := 0;
     os_spriteIndex := 0;
     os_spriteChainOffset := 0;
     os_splitChainIt := length sprites |}.

Definition DrawOrderedSprites (spriteBufferVertexCount : nat)
    (sprites : list SpriteChain) (fuel : nat) : outcome (OrderedState * list RenderEvent) :=
  ordered_loop (maxSpriteCount_of spriteBufferVertexCount) sprites fuel
               (ordered_init sprites).

(** The loop body run [n] times from [st], whatever the loop condition
    says in between: the state reached and the events issued. *)
Fixpoint ordered_turns (maxSpriteCount : nat) (sprites : list SpriteChain)
    (n : nat) (st : OrderedState) : outcome (OrderedState * list RenderEvent) :=
  match n with
  | O => Finished (st, [])
  | S n' =>
    outcome_bind (ordered_step maxSpriteCount sprites st)
      (fun '(st', events) =>
         outcome_bind (ordered_turns maxSpriteCount sprites n' st')
           (fun '(st'', tr) => Finished (st'', events ++ tr)))
  end.

End Packer.

Arguments SpriteChain : clear implicits.
Arguments RenderEvent : clear implicits.
Arguments FillState : clear implicits.
Arguments OrderedFill : clear implicits.

End Sprites.

(** * Lights, shader uniforms and the opaque-model submitter *)

(** [std::sort] belongs to the C++ standard library.  Given a comparator
    that is a strict weak order it returns a permutation of its input
    ordered by the comparator, by an algorithm the standard leaves open;
    the model runs insertion with the comparator, and the theorems about it
    use nothing beyond that contract. *)
Fixpoint sort_insert {A : Type} (comp : A -> A -> bool) (x : A) (l : list A) : list A :=
  match l with
  | [] => [x]
  | y :: l' => if comp x y then x :: y :: l' else y :: sort_insert comp x l'
  end.

Definition std_sort {A : Type} (comp : A -> A -> bool) (l : list A) : list A :=
  foldr (sort_insert comp) [] l.

(** The usual arithmetic conversions of a 32-bit [int] and [unsigned int]. *)
Definition to_uint32 (z : Z) : Z := (z mod 2 ^ 32)%Z.
Definition to_int32 (z : Z) : Z := ((z + 2 ^ 31) mod 2 ^ 32 - 2 ^ 31)%Z.

(** [location + offset] with [int location] and [unsigned int offset],
    handed to a parameter of type [int]: the sum is taken on [unsigned int]
    and converted back. *)
Definition location_plus (location offset : Z) : Z :=
  to_int32 (to_uint32 (location + offset)).

Module Technique.

(** Enumerations of the engine the technique uses.  Their headers are not
    among the sources at hand: the file names [LightType_Directional],
    [LightType_Point], [LightType_Spot], [BlendFunc_One] and
    [RendererComparison_Equal]; the other constructors stand for the
    remaining values of the engine's enumerations. *)
Inductive LightType : Type :=
| LightType_Directional
| LightType_Point
| LightType_Spot.

Inductive BlendFunc : Type :=
| BlendFunc_DestAlpha
| BlendFunc_DestColor
| BlendFunc_SrcAlpha
| BlendFunc_SrcColor
| BlendFunc_InvDestAlpha
| BlendFunc_InvDestColor
| BlendFunc_InvSrcAlpha
| BlendFunc_InvSrcColor
| BlendFunc_One
| BlendFunc_Zero.

Inductive RendererComparison : Type :=
| RendererComparison_Always
| RendererComparison_Equal
| RendererComparison_Greater
| RendererComparison_GreaterOrEqual
| RendererComparison_Less
| RendererComparison_LessOrEqual
| RendererComparison_Never
| RendererComparison_NotEqual.

(** [Material::GetTextureUnit(TextureMap_Shadow2D_1 + index)] and
    [Material::GetTextureUnit(TextureMap_ShadowCube_1 + index)]. *)
Inductive TextureUnit : Type :=
| TextureUnit_Shadow2D (index : nat)
| TextureUnit_ShadowCube (index : nat).

(** Values the technique only carries from the queue to the shader: it
    never computes on them.  [float32_zero] is the literal [0.f]. *)
Record Payload : Type := {
  float32 : Type;
  Color : Type;
  Vector3f : Type;
  Matrix4f : Type;
  Texture : Type;
  Spheref : Type;
  float32_zero : float32
}.

(** The part of the renderer's fixed-function state the technique reads or
    writes. *)
Record RenderStates : Type := {
  blending : bool;
  srcBlend : BlendFunc;
  dstBlend : BlendFunc;
  depthFunc : RendererComparison
}.

(** [ShaderUniforms::lightUniforms.locations] (lines 1049-1056). *)
Record LightUniformLocations : Type := {
  loc_type : Z;
  loc_color : Z;
  loc_factors : Z;
  loc_lightViewProjMatrix : Z;
  loc_parameters1 : Z;
  loc_parameters2 : Z;
  loc_parameters3 : Z;
  loc_shadowMapping : Z
}.

Record LightUniforms : Type := {
  ubo : bool;
  locations : LightUniformLocations
}.

(** [ForwardRenderTechnique::ShaderUniforms], without its two slots (see
    [Shader_signal]). *)
Record ShaderUniforms : Type := {
  lightUniforms : LightUniforms;
  hasLightUniforms : bool;
  lightOffset : Z;
  eyePosition : Z;
  sceneAmbient : Z;
  textureOverlay : Z
}.

Section Model.
Variable T : Payload.

(** [AbstractRenderQueue::DirectionalLight], [PointLight] and [SpotLight]:
    the members [SendLightUniforms] reads. *)
Record DirectionalLight : Type := {
  dl_color : Color T;
  dl_transformMatrix : Matrix4f T;
  dl_direction : Vector3f T;
  dl_shadowMap : option (Texture T);
  dl_ambientFactor : float32 T;
  dl_diffuseFactor : float32 T
}.

Record PointLight : Type := {
  pl_color : Color T;
  pl_position : Vector3f T;
  pl_shadowMap : option (Texture T);
  pl_ambientFactor : float32 T;
  pl_attenuation : float32 T;
  pl_diffuseFactor : float32 T;
  pl_invRadius : float32 T;
  pl_radius : float32 T
}.

Record SpotLight : Type := {
  sl_color : Color T;
  sl_transformMatrix : Matrix4f T;
  sl_direction : Vector3f T;
  sl_position : Vector3f T;
  sl_shadowMap : option (Texture T);
  sl_ambientFactor : float32 T;
  sl_attenuation : float32 T;
  sl_diffuseFactor : float32 T;
  sl_innerAngleCosine : float32 T;
  sl_invRadius : float32 T;
  sl_outerAngleCosine : float32 T;
  sl_radius : float32 T
}.

(** The light lists of [m_renderQueue]. *)
Record RenderQueue : Type := {
  directionalLights : list DirectionalLight;
  pointLights : list PointLight;
  spotLights : list SpotLight
}.

(** [ForwardRenderTechnique::LightIndex]: [{type, score, index}]. *)
Record LightIndex : Type := {
  li_type : LightType;
  li_score : float32 T;
  li_index : nat
}.

(** The inline helpers of the class that the source file calls and does
    not define, and the comparison of two [float] scores. *)
Record Helpers : Type := {
  float32_lt : float32 T -> float32 T -> bool;
  ComputeDirectionalLightScore : Spheref T -> DirectionalLight -> float32 T;
  ComputePointLightScore : Spheref T -> PointLight -> float32 T;
  ComputeSpotLightScore : Spheref T -> SpotLight -> float32 T;
  IsDirectionalLightSuitable : Spheref T -> DirectionalLight -> bool;
  IsPointLightSuitable : Spheref T -> PointLight -> bool;
  IsSpotLightSuitable : Spheref T -> SpotLight -> bool;
  (* Spheref(matrix.GetTranslation() + sphere.GetPosition(), sphere.radius) *)
  object_sphere : Matrix4f T -> Spheref T -> Spheref T
}.

(** ** [ChooseLights], lines 249-285 *)

(** One of the three [for] loops: lights [i], [i+1], ... of a list, each
    pushed at the back of [m_lights] when suitable. *)
Fixpoint push_suitable {L : Type} (type : LightType)
    (suitable : Spheref T -> L -> bool) (score : Spheref T -> L -> float32 T)
    (object : Spheref T) (lights : list L) (i : nat)
    (m_lights : list LightIndex) : list LightIndex :=
  match lights with
  | [] => m_lights
  | light :: rest =>
    push_suitable type suitable score object rest (S i)
      (if suitable object light
       then m_lights ++ [ {| li_type := type;
                             li_score := score object light;
                             li_index := i |} ]
       else m_lights)
  end.

Definition collect_lights (H : Helpers) (queue : RenderQueue) (object : Spheref T)
    (includeDirectionalLights : bool) : list LightIndex :=
  let m_lights := [] in
  let m_lights :=
    if includeDirectionalLights
    then push_suitable LightType_Directional (IsDirectionalLightSuitable H)
           (ComputeDirectionalLightScore H) object (directionalLights queue) 0 m_lights
    else m_lights in
  let m_lights :=
    push_suitable LightType_Point (IsPointLightSuitable H)
      (ComputePointLightScore H) object (pointLights queue) 0 m_lights in
  push_suitable LightType_Spot (IsSpotLightSuitable H)
    (ComputeSpotLightScore H) object (spotLights queue) 0 m_lights.

(** The new content of [m_lights]. *)
Definition ChooseLights (H : Helpers) (queue : RenderQueue) (object : Spheref T)
    (includeDirectionalLights : bool) : list LightIndex :=
  std_sort (fun light1 light2 => float32_lt H (li_score light1) (li_score light2))
           (collect_lights H queue object includeDirectionalLights).

(** What "the suitability predicate holds" means for an entry of
    [m_lights]: it names a light of its kind's list that is suitable for
    the object and carries that light's score. *)
Definition selected_light_ok (H : Helpers) (queue : RenderQueue) (object : Spheref T)
    (li : LightIndex) : Prop :=
  match li_type li with
  | LightType_Directional =>
    exists light, directionalLights queue !! li_index li = Some light /\
                  IsDirectionalLightSuitable H object light = true /\
                  li_score li = ComputeDirectionalLightScore H object light
  | LightType_Point =>
    exists light, pointLights queue !! li_index li = Some light /\
                  IsPointLightSuitable H object light = true /\
                  li_score li = ComputePointLightScore H object light
  | LightType_Spot =>
    exists light, spotLights queue !! li_index li = Some light /\
                  IsSpotLightSuitable H object light = true /\
                  li_score li = ComputeSpotLightScore H object light
  end.

(** [light1] may stand before [light2] in a list sorted non-decreasingly
    by score. *)
Definition score_le (H : Helpers) (light1 light2 : LightIndex) : Prop :=
  float32_lt H (li_score light2) (li_score light1) = false.

(** An entry of [m_lights] indexes its light list in range. *)
Definition light_in_range (queue : RenderQueue) (li : LightIndex) : Prop :=
  match li_type li with
  | LightType_Directional => li_index li < length (directionalLights queue)
  | LightType_Point => li_index li < length (pointLights queue)
  | LightType_Spot => li_index li < length (spotLights queue)
  end.

(** ** Calls into the shader and the renderer *)

Inductive UniformValue : Type :=
| Int_lightType (type : LightType)
| Int_value (value : Z)
| Bool_value (value : bool)
| Color_value (value : Color T)
| Vector2f_value (x y : float32 T)
| Vector4f_of_Vector3f (v : Vector3f T)
| Vector4f_of_Vector3f_float (v : Vector3f T) (w : float32 T)
| Vector4f_value (x y z w : float32 T)
| Matrix4f_value (m : Matrix4f T).

(** A draw call is recorded with the fixed-function state it runs under. *)
Inductive Call : Type :=
| Shader_Send (location : Z) (value : UniformValue)
| Renderer_SetTexture (unit : TextureUnit) (texture : Texture T)
| Renderer_SetTextureSampler (unit : TextureUnit)
| Renderer_Enable_Blend (enable : bool)
| Renderer_SetBlendFunc (src dst : BlendFunc)
| Renderer_SetDepthFunc (comparison : RendererComparison)
| Renderer_SetMatrix_World (matrix : Matrix4f T)
| Renderer_Draw (states : RenderStates) (indexed : bool) (indexCount : nat)
| InstanceBuffer_Fill (matrices : list (Matrix4f T))
| Renderer_DrawInstanced (states : RenderStates) (indexed : bool)
    (instanceCount indexCount : nat).

(** ** [SendLightUniforms], lines 1087-1175

    [None] is an access past the end of one of the queue's light lists. *)

(** [pointer != nullptr] *)
Definition not_null {A : Type} (pointer : option A) : bool :=
  match pointer with
  | Some _ => true
  | None => false
  end.

Definition send_shadowMapping (uniforms : LightUniforms) (uniformOffset : Z)
    (shadowMap : option (Texture T)) : list Call :=
  if (loc_shadowMapping (locations uniforms) =? -1)%Z
  then []
  else [Shader_Send (location_plus (loc_shadowMapping (locations uniforms)) uniformOffset)
                    (Bool_value (not_null shadowMap))].

Definition send_shadow2D (uniforms : LightUniforms) (index : nat)
    (shadowMap : option (Texture T)) (transformMatrix : Matrix4f T) : list Call :=
  match shadowMap with
  | Some texture =>
    [Renderer_SetTexture (TextureUnit_Shadow2D index) texture;
     Renderer_SetTextureSampler (TextureUnit_Shadow2D index)]
    ++ (if (loc_lightViewProjMatrix (locations uniforms) =? -1)%Z
        then []
        else [Shader_Send
                (location_plus (loc_lightViewProjMatrix (locations uniforms))
                               (Z.of_nat index))
                (Matrix4f_value transformMatrix)])
  | None => []
  end.

Definition SendLightUniforms (queue : RenderQueue) (m_lights : list LightIndex)
    (uniforms : LightUniforms) (index lightIndex : nat) (uniformOffset : Z)
  : option (list Call) :=
  let at_ location := location_plus (location (locations uniforms)) uniformOffset in
  if lightIndex <? length m_lights
  then
    lightInfo ← m_lights !! lightIndex;
    let send_type := Shader_Send (at_ loc_type) (Int_lightType (li_type lightInfo)) in
    match li_type lightInfo with
    | LightType_Directional =>
      light ← directionalLights queue !! li_index lightInfo;
      Some ([send_type;
             Shader_Send (at_ loc_color) (Color_value (dl_color light));
             Shader_Send (at_ loc_factors)
               (Vector2f_value (dl_ambientFactor light) (dl_diffuseFactor light));
             Shader_Send (at_ loc_parameters1) (Vector4f_of_Vector3f (dl_direction light))]
            ++ send_shadowMapping uniforms uniformOffset (dl_shadowMap light)
            ++ send_shadow2D uniforms index (dl_shadowMap light) (dl_transformMatrix light))
    | LightType_Point =>
      light ← pointLights queue !! li_index lightInfo;
      Some ([send_type;
             Shader_Send (at_ loc_color) (Color_value (pl_color light));
             Shader_Send (at_ loc_factors)
               (Vector2f_value (pl_ambientFactor light) (pl_diffuseFactor light));
             Shader_Send (at_ loc_parameters1)
               (Vector4f_of_Vector3f_float (pl_position light) (pl_attenuation light));
             Shader_Send (at_ loc_parameters2)
               (Vector4f_value (float32_zero T) (float32_zero T) (float32_zero T)
                               (pl_invRadius light))]
            ++ send_shadowMapping uniforms uniformOffset (pl_shadowMap light)
            ++ match pl_shadowMap light with
               | Some texture =>
                 [Renderer_SetTexture (TextureUnit_ShadowCube index) texture;
                  Renderer_SetTextureSampler (TextureUnit_ShadowCube index)]
               | None => []
               end)
    | LightType_Spot =>
      light ← spotLights queue !! li_index lightInfo;
      Some ([send_type;
             Shader_Send (at_ loc_color) (Color_value (sl_color light));
             Shader_Send (at_ loc_factors)
               (Vector2f_value (sl_ambientFactor light) (sl_diffuseFactor light));
             Shader_Send (at_ loc_parameters1)
               (Vector4f_of_Vector3f_float (sl_position light) (sl_attenuation light));
             Shader_Send (at_ loc_parameters2)
               (Vector4f_of_Vector3f_float (sl_direction light) (sl_invRadius light));
             Shader_Send (at_ loc_parameters3)
               (Vector2f_value (sl_innerAngleCosine light) (sl_outerAngleCosine light))]
            ++ send_shadowMapping uniforms uniformOffset (sl_shadowMap light)
            ++ send_shadow2D uniforms index (sl_shadowMap light) (sl_transformMatrix light))
    end
  else
    Some (if (loc_type (locations uniforms) =? -1)%Z
          then []
          else [Shader_Send (at_ loc_type) (Int_value (-1))]).

(** ** [DrawOpaqueModels], lines 636-776: one mesh entry of a material

    The world the submitter acts on: the renderer's state, the scratch
    list [m_lights] of the technique, and the calls issued so far.  The walk
    over pipelines and materials around the block (lines 590-634) binds
    state and picks [instancing] and [shaderUniforms]; they are arguments
    here. *)

Record World : Type := {
  w_states : RenderStates;
  m_lights : list LightIndex;
  w_trace : list Call
}.

Definition emit (calls : list Call) : M World unit :=
  fun w => Finished (tt, {| w_states := w_states w;
                            m_lights := m_lights w;
                            w_trace := w_trace w ++ calls |}).

Definition set_states (f : RenderStates -> RenderStates) : M World unit :=
  fun w => Finished (tt, {| w_states := f (w_states w);
                            m_lights := m_lights w;
                            w_trace := w_trace w |}).

(** Modelled from the spec: the renderer is a collaborator outside the
    sources at hand ("query ... current blend/depth state (for
    restore-after-multipass)").  [Renderer::Enable(RendererParameter_Blend, b)],
    [Renderer::SetBlendFunc], [Renderer::SetDepthFunc] store their arguments
    in the current state and [Renderer::GetDepthFunc] reads it back. *)
Definition Enable_Blend (enable : bool) : M World unit :=
  (set_states (fun st => {| blending := enable;
                            srcBlend := srcBlend st;
                            dstBlend := dstBlend st;
                            depthFunc := depthFunc st |});;;
   emit [Renderer_Enable_Blend enable])%exec.

Definition SetBlendFunc (src dst : BlendFunc) : M World unit :=
  (set_states (fun st => {| blending := blending st;
                            srcBlend := src;
                            dstBlend := dst;
                            depthFunc := depthFunc st |});;;
   emit [Renderer_SetBlendFunc src dst])%exec.

Definition SetDepthFunc (comparison : RendererComparison) : M World unit :=
  (set_states (fun st => {| blending := blending st;
                            srcBlend := srcBlend st;
                            dstBlend := dstBlend st;
                            depthFunc := comparison |});;;
   emit [Renderer_SetDepthFunc comparison])%exec.

Definition GetDepthFunc : M World RendererComparison :=
  fun w => Finished (depthFunc (w_states w), w).

(** [drawFunc(meshData.primitiveMode, 0, indexCount)] *)
Definition drawFunc (indexed : bool) (indexCount : nat) : M World unit :=
  fun w => emit [Renderer_Draw (w_states w) indexed indexCount] w.

(** [instancedDrawFunc(renderedInstanceCount, meshData.primitiveMode, 0, indexCount)] *)
Definition instancedDrawFunc (indexed : bool) (instanceCount indexCount : nat)
  : M World unit :=
  fun w => emit [Renderer_DrawInstanced (w_states w) indexed instanceCount indexCount] w.

Definition call_ChooseLights (H : Helpers) (queue : RenderQueue) (object : Spheref T)
    (includeDirectionalLights : bool) : M World unit :=
  fun w => Finished (tt, {| w_states := w_states w;
                            m_lights := ChooseLights H queue object includeDirectionalLights;
                            w_trace := w_trace w |}).

Definition call_SendLightUniforms (queue : RenderQueue) (uniforms : LightUniforms)
    (index lightIndex : nat) (uniformOffset : Z) : M World unit :=
  fun w => match SendLightUniforms queue (m_lights w) uniforms index lightIndex
                                   uniformOffset with
           | Some calls => emit calls w
           | None => OutOfBounds
           end.

(** [MeshData]: the index buffer (with its index count) when there is one,
    and the vertex count of the vertex buffer. *)
Record MeshData : Type := {
  indexBuffer : option nat;
  vertexBuffer : nat
}.

Section Submitter.
(** [NAZARA_GRAPHICS_MAX_LIGHT_PER_PASS], a macro of the engine's
    configuration header. *)
Variable MAX_LIGHT_PER_PASS : nat.
Variable H : Helpers.
Variable queue : RenderQueue.
Variable shaderUniforms : ShaderUniforms.

(** Lines 674 and 736. *)
Definition passCount_of (lightCount : nat) : nat :=
  if lightCount =? 0 then 1 else (lightCount - 1) / MAX_LIGHT_PER_PASS + 1.

(** Lines 688-690 and 747-749. *)
Definition enable_additive_blending : M World unit :=
  (Enable_Blend true;;;
   SetBlendFunc BlendFunc_One BlendFunc_One;;;
   SetDepthFunc RendererComparison_Equal)%exec.

(** Lines 694-695 and 753-754: the slots of one pass; returns the
    advanced [lightIndex]. *)
Definition send_pass_lights (lightIndex : nat) : M World nat :=
  for_loop MAX_LIGHT_PER_PASS 0 lightIndex
    (fun i lightIndex =>
       (call_SendLightUniforms queue (lightUniforms shaderUniforms) i lightIndex
          (to_uint32 (lightOffset shaderUniforms * Z.of_nat i));;;
        ret (S lightIndex))%exec).

(** Lines 727-761: one instance of a mesh, without instancing, under a
    shader that has light uniforms. *)
Definition draw_lit_instance (indexed : bool) (indexCount : nat)
    (squaredBoundingSphere : Spheref T) (matrix : Matrix4f T) : M World unit :=
  (call_ChooseLights H queue (object_sphere H matrix squaredBoundingSphere) true;;;
   fun w =>
     (let lightCount := length (m_lights w) in
      emit [Renderer_SetMatrix_World matrix];;;
      let lightIndex := 0 in
      let* oldDepthFunc := GetDepthFunc in
      let passCount := passCount_of lightCount in
      for_loop passCount 0 (lightCount, lightIndex)
        (fun pass '(lightCount, lightIndex) =>
           let lightCount := lightCount - Nat.min lightCount MAX_LIGHT_PER_PASS in
           (if pass =? 1 then enable_additive_blending else ret tt);;;
           let* lightIndex := send_pass_lights lightIndex in
           drawFunc indexed indexCount;;;
           ret (lightCount, lightIndex));;;
      Enable_Blend false;;;
      SetDepthFunc oldDepthFunc) w)%exec.

(** Lines 702-714: the instancing buffer filled and drawn chunk by
    chunk. *)
Fixpoint instance_loop (fuel : nat) (indexed : bool) (indexCount maxInstanceCount : nat)
    (instanceMatrices : list (Matrix4f T)) (instanceCount : nat) : M World unit :=
  if instanceCount =? 0
  then ret tt
  else
    match fuel with
    | O => fun _ => OutOfFuel
    | S fuel' =>
      let renderedInstanceCount := Nat.min instanceCount maxInstanceCount in
      let instanceCount := instanceCount - renderedInstanceCount in
      (emit [InstanceBuffer_Fill (take renderedInstanceCount instanceMatrices)];;;
       let instanceMatrices := drop renderedInstanceCount instanceMatrices in
       instancedDrawFunc indexed renderedInstanceCount indexCount;;;
       instance_loop fuel' indexed indexCount maxInstanceCount
                     instanceMatrices instanceCount)%exec
    end.

(** Lines 663-719: the instancing path.  [instanceBufferVertexCount] is
    [Renderer::GetInstanceBuffer()->GetVertexCount()]. *)
Definition draw_instanced (fuel : nat) (indexed : bool) (indexCount : nat)
    (instanceBufferVertexCount : nat) (instances : list (Matrix4f T)) : M World unit :=
  (let lightCount := length (directionalLights queue) in
   let lightIndex := 0 in
   let* oldDepthFunc := GetDepthFunc in
   let passCount := passCount_of lightCount in
   for_loop passCount 0 (lightCount, lightIndex)
     (fun pass '(lightCount, lightIndex) =>
        let* counters :=
          (if hasLightUniforms shaderUniforms
           then
             let renderedLightCount := Nat.min lightCount MAX_LIGHT_PER_PASS in
             let lightCount := lightCount - renderedLightCount in
             (if pass =? 1 then enable_additive_blending else ret tt);;;
             let* lightIndex := send_pass_lights lightIndex in
             ret (lightCount, lightIndex)
           else ret (lightCount, lightIndex)) in
        instance_loop fuel indexed indexCount instanceBufferVertexCount
                      instances (length instances);;;
        ret counters);;;
   Enable_Blend false;;;
   SetDepthFunc oldDepthFunc)%exec.

(** [for (const Matrix4f& matrix : instances) body(matrix)] *)
Fixpoint for_each_instance (instances : list (Matrix4f T))
    (body : Matrix4f T -> M World unit) : M World unit :=
  match instances with
  | [] => ret tt
  | matrix :: rest => (body matrix;;; for_each_instance rest body)%exec
  end.

(** Lines 636-776. *)
Definition DrawOpaqueModels_mesh (fuel : nat) (instancing : bool) (meshData : MeshData)
    (instanceBufferVertexCount : nat) (squaredBoundingSphere : Spheref T)
    (instances : list (Matrix4f T)) : M World unit :=
  match instances with
  | [] => ret tt
  | _ :: _ =>
    let indexed := not_null (indexBuffer meshData) in
    let indexCount := match indexBuffer meshData with
                      | Some indexCount => indexCount
                      | None => vertexBuffer meshData
                      end in
    if instancing
    then draw_instanced fuel indexed indexCount instanceBufferVertexCount instances
    else if hasLightUniforms shaderUniforms
    then for_each_instance instances
           (draw_lit_instance indexed indexCount squaredBoundingSphere)
    else for_each_instance instances
           (fun matrix => (emit [Renderer_SetMatrix_World matrix];;;
                           drawFunc indexed indexCount)%exec)
  end.

End Submitter.

(** Observations on a trace: the state each draw call ran under, and the
    light types sent to the shader's light slots. *)
Definition draw_states (tr : list Call) : list RenderStates :=
  omap (fun c => match c with
                 | Renderer_Draw st _ _ => Some st
                 | Renderer_DrawInstanced st _ _ _ => Some st
                 | _ => None
                 end) tr.

Definition sent_light_types (tr : list Call) : list LightType :=
  omap (fun c => match c with
                 | Shader_Send _ (Int_lightType type) => Some type
                 | _ => None
                 end) tr.

(** The state lines 688-690 and 747-749 leave behind. *)
Definition additive_states : RenderStates :=
  {| blending := true;
     srcBlend := BlendFunc_One;
     dstBlend := BlendFunc_One;
     depthFunc := RendererComparison_Equal |}.

(** [w'] is [w] after further calls, the draw calls among them running
    under the states [draws], with [m_lights] untouched. *)
Definition runs_to (w w' : World) (draws : list RenderStates) : Prop :=
  m_lights w' = m_lights w /\
  exists calls, w_trace w' = w_trace w ++ calls /\ draw_states calls = draws.

(** The states of the draw calls of the first [pass] passes of an object
    whose first pass starts under [initial], and the renderer's state when
    pass number [pass] begins. *)
Definition draws_before (initial : RenderStates) (pass : nat) : list RenderStates :=
  match pass with
  | O => []
  | S pass' => initial :: replicate pass' additive_states
  end.

Definition states_at (initial : RenderStates) (pass : nat) : RenderStates :=
  if pass <=? 1 then initial else additive_states.

End Model.

Arguments li_type {T} _.
Arguments li_score {T} _.
Arguments li_index {T} _.
Arguments directionalLights {T} _.
Arguments pointLights {T} _.
Arguments spotLights {T} _.
Arguments float32_lt {T} _ _ _.
Arguments ComputeDirectionalLightScore {T} _ _ _.
Arguments ComputePointLightScore {T} _ _ _.
Arguments ComputeSpotLightScore {T} _ _ _.
Arguments IsDirectionalLightSuitable {T} _ _ _.
Arguments IsPointLightSuitable {T} _ _ _.
Arguments IsSpotLightSuitable {T} _ _ _.
Arguments object_sphere {T} _ _ _.
Arguments w_states {T} _.
Arguments m_lights {T} _.
Arguments w_trace {T} _.
Arguments ChooseLights {T} H queue object includeDirectionalLights.
Arguments collect_lights {T} H queue object includeDirectionalLights.
Arguments selected_light_ok {T} H queue object li.
Arguments score_le {T} H light1 light2.
Arguments light_in_range {T} queue li.
Arguments SendLightUniforms {T} queue m_lights uniforms index lightIndex uniformOffset.
Arguments emit {T} calls _.
Arguments set_states {T} f _.
Arguments Enable_Blend {T} enable _.
Arguments SetBlendFunc {T} src dst _.
Arguments SetDepthFunc {T} comparison _.
Arguments GetDepthFunc {T} _.
Arguments drawFunc {T} indexed indexCount _.
Arguments instancedDrawFunc {T} indexed instanceCount indexCount _.
Arguments call_ChooseLights {T} H queue object includeDirectionalLights _.
Arguments call_SendLightUniforms {T} queue uniforms index lightIndex uniformOffset _.
Arguments enable_additive_blending {T} _.
Arguments send_pass_lights {T} MAX_LIGHT_PER_PASS queue shaderUniforms lightIndex _.
Arguments instance_loop {T} fuel indexed indexCount maxInstanceCount
  instanceMatrices instanceCount _.
Arguments for_each_instance {T} instances body _.
Arguments draw_states {T} tr.
Arguments runs_to {T} w w' draws.
Arguments sent_light_types {T} tr.
Arguments draw_lit_instance {T} MAX_LIGHT_PER_PASS H queue shaderUniforms
  indexed indexCount squaredBoundingSphere matrix.
Arguments draw_instanced {T} MAX_LIGHT_PER_PASS queue shaderUniforms
  fuel indexed indexCount instanceBufferVertexCount instances.
Arguments DrawOpaqueModels_mesh {T} MAX_LIGHT_PER_PASS H queue shaderUniforms
  fuel instancing meshData instanceBufferVertexCount squaredBoundingSphere instances.
Arguments Shader_Send {T} location value.
Arguments Renderer_SetTexture {T} unit texture.
Arguments Renderer_SetTextureSampler {T} unit.
Arguments Renderer_Enable_Blend {T} enable.
Arguments Renderer_SetBlendFunc {T} src dst.
Arguments Renderer_SetDepthFunc {T} comparison.
Arguments Renderer_SetMatrix_World {T} matrix.
Arguments Renderer_Draw {T} states indexed indexCount.
Arguments InstanceBuffer_Fill {T} matrices.
Arguments Renderer_DrawInstanced {T} states indexed instanceCount indexCount.
Arguments Int_lightType {T} type.
Arguments Int_value {T} value.
Arguments Bool_value {T} value.
Arguments Color_value {T} value.
Arguments Vector2f_value {T} x y.
Arguments Vector4f_of_Vector3f {T} v.
Arguments Vector4f_of_Vector3f_float {T} v w.
Arguments Vector4f_value {T} x y z w.
Arguments Matrix4f_value {T} m.

(** ** The shader uniform cache, lines 1028-1076 *)

(** A shader is known to the cache by its address. *)
Definition Shader : Type := positive.

(** What [shader->GetUniformLocation(name)] answers at the time of the
    call, for every shader; [-1] when the shader has no such uniform. *)
Definition Programs : Type := Shader -> string -> Z.

(** [m_shaderUniforms] and the log of the [GetUniformLocation] calls made
    so far. *)
Record CacheState : Type := {
  m_shaderUniforms : gmap Shader ShaderUniforms;
  resolved : list (Shader * string)
}.

Definition GetUniformLocation (programs : Programs) (shader : Shader) (name : string)
  : M CacheState Z :=
  fun st => Finished (programs shader name,
                      {| m_shaderUniforms := m_shaderUniforms st;
                         resolved := resolved st ++ [(shader, name)] |}).

(** Line 1061: [m_shaderUniforms.emplace(shader, std::move(uniforms)).first],
    the entry of the key, inserted when the key has none. *)
Definition emplace (shader : Shader) (uniforms : ShaderUniforms)
  : M CacheState ShaderUniforms :=
  fun st =>
    match m_shaderUniforms st !! shader with
    | Some present => Finished (present, st)
    | None =>
      Finished (uniforms,
                {| m_shaderUniforms := <[shader := uniforms]> (m_shaderUniforms st);
                   resolved := resolved st |})
    end.

(** Members the source leaves unset when the shader has no light
    uniforms; nothing reads them in that case. *)
Definition unset_LightUniforms : LightUniforms :=
  {| ubo := false;
     locations := {| loc_type := 0; loc_color := 0; loc_factors := 0;
                     loc_lightViewProjMatrix := 0; loc_parameters1 := 0;
                     loc_parameters2 := 0; loc_parameters3 := 0;
                     loc_shadowMapping := 0 |} |}.

(** Lines 1033-1061: the binding built on a cache miss. *)
Definition resolve_uniforms (programs : Programs) (shader : Shader)
  : M CacheState ShaderUniforms :=
  (let get := GetUniformLocation programs shader in
   let* eyePosition := get "EyePosition"%string in
   let* sceneAmbient := get "SceneAmbient"%string in
   let* textureOverlay := get "TextureOverlay"%string in
   let* type0Location := get "Lights[0].type"%string in
   let* type1Location := get "Lights[1].type"%string in
   if (0 <? type0Location)%Z && (0 <? type1Location)%Z
   then
     let* color := get "Lights[0].color"%string in
     let* factors := get "Lights[0].factors"%string in
     let* lightViewProjMatrix := get "LightViewProjMatrix[0]"%string in
     let* parameters1 := get "Lights[0].parameters1"%string in
     let* parameters2 := get "Lights[0].parameters2"%string in
     let* parameters3 := get "Lights[0].parameters3"%string in
     let* shadowMapping := get "Lights[0].shadowMapping"%string in
     ret {| lightUniforms :=
              {| ubo := false;
                 locations := {| loc_type := type0Location;
                                 loc_color := color;
                                 loc_factors := factors;
                                 loc_lightViewProjMatrix := lightViewProjMatrix;
                                 loc_parameters1 := parameters1;
                                 loc_parameters2 := parameters2;
                                 loc_parameters3 := parameters3;
                                 loc_shadowMapping := shadowMapping |} |};
            hasLightUniforms := true;
            lightOffset := type1Location - type0Location;
            eyePosition := eyePosition;
            sceneAmbient := sceneAmbient;
            textureOverlay := textureOverlay |}
   else
     ret {| lightUniforms := unset_LightUniforms;
            hasLightUniforms := false;
            lightOffset := 0;
            eyePosition := eyePosition;
            sceneAmbient := sceneAmbient;
            textureOverlay := textureOverlay |})%exec.

(** Lines 1028-1065. *)
Definition GetShaderUniforms (programs : Programs) (shader : Shader)
  : M CacheState ShaderUniforms :=
  fun st =>
    match m_shaderUniforms st !! shader with
    | Some uniforms => Finished (uniforms, st)
    | None => (let* uniforms := resolve_uniforms programs shader in
               emplace shader uniforms)%exec st
    end.

(** Lines 1073-1076. *)
Definition OnShaderInvalidated (shader : Shader) : M CacheState unit :=
  fun st => Finished (tt, {| m_shaderUniforms := delete shader (m_shaderUniforms st);
                             resolved := resolved st |}).

Inductive ShaderSignal : Type :=
| OnShaderRelease
| OnShaderUniformInvalidated.

(** Modelled from the spec: the signal and slot classes are outside the
    sources at hand ("registered as a reactive subscriber to the shader's
    released and uniforms invalidated signals; on either, the cache entry
    is dropped").  The two slots connected at lines 1034-1035 live in the
    cache entry, so a signal of [shader] reaches [OnShaderInvalidated]
    exactly while the cache holds an entry for it. *)
Definition Shader_signal (signal : ShaderSignal) (shader : Shader) : M CacheState unit :=
  fun st =>
    match m_shaderUniforms st !! shader with
    | Some _ => OnShaderInvalidated shader st
    | None => Finished (tt, st)
    end.

(** A uniform location is valid when it is not [-1] (the test of lines
    1105, 1115 and 1172). *)
Definition valid_location (location : Z) : Prop := location <> (-1)%Z.

(** ** Instances used by the closed examples: every payload is a number,
    a score is a distance, a light is suitable within its radius. *)

Definition natT : Payload :=
  {| float32 := nat; Color := nat; Vector3f := nat; Matrix4f := nat;
     Texture := nat; Spheref := nat; float32_zero := 0 |}.

Definition natH : Helpers natT :=
  Build_Helpers natT
    Nat.ltb
    (fun _ _ => 0)
    (fun object light => pl_position natT light + object)
    (fun object light => sl_position natT light + object)
    (fun _ _ => true)
    (fun object light => pl_position natT light + object <=? pl_radius natT light)
    (fun object light => sl_position natT light + object <=? sl_radius natT light)
    (fun matrix sphere => matrix + sphere).

Definition sun : DirectionalLight natT :=
  Build_DirectionalLight natT 1 0 1 None 2 3.

Definition lamp (position radius : nat) : PointLight natT :=
  Build_PointLight natT 7 position None 2 1 3 1 radius.

Definition selected (type : LightType) (score index : nat) : LightIndex natT :=
  Build_LightIndex natT type score index.

Definition example_locations : LightUniformLocations :=
  {| loc_type := 10; loc_color := 11; loc_factors := 12;
     loc_lightViewProjMatrix := 20; loc_parameters1 := 13;
     loc_parameters2 := 14; loc_parameters3 := 15; loc_shadowMapping := 16 |}.

Definition example_uniforms : ShaderUniforms :=
  {| lightUniforms := {| ubo := false; locations := example_locations |};
     hasLightUniforms := true;
     lightOffset := 8;
     eyePosition := 1;
     sceneAmbient := 2;
     textureOverlay := 3 |}.

(** The renderer's state for an opaque material: no blending, factors
    one and zero, depth test "less". *)
Definition opaque_states : RenderStates :=
  {| blending := false;
     srcBlend := BlendFunc_One;
     dstBlend := BlendFunc_Zero;
     depthFunc := RendererComparison_Less |}.

Definition fresh_world : World natT :=
  Build_World natT opaque_states [] [].

(** One directional light and one point light in reach of the origin. *)
Definition sun_and_lamp : RenderQueue natT :=
  Build_RenderQueue natT [sun] [lamp 1 10] [].

Definition no_lights : RenderQueue natT :=
  Build_RenderQueue natT [] [] [].

(** The renderer's state for a material that blends without being depth
    sorted. *)
Definition blending_world : World natT :=
  Build_World natT
    {| blending := true;
       srcBlend := BlendFunc_SrcAlpha;
       dstBlend := BlendFunc_InvSrcAlpha;
       depthFunc := RendererComparison_LessOrEqual |}
    [] [].

(** Four point lights in reach of the origin. *)
Definition four_lamps : RenderQueue natT :=
  Build_RenderQueue natT [] [lamp 1 10; lamp 2 10; lamp 3 10; lamp 4 10] [].

(** A shader whose light array starts at location 0, eight locations per
    element. *)
Definition program_lights_at_zero : Programs :=
  fun _ name =>
    if String.eqb name "Lights[0].type" then 0%Z
    else if String.eqb name "Lights[0].color" then 1%Z
    else if String.eqb name "Lights[0].factors" then 2%Z
    else if String.eqb name "Lights[0].parameters1" then 3%Z
    else if String.eqb name "Lights[0].parameters2" then 4%Z
    else if String.eqb name "Lights[0].parameters3" then 5%Z
    else if String.eqb name "Lights[0].shadowMapping" then 6%Z
    else if String.eqb name "Lights[1].type" then 8%Z
    else if String.eqb name "EyePosition" then 24%Z
    else if String.eqb name "SceneAmbient" then 25%Z
    else (-1)%Z.

Definition empty_cache : CacheState :=
  {| m_shaderUniforms := ∅; resolved := [] |}.

End Technique.

(** * Static initialisation, lines 171-230 *)

Module Init.

Inductive VertexComponent : Type :=
| VertexComponent_Color
| VertexComponent_Position
| VertexComponent_TexCoord
| VertexComponent_Userdata0
| VertexComponent_InstanceData0
| VertexComponent_InstanceData1
| VertexComponent_InstanceData2.

(** The calls of the [try] block that create or fill a resource, in
    program order. *)
Inductive InitStep : Type :=
| QuadIndexBuffer_Reset
| QuadIndexBuffer_Map
| QuadIndexBuffer_Unmap
| QuadVertexBuffer_Reset
| QuadVertexBuffer_FillRaw
| BillboardVertexDeclaration_EnableComponent (component : VertexComponent)
| BillboardInstanceDeclaration_EnableComponent (component : VertexComponent)
| ShadowSampler_SetFilterMode
| ShadowSampler_SetWrapMode.

Definition init_steps : list InitStep :=
  [QuadIndexBuffer_Reset;
   QuadIndexBuffer_Map;
   QuadIndexBuffer_Unmap;
   QuadVertexBuffer_Reset;
   QuadVertexBuffer_FillRaw;
   BillboardVertexDeclaration_EnableComponent VertexComponent_Color;
   BillboardVertexDeclaration_EnableComponent VertexComponent_Position;
   BillboardVertexDeclaration_EnableComponent VertexComponent_TexCoord;
   BillboardVertexDeclaration_EnableComponent VertexComponent_Userdata0;
   BillboardInstanceDeclaration_EnableComponent VertexComponent_InstanceData0;
   BillboardInstanceDeclaration_EnableComponent VertexComponent_InstanceData1;
   BillboardInstanceDeclaration_EnableComponent VertexComponent_InstanceData2;
   ShadowSampler_SetFilterMode;
   ShadowSampler_SetWrapMode].

(** How a call ends: it returns, or an exception derived from
    [std::exception] leaves it, carrying [what()]. *)
Inductive completion (A : Type) : Type :=
| Returned (a : A)
| Threw (what : string).
Arguments Returned {A} a.
Arguments Threw {A} what.

(** The statics written by [Initialize], the steps done and the messages
    given to [NazaraError]. *)
Record InitState : Type := {
  quadIndices : list Z;
  performed : list InitStep;
  errors : list string
}.

Definition E (A : Type) : Type := InitState -> completion A * InitState.

Definition e_ret {A : Type} (a : A) : E A := fun st => (Returned a, st).

Definition e_bind {A B : Type} (c : E A) (k : A -> E B) : E B :=
  fun st => match c st with
            | (Returned a, st') => k a st'
            | (Threw what, st') => (Threw what, st')
            end.

(** Under [ErrorFlags flags(ErrorFlag_ThrowException, true)] a step that
    fails throws; [failure step] is the message of the error the
    environment answers to [step], if any. *)
Definition do_step (failure : InitStep -> option string) (step : InitStep) : E unit :=
  fun st => match failure step with
            | Some what => (Threw what, st)
            | None => (Returned tt, {| quadIndices := quadIndices st;
                                       performed := performed st ++ [step];
                                       errors := errors st |})
            end.

Definition to_uint16 (z : Z) : Z := (z mod 2 ^ 16)%Z.

(** Lines 182-191: six [UInt16] indices per quad. *)
Definition quad_indices (quads : nat) : list Z :=
  flat_map (fun i : nat =>
              let i := Z.of_nat i in
              [to_uint16 (i * 4 + 0); to_uint16 (i * 4 + 2); to_uint16 (i * 4 + 1);
               to_uint16 (i * 4 + 2); to_uint16 (i * 4 + 3); to_uint16 (i * 4 + 1)]%Z)
           (seq 0 quads).

Definition write_quad_indices : E unit :=
  fun st => (Returned tt, {| quadIndices := quad_indices s_maxQuads;
                             performed := performed st;
                             errors := errors st |}).

(** Lines 175-221: the body of the [try] block. *)
Definition try_block (failure : InitStep -> option string) : E unit :=
  let step := do_step failure in
  let then_ (c : E unit) (k : E unit) : E unit := e_bind c (fun _ => k) in
  then_ (step QuadIndexBuffer_Reset)
  (then_ (step QuadIndexBuffer_Map)
  (then_ write_quad_indices
  (then_ (step QuadIndexBuffer_Unmap)
  (then_ (step QuadVertexBuffer_Reset)
  (then_ (step QuadVertexBuffer_FillRaw)
  (then_ (step (BillboardVertexDeclaration_EnableComponent VertexComponent_Color))
  (then_ (step (BillboardVertexDeclaration_EnableComponent VertexComponent_Position))
  (then_ (step (BillboardVertexDeclaration_EnableComponent VertexComponent_TexCoord))
  (then_ (step (BillboardVertexDeclaration_EnableComponent VertexComponent_Userdata0))
  (then_ (step (BillboardInstanceDeclaration_EnableComponent VertexComponent_InstanceData0))
  (then_ (step (BillboardInstanceDeclaration_EnableComponent VertexComponent_InstanceData1))
  (then_ (step (BillboardInstanceDeclaration_EnableComponent VertexComponent_InstanceData2))
  (then_ (step ShadowSampler_SetFilterMode)
         (step ShadowSampler_SetWrapMode)))))))))))))).

(** [NazaraError(message)] outside the scope of the [ErrorFlags] object:
    the message is logged. *)
Definition NazaraError (message : string) : E unit :=
  fun st => (Returned tt, {| quadIndices := quadIndices st;
                             performed := performed st;
                             errors := errors st ++ [message] |}).

(** Lines 171-230. *)
Definition Initialize (failure : InitStep -> option string) : E bool :=
  fun st =>
    match try_block failure st with
    | (Returned _, st') => (Returned true, st')
    | (Threw what, st') =>
      e_bind (NazaraError ("Failed to initialise: " ++ what)%string)
             (fun _ => e_ret false) st'
    end.

Definition init_state : InitState :=
  {| quadIndices := []; performed := []; errors := [] |}.

End Init.

(** * Further vocabulary for the sprite packers *)

Module SpritesMore.
Import Sprites.

Section Vocabulary.
Context {Vertex : Type}.

(** One draw per chain, each starting in the index buffer where the
    previous one ended: the calls of line 915 when the buffer holds whole
    chains from sprite [spriteIndex] on. *)
Fixpoint chain_draws (spriteIndex : nat) (chains : list (SpriteChain Vertex))
  : list (RenderEvent Vertex) :=
  match chains with
  | [] => []
  | c :: rest =>
    DrawIndexedPrimitives (spriteIndex * 6) (spriteCount c * 6)
    :: chain_draws (spriteIndex + spriteCount c) rest
  end.

End Vocabulary.

End SpritesMore.

(** * Further vocabulary for the model submitters *)

(** Sizes of the chunks in which [n] items go through a buffer of
    [capacity] items: full chunks, then what is left. *)
Definition chunk_sizes (n capacity : nat) : list nat :=
  replicate (n / capacity) capacity
  ++ (if n mod capacity =? 0 then [] else [n mod capacity]).

Module TechniqueMore.
Import Technique.

Section Observations.
Variable T : Payload.

(** The contents of the fills of the instancing buffer, in order. *)
Definition instance_fills (tr : list (Call T)) : list (list (Matrix4f T)) :=
  omap (fun c => match c with
                 | InstanceBuffer_Fill matrices => Some matrices
                 | _ => None
                 end) tr.

(** The instance counts of the instanced draw calls. *)
Definition instanced_draw_counts (tr : list (Call T)) : list nat :=
  omap (fun c => match c with
                 | Renderer_DrawInstanced _ _ instanceCount _ => Some instanceCount
                 | _ => None
                 end) tr.

(** The world matrices set, in order. *)
Definition world_matrices (tr : list (Call T)) : list (Matrix4f T) :=
  omap (fun c => match c with
                 | Renderer_SetMatrix_World matrix => Some matrix
                 | _ => None
                 end) tr.

(** The calls that submit geometry: they set the world matrix, fill the
    instancing buffer or draw.  The other calls write uniforms, bind
    textures or change the fixed-function state. *)
Definition is_geometry (c : Call T) : bool :=
  match c with
  | Renderer_SetMatrix_World _
  | Renderer_Draw _ _ _
  | InstanceBuffer_Fill _
  | Renderer_DrawInstanced _ _ _ _ => true
  | _ => false
  end.

Definition geometry (tr : list (Call T)) : list (Call T) := List.filter is_geometry tr.

(** [w'] is [w] after further calls, those that submit geometry being
    [submitted], with [m_lights] untouched. *)
Definition submits (w w' : World T) (submitted : list (Call T)) : Prop :=
  m_lights w' = m_lights w /\
  exists calls, w_trace w' = w_trace w ++ calls /\ geometry calls = submitted.

End Observations.

Arguments instance_fills {T} tr.
Arguments instanced_draw_counts {T} tr.
Arguments world_matrices {T} tr.
Arguments is_geometry {T} c.
Arguments geometry {T} tr.
Arguments submits {T} w w' submitted.

(** ** [DrawTransparentModels], lines 929-1019: lights and draw calls

    The calls that apply pipelines and materials (lines 946-953), which
    install render states of their own, and the two scene uniforms (lines
    964-966) are left out: the state a draw call is recorded with is the
    one the technique's own calls leave. *)

Section Transparent.
Variable T : Payload.
Variable MAX_LIGHT_PER_PASS : nat.
Variable H : Helpers T.
Variable queue : RenderQueue T.

(** [SendLightUniforms(shader, shaderUniforms->lightUniforms, i, i,
    shaderUniforms->lightOffset * i)] for [i] from [first] on, [count]
    times. *)
Definition send_slots (shaderUniforms : ShaderUniforms) (first count : nat)
  : M (World T) unit :=
  for_loop count first tt
    (fun i _ =>
       call_SendLightUniforms queue (lightUniforms shaderUniforms) i i
         (to_uint32 (lightOffset shaderUniforms * Z.of_nat i))).

(** Lines 973-979, run when the shader changes: the new [lightCount]. *)
Definition send_directional_slots (shaderUniforms : ShaderUniforms) (lightCount : nat)
  : M (World T) nat :=
  if hasLightUniforms shaderUniforms
  then
    let lightCount := Nat.min (length (directionalLights queue)) MAX_LIGHT_PER_PASS in
    (send_slots shaderUniforms 0 lightCount;;;
     ret lightCount)%exec
  else ret lightCount.

(** Lines 985-1017: the lights, world matrix and draw call of one
    depth-sorted entry. *)
Definition draw_transparent_model (shaderUniforms : ShaderUniforms) (lightCount : nat)
    (meshData : MeshData) (matrix : Matrix4f T) (obbSphere : Spheref T)
  : M (World T) unit :=
  let indexed := not_null (indexBuffer meshData) in
  let indexCount := match indexBuffer meshData with
                    | Some indexCount => indexCount
                    | None => vertexBuffer meshData
                    end in
  ((if hasLightUniforms shaderUniforms && (lightCount <? MAX_LIGHT_PER_PASS)
    then
      call_ChooseLights H queue (object_sphere H matrix obbSphere) false;;;
      send_slots shaderUniforms lightCount (MAX_LIGHT_PER_PASS - lightCount)
    else ret tt);;;
   emit [Renderer_SetMatrix_World matrix];;;
   drawFunc indexed indexCount)%exec.

(** [ForwardRenderQueue::UnbatchedModelData], with the shader its
    material's pipeline gives. *)
Record UnbatchedModelData : Type := {
  md_shader : Shader;
  md_meshData : MeshData;
  md_transformMatrix : Matrix4f T;
  md_obbSphere : Spheref T
}.

(** What [GetShaderUniforms] answers for each shader during the call. *)
Variable uniforms_of : Shader -> ShaderUniforms.

(** Lines 938-1018: the loop over the depth-sorted entries, in the order
    [layer.depthSortedMeshes] gives.  [shaderUniforms] is read only after
    the first entry has set it. *)
Fixpoint DrawTransparentModels_from (lastShader : option Shader)
    (shaderUniforms : ShaderUniforms) (lightCount : nat)
    (models : list UnbatchedModelData) : M (World T) unit :=
  match models with
  | [] => ret tt
  | modelData :: rest =>
    let shader := md_shader modelData in
    (let* (shaderUniforms, lightCount) :=
       (if bool_decide (lastShader = Some shader)
        then ret (shaderUniforms, lightCount)
        else
          let shaderUniforms := uniforms_of shader in
          let* lightCount := send_directional_slots shaderUniforms lightCount in
          ret (shaderUniforms, lightCount)) in
     draw_transparent_model shaderUniforms lightCount (md_meshData modelData)
       (md_transformMatrix modelData) (md_obbSphere modelData);;;
     DrawTransparentModels_from (Some shader) shaderUniforms lightCount rest)%exec
  end.

Definition DrawTransparentModels (models : list UnbatchedModelData) : M (World T) unit :=
  match models with
  | [] => ret tt
  | modelData :: _ =>
    DrawTransparentModels_from None (uniforms_of (md_shader modelData)) 0 models
  end.

End Transparent.

Arguments send_slots {T} queue shaderUniforms first count _.
Arguments send_directional_slots {T} MAX_LIGHT_PER_PASS queue shaderUniforms lightCount _.
Arguments draw_transparent_model {T} MAX_LIGHT_PER_PASS H queue shaderUniforms lightCount
  meshData matrix obbSphere _.
Arguments md_shader {T} _.
Arguments md_meshData {T} _.
Arguments md_transformMatrix {T} _.
Arguments md_obbSphere {T} _.
Arguments DrawTransparentModels_from {T} MAX_LIGHT_PER_PASS H queue uniforms_of
  lastShader shaderUniforms lightCount models _.
Arguments DrawTransparentModels {T} MAX_LIGHT_PER_PASS H queue uniforms_of models _.

End TechniqueMore.

(** * [DrawBillboards], lines 412-572: the billboards of one material

    The walk over pipelines and materials binds the shader and sends the
    scene uniforms as in the other submitters; the model starts at the
    billboard vector of one material entry. *)

Module Billboards.

Section Model.
Context {Color Vector3f Vector2f Material : Type}.

(** [ForwardRenderQueue::BillboardData]. *)
Record BillboardData : Type := {
  center : Vector3f;
  size : Vector2f;
  sinCos : Vector2f;
  color : Color
}.

(** [BillboardPoint] (lines 27-34).  The texture coordinates the code
    writes are the constants [0.f] and [1.f]. *)
Record BillboardPoint : Type := {
  bp_color : Color;
  bp_position : Vector3f;
  bp_size : Vector2f;
  bp_sinCos : Vector2f;
  bp_uv : Z * Z
}.

Inductive BillboardEvent : Type :=
(* material->Apply(pipelineInstance) *)
| Material_Apply (material : Material)
(* instanceBuffer->Fill(data, 0, renderedBillboardCount) *)
| InstanceBuffer_Fill (data : list BillboardData)
(* Renderer::DrawPrimitivesInstanced(renderedBillboardCount, PrimitiveMode_TriangleStrip, 0, 4) *)
| DrawPrimitivesInstanced (instanceCount : nat)
(* BufferMapper over [vertexCount] vertices of m_billboardPointBuffer, the
   vertices written through it, Unmap *)
| VertexMapper_Write (vertexCount : nat) (vertices : list BillboardPoint)
(* Renderer::DrawIndexedPrimitives(PrimitiveMode_TriangleList, 0, indexCount) *)
| DrawIndexedPrimitives (indexCount : nat).

(** Lines 461-473 and 520-566 share their loop:
    [do { rendered = min(count, max); count -= rendered; body; data += rendered; }
     while (count > 0)]. *)
Fixpoint do_while_chunks (fuel : nat)
    (body : nat -> list BillboardData -> list BillboardEvent)
    (maxBillboardPerDraw : nat) (data : list BillboardData) (billboardCount : nat)
  : outcome (list BillboardEvent) :=
  match fuel with
  | O => OutOfFuel
  | S fuel' =>
    let renderedBillboardCount := Nat.min billboardCount maxBillboardPerDraw in
    let billboardCount := billboardCount - renderedBillboardCount in
    let events := body renderedBillboardCount data in
    let data := drop renderedBillboardCount data in
    if 0 <? billboardCount
    then outcome_bind (do_while_chunks fuel' body maxBillboardPerDraw data billboardCount)
                      (fun rest => Finished (events ++ rest))
    else Finished events
  end.



(** Lines 530-560: the four vertices of one billboard. *)
Definition billboard_vertices (billboard : BillboardData) : list BillboardPoint :=
  let vertex (uv : Z * Z) :=
    {| bp_color := color billboard;
       bp_position := center billboard;
       bp_size := size billboard;
       bp_sinCos := sinCos billboard;
       bp_uv := uv |} in
  [vertex (0, 1)%Z; vertex (1, 1)%Z; vertex (0, 0)%Z; vertex (1, 0)%Z].

(** Lines 525-565. *)
Definition quads_body (renderedBillboardCount : nat) (data : list BillboardData)
  : list BillboardEvent :=
  [VertexMapper_Write (renderedBillboardCount * 4)
     (flat_map billboard_vertices (take renderedBillboardCount data));
   DrawIndexedPrimitives (renderedBillboardCount * 6)].

(** Lines 511-567, the path without instancing.  [&billboardVector[0]]
    (line 516) is taken whatever the size of the vector: on an empty
    vector it is an access out of range.  The material is not applied and
    the vector is left as it is. *)
Definition DrawBillboards_quads (fuel : nat) (billboardPointBufferVertexCount : nat)
    (billboardVector : list BillboardData) : outcome (list BillboardEvent) :=
  match billboardVector with
  | [] => OutOfBounds
  | _ :: _ =>
    let maxBillboardPerDraw :=
      Nat.min s_maxQuads (billboardPointBufferVertexCount / 4) in
    do_while_chunks fuel quads_body maxBillboardPerDraw billboardVector
                    (length billboardVector)
  end.

(** Observations on the calls. *)
Definition applied_materials (events : list BillboardEvent) : list Material :=
  omap (fun e => match e with Material_Apply material => Some material | _ => None end)
       events.

Definition instance_fills (events : list BillboardEvent) : list (list BillboardData) :=
  omap (fun e => match e with InstanceBuffer_Fill data => Some data | _ => None end)
       events.

Definition instanced_draw_counts (events : list BillboardEvent) : list nat :=
  omap (fun e => match e with DrawPrimitivesInstanced count => Some count | _ => None end)
       events.

Definition written_vertices (events : list BillboardEvent) : list (list BillboardPoint) :=
  omap (fun e => match e with VertexMapper_Write _ vertices => Some vertices | _ => None end)
       events.

Definition mapped_vertex_counts (events : list BillboardEvent) : list nat :=
  omap (fun e => match e with VertexMapper_Write count _ => Some count | _ => None end)
       events.

Definition draw_index_counts (events : list BillboardEvent) : list nat :=
  omap (fun e => match e with DrawIndexedPrimitives count => Some count | _ => None end)
       events.

End Model.

Arguments BillboardData : clear implicits.
Arguments BillboardPoint : clear implicits.
Arguments BillboardEvent : clear implicits.

End Billboards.

(** Proof step: run the next call of a sequence with its specification
    [spec], which gives the world after it, what it appended and the
    renderer's state. *)
Ltac run_with spec w' Hto Hst :=
  let Hrun := fresh "Hrun" in
  destruct spec as (w' & Hrun & Hto & Hst);
  unfold bind at 1; rewrite Hrun; cbn [outcome_bind].

(** Proof steps for [Initialize]: case on the answer of the environment
    to the next step of the [try] block, and split a list of steps at a
    given step. *)
Ltac first_failure failure :=
  match goal with
  | |- context [match failure ?s with _ => _ end] =>
    destruct (failure s) eqn:?; cbn [Init.quadIndices Init.performed Init.errors]
  end.

Ltac split_at s l :=
  lazymatch l with
  | s :: ?rest => constr:((@nil Init.InitStep, rest))
  | ?x :: ?tl =>
    lazymatch split_at s tl with
    | (?done, ?rest) => constr:((x :: done, rest))
    end
  end.

(* ===================================================================== *)
(** * Theorems *)
(* ===================================================================== *)

Lemma outcome_bind_Finished {A B : Type} (o : outcome A) (k : A -> outcome B) (b : B) :
  outcome_bind o k = Finished b -> exists a, o = Finished a /\ k a = Finished b.
Proof. destruct o; simpl; intros H; try discriminate. eauto. Qed.

Lemma ceil_div_split (k last C : nat) :
  1 <= last -> last <= C -> ceil_div (k * C + last) C = k + 1.
Proof.
  intros Hl Hc. unfold ceil_div.
  destruct (Nat.eq_dec last C) as [->|Hne].
  - replace (k * C + C) with ((k + 1) * C) by lia.
    rewrite Nat.Div0.mod_mul, Nat.div_mul by lia. reflexivity.
  - assert (Hlt : last < C) by lia.
    rewrite (Nat.add_comm (k * C)), Nat.Div0.mod_add, Nat.div_add by lia.
    rewrite Nat.mod_small, Nat.div_small by lia.
    destruct (last =? 0) eqn:E; [apply Nat.eqb_eq in E; lia | lia].
Qed.

Lemma ceil_div_mul (k C : nat) : 1 <= C -> ceil_div (k * C) C = k.
Proof.
  intros HC. unfold ceil_div.
  rewrite Nat.Div0.mod_mul, Nat.div_mul by lia. reflexivity.
Qed.

Module SpritesFacts.
Import Sprites.

Section Traces.
Context {Vertex : Type}.
Implicit Types (tr : list (RenderEvent Vertex)) (b : list Vertex).

Lemma filled_vertices_fill b tr :
  filled_vertices (FillBuffer b :: tr) = b ++ filled_vertices tr.
Proof. reflexivity. Qed.

Lemma filled_vertices_draw (first n : nat) tr :
  filled_vertices (DrawIndexedPrimitives first n :: tr) = filled_vertices tr.
Proof. reflexivity. Qed.

Lemma draw_index_counts_fill b tr :
  draw_index_counts (FillBuffer b :: tr) = draw_index_counts tr.
Proof. reflexivity. Qed.

Lemma draw_index_counts_draw (first n : nat) tr :
  draw_index_counts (DrawIndexedPrimitives first n :: tr) = n :: draw_index_counts tr.
Proof. reflexivity. Qed.

Lemma draw_index_counts_app tr tr' :
  draw_index_counts (tr ++ tr') = draw_index_counts tr ++ draw_index_counts tr'.
Proof.
  induction tr as [|[b|first n] tr IH].
  - reflexivity.
  - rewrite <- app_comm_cons, !draw_index_counts_fill. exact IH.
  - rewrite <- app_comm_cons, !draw_index_counts_draw, IH. reflexivity.
Qed.

End Traces.

Section Cursor.
Context {Vertex : Type}.
Variable chains : list (SpriteChain Vertex).
Hypothesis chains_wf : Forall chain_wf chains.

Lemma lookup_wf (i : nat) (c : SpriteChain Vertex) :
  chains !! i = Some c -> chain_wf c.
Proof using chains_wf.
  intros H. exact (Forall_lookup_1 _ _ _ _ chains_wf H).
Qed.

Lemma remaining_vertices_unfold (i off : nat) (c : SpriteChain Vertex) :
  chains !! i = Some c ->
  remaining_vertices chains i off
  = drop (4 * off) (vertices c ++ all_vertices (drop (S i) chains)).
Proof.
  intros H. unfold remaining_vertices, all_vertices.
  rewrite (drop_S _ _ _ H). reflexivity.
Qed.

Lemma remaining_quads_unfold (i off : nat) (c : SpriteChain Vertex) :
  chains !! i = Some c ->
  remaining_quads chains i off
  = spriteCount c + total_quads (drop (S i) chains) - off.
Proof.
  intros H. unfold remaining_quads, total_quads.
  rewrite (drop_S _ _ _ H). reflexivity.
Qed.

(** Copying [count] quads from the cursor leaves the rest of the input. *)
Lemma memcpy_remaining (i off count : nat) (c : SpriteChain Vertex) :
  chains !! i = Some c ->
  off + count <= spriteCount c ->
  memcpy_quads c off count ++ remaining_vertices chains i (off + count)
  = remaining_vertices chains i off.
Proof using chains_wf.
  intros H Hle. pose proof (lookup_wf _ _ H) as Hwf. unfold chain_wf in Hwf.
  rewrite !(remaining_vertices_unfold _ _ _ H). unfold memcpy_quads.
  replace (4 * (off + count)) with (4 * off + 4 * count) by lia.
  rewrite <- drop_drop.
  rewrite (drop_app_le (vertices c)) by lia.
  rewrite <- (take_app_le _ (all_vertices (drop (S i) chains))).
  - apply take_drop.
  - rewrite length_drop. lia.
Qed.

(** A chain consumed to its end hands over to the next one. *)
Lemma remaining_vertices_next (i : nat) (c : SpriteChain Vertex) :
  chains !! i = Some c ->
  remaining_vertices chains i (spriteCount c) = remaining_vertices chains (S i) 0.
Proof using chains_wf.
  intros H. pose proof (lookup_wf _ _ H) as Hwf. unfold chain_wf in Hwf.
  rewrite (remaining_vertices_unfold _ _ _ H).
  unfold remaining_vertices at 1. simpl.
  apply drop_app_length'. lia.
Qed.

Lemma remaining_quads_next (i : nat) (c : SpriteChain Vertex) :
  chains !! i = Some c ->
  remaining_quads chains i (spriteCount c) = remaining_quads chains (S i) 0.
Proof.
  intros H. rewrite (remaining_quads_unfold _ _ _ H).
  unfold remaining_quads. lia.
Qed.

Lemma remaining_at_end (i : nat) :
  length chains <= i ->
  remaining_vertices chains i 0 = [] /\ remaining_quads chains i 0 = 0.
Proof.
  intros H. unfold remaining_vertices, remaining_quads.
  rewrite (drop_ge chains i) by lia. split; reflexivity.
Qed.

End Cursor.

Section Basic.
Context {Vertex : Type}.
Variable C : nat.
Variable chains : list (SpriteChain Vertex).
Hypothesis chains_wf : Forall chain_wf chains.

(** The inner [do ... while] of [DrawBasicSprites]: it returns, what it
    wrote is a prefix of what was left, and it stops either at the end of
    the chain vector or on a full buffer, with the cursor inside a chain. *)
Lemma fill_loop_spec (fuel : nat) (s : FillState Vertex) (c : SpriteChain Vertex) :
  chains !! fs_spriteChain s = Some c ->
  fs_spriteChainOffset s <= spriteCount c ->
  fs_spriteCount s <= C ->
  length chains - fs_spriteChain s < fuel ->
  exists s',
    fill_loop C chains fuel s = Finished s' /\
    fs_written s'
      ++ remaining_vertices chains (fs_spriteChain s') (fs_spriteChainOffset s')
    = fs_written s
      ++ remaining_vertices chains (fs_spriteChain s) (fs_spriteChainOffset s) /\
    fs_spriteCount s'
      + remaining_quads chains (fs_spriteChain s') (fs_spriteChainOffset s')
    = fs_spriteCount s
      + remaining_quads chains (fs_spriteChain s) (fs_spriteChainOffset s) /\
    fs_spriteCount s' <= C /\
    ((length chains <= fs_spriteChain s' /\ fs_spriteChainOffset s' = 0) \/
     (fs_spriteCount s' = C /\
      exists c', chains !! fs_spriteChain s' = Some c' /\
                 fs_spriteChainOffset s' <= spriteCount c' /\
                 (Forall (fun x => 1 <= spriteCount x) chains ->
                  fs_spriteChainOffset s' < spriteCount c'))).
Proof using chains_wf.
  revert s c. induction fuel as [|fuel IH]; intros s c Hc Hoff Hcnt Hfuel; [lia|].
  destruct s as [sc off cnt written]; simpl in *.
  rewrite Hc.
  set (count := Nat.min (C - cnt) (spriteCount c - off)).
  assert (Hcount : off + count <= spriteCount c) by lia.
  pose proof (memcpy_remaining chains chains_wf sc off count c Hc Hcount) as Hmem.
  pose proof (remaining_quads_unfold chains sc off c Hc) as Hq0.
  pose proof (remaining_quads_unfold chains sc (off + count) c Hc) as Hq1.
  destruct (off + count =? spriteCount c) eqn:E; simpl.
  - apply Nat.eqb_eq in E.
    assert (Hnextv := remaining_vertices_next chains chains_wf sc c Hc).
    assert (Hnextq := remaining_quads_next chains sc c Hc).
    rewrite <- E in Hnextv, Hnextq.
    destruct ((cnt + count <? C) && (S sc <? length chains)) eqn:G.
    + apply andb_true_iff in G as [G1 G2].
      apply Nat.ltb_lt in G1, G2.
      destruct (lookup_lt_is_Some_2 chains (S sc) G2) as [c2 Hc2].
      destruct (IH {| fs_spriteChain := S sc; fs_spriteChainOffset := 0;
                      fs_spriteCount := cnt + count;
                      fs_written := written ++ memcpy_quads c off count |} c2)
        as (s' & Hrun & Hv & Hq & Hle & Hend); simpl; try lia; [exact Hc2|].
      simpl in Hv, Hq. exists s'. split; [exact Hrun|].
      split; [|split; [|split; [exact Hle|exact Hend]]].
      * rewrite Hv, <- Hnextv, <- app_assoc, Hmem. reflexivity.
      * rewrite Hq, <- Hnextq. lia.
    + eexists; split; [reflexivity|]; simpl.
      split; [|split; [|split; [lia|]]].
      * rewrite <- Hnextv, <- app_assoc, Hmem. reflexivity.
      * rewrite <- Hnextq. lia.
      * apply andb_false_iff in G as [G|G].
        -- apply Nat.ltb_ge in G.
           destruct (le_lt_dec (length chains) (S sc)) as [Hge|Hlt]; [left; split; [exact Hge|reflexivity]|].
           right. split; [lia|].
           destruct (lookup_lt_is_Some_2 chains (S sc) Hlt) as [c2 Hc2].
           exists c2. split; [exact Hc2|]. split; [lia|].
           intros Hpos. exact (Forall_lookup_1 _ _ _ _ Hpos Hc2).
        -- apply Nat.ltb_ge in G. left. split; [exact G|reflexivity].
  - apply Nat.eqb_neq in E.
    assert (Hfull : cnt + count = C) by lia.
    replace (cnt + count <? C) with false by (symmetry; apply Nat.ltb_ge; lia).
    simpl. eexists; split; [reflexivity|]; simpl.
    split; [|split; [|split; [lia|]]].
    + rewrite <- app_assoc, Hmem. reflexivity.
    + lia.
    + right. split; [exact Hfull|]. exists c. split; [exact Hc|]. split; lia.
Qed.

(** Every fill holds four vertices per sprite counted. *)
Lemma fill_loop_written_length (fuel : nat) (s s' : FillState Vertex) :
  fill_loop C chains fuel s = Finished s' ->
  length (fs_written s) = 4 * fs_spriteCount s ->
  length (fs_written s') = 4 * fs_spriteCount s'.
Proof using chains_wf.
  revert s. induction fuel as [|fuel IH]; intros s Hrun Hlen; [discriminate|].
  destruct s as [sc off cnt written]; simpl in *.
  destruct (chains !! sc) as [c|] eqn:Hc; [|discriminate].
  pose proof (lookup_wf chains chains_wf _ _ Hc) as Hwf. unfold chain_wf in Hwf.
  set (count := Nat.min (C - cnt) (spriteCount c - off)) in *.
  assert (Hcopy : length (written ++ memcpy_quads c off count) = 4 * (cnt + count)).
  { unfold memcpy_quads. rewrite length_app, length_take, length_drop. lia. }
  destruct (off + count =? spriteCount c); simpl in Hrun;
    match type of Hrun with
    | (if ?b then _ else _) = _ => destruct b
    end;
    first [ apply (IH _ Hrun); exact Hcopy
          | injection Hrun as <-; exact Hcopy ].
Qed.

(** The outer [do ... while]: every batch but the last is full, the last
    one holds what is left. *)
Lemma batch_loop_spec (R fuel sc off : nat) (c : SpriteChain Vertex) :
  1 <= C ->
  chains !! sc = Some c ->
  off <= spriteCount c ->
  remaining_quads chains sc off <= R ->
  length chains + R + 2 <= fuel ->
  exists tr k last,
    batch_loop C chains fuel sc off = Finished tr /\
    filled_vertices tr = remaining_vertices chains sc off /\
    (forall buffer, drawn_vertices buffer tr = remaining_vertices chains sc off) /\
    draw_index_counts tr = replicate k (C * 6) ++ [last * 6] /\
    k * C + last = remaining_quads chains sc off /\
    last <= C /\
    (Forall (fun x => 1 <= spriteCount x) chains -> off < spriteCount c -> 1 <= last).
Proof using chains_wf.
  intros HC. revert fuel sc off c.
  induction R as [|R IH]; intros fuel sc off c Hc Hoff HR Hfuel;
    (destruct fuel as [|fuel]; [lia|]);
    (destruct (fill_loop_spec fuel
               {| fs_spriteChain := sc; fs_spriteChainOffset := off;
                  fs_spriteCount := 0; fs_written := [] |} c)
      as (s' & Hrun & Hv & Hq & Hle & Hend); simpl; try lia; [exact Hc|]);
    simpl in Hv, Hq; pose proof (remaining_quads_unfold chains sc off c Hc) as Hq0;
    pose proof (fill_loop_written_length _ _ _ Hrun eq_refl) as Hwl;
    assert (Hdrawn : forall buffer tr,
               drawn_vertices buffer
                 (FillBuffer (fs_written s')
                  :: DrawIndexedPrimitives 0 (fs_spriteCount s' * 6) :: tr)
               = fs_written s' ++ drawn_vertices (fs_written s') tr)
      by (intros buffer tr; cbn [drawn_vertices];
          rewrite Nat.div_mul, Nat.Div0.div_0_l, drop_0, take_ge by lia;
          reflexivity);
    simpl; rewrite Hrun; simpl.
  all: destruct Hend as [[Hend Hz]|(Hfull & c' & Hc' & Hoff' & Hpos')].
  all: try (exfalso; lia).
  1,2: replace (fs_spriteChain s' <? length chains) with false
         by (symmetry; apply Nat.ltb_ge; exact Hend);
       rewrite Hz in Hv, Hq;
       destruct (remaining_at_end chains (fs_spriteChain s') Hend) as [Hev Heq];
       rewrite Hev, app_nil_r in Hv; rewrite Heq in Hq;
       eexists; exists 0, (fs_spriteCount s'); split; [reflexivity|];
       (split; [rewrite filled_vertices_fill, filled_vertices_draw, <- Hv;
                apply app_nil_r|]);
       (split; [intros buffer; rewrite Hdrawn, <- Hv; apply app_nil_r|]);
       rewrite draw_index_counts_fill, draw_index_counts_draw; simpl;
       repeat split; try assumption; try lia;
       intros _ Hlt; lia.
  pose proof (lookup_lt_Some _ _ _ Hc') as Hlt.
  replace (fs_spriteChain s' <? length chains) with true
    by (symmetry; apply Nat.ltb_lt; exact Hlt).
  destruct (IH fuel (fs_spriteChain s') (fs_spriteChainOffset s') c')
    as (tr & k & last & Hrun' & Hfv & Hdv & Hdr & Hsum & Hlast & Hone);
    try assumption; try lia.
  rewrite Hrun'. simpl.
  eexists; exists (S k), last; split; [reflexivity|].
  split; [rewrite filled_vertices_fill, filled_vertices_draw, Hfv; exact Hv|].
  split; [intros buffer; rewrite Hdrawn, Hdv; exact Hv|].
  rewrite draw_index_counts_fill, draw_index_counts_draw, Hdr, Hfull.
  repeat split; try assumption; try lia.
  intros Hpos _. apply Hone; [exact Hpos|apply Hpos', Hpos].
Qed.

Lemma fill_loop_fuel_mono (fuel fuel' : nat) (s r : FillState Vertex) :
  fill_loop C chains fuel s = Finished r ->
  fuel <= fuel' ->
  fill_loop C chains fuel' s = Finished r.
Proof.
  revert fuel' s. induction fuel as [|fuel IH]; intros fuel' s Hrun Hle;
    [discriminate|].
  destruct fuel' as [|fuel']; [lia|]. simpl in *.
  destruct (chains !! fs_spriteChain s); [|discriminate].
  match goal with
  | |- (if ?b then _ else _) = _ => destruct b
  end; [apply IH; [exact Hrun|lia]|exact Hrun].
Qed.

Lemma batch_loop_fuel_mono (fuel fuel' sc off : nat) (tr : list (RenderEvent Vertex)) :
  batch_loop C chains fuel sc off = Finished tr ->
  fuel <= fuel' ->
  batch_loop C chains fuel' sc off = Finished tr.
Proof.
  revert fuel' sc off tr. induction fuel as [|fuel IH]; intros fuel' sc off tr Hrun Hle;
    [discriminate|].
  destruct fuel' as [|fuel']; [lia|]. simpl in *.
  apply outcome_bind_Finished in Hrun as (s & Hfill & Hrest).
  rewrite (fill_loop_fuel_mono fuel fuel' _ s Hfill) by lia. simpl.
  destruct (fs_spriteChain s <? length chains); [|exact Hrest].
  apply outcome_bind_Finished in Hrest as (tr' & Hbatch & Hret).
  rewrite (IH fuel' _ _ tr' Hbatch) by lia. exact Hret.
Qed.

End Basic.

Section BasicTop.
Context {Vertex : Type}.
Implicit Types (chains : list (SpriteChain Vertex)) (tr : list (RenderEvent Vertex)).

(** A run of [DrawBasicSprites_chains] that finishes does so with the same
    trace for every larger fuel. *)
Lemma DrawBasicSprites_chains_fuel_mono (vc fuel fuel' : nat) chains tr :
  DrawBasicSprites_chains vc chains fuel = Finished tr ->
  fuel <= fuel' ->
  DrawBasicSprites_chains vc chains fuel' = Finished tr.
Proof.
  unfold DrawBasicSprites_chains. destruct (0 <? length chains); [|auto].
  apply batch_loop_fuel_mono.
Qed.

Lemma DrawBasicSprites_chains_deterministic (vc fuel fuel' : nat) chains tr tr' :
  DrawBasicSprites_chains vc chains fuel = Finished tr ->
  DrawBasicSprites_chains vc chains fuel' = Finished tr' ->
  tr = tr'.
Proof.
  intros H H'.
  apply (DrawBasicSprites_chains_fuel_mono _ _ (Nat.max fuel fuel')) in H; [|lia].
  apply (DrawBasicSprites_chains_fuel_mono _ _ (Nat.max fuel fuel')) in H'; [|lia].
  congruence.
Qed.

(** C2 (amended). With a capacity of at least one quad and well-formed
    chains, [DrawBasicSprites] returns on the chain vector of an overlay;
    no draw exceeds the capacity [C]; the quad counts of the draws sum to
    the total [N]; the vertices written to the buffer, in order, and the
    vertices the draws read from it, in order, are the vertices of the
    chains in chain order; an empty vector gives no renderer call at all.  When [N > 0] the number of indexed draws is [ceil(N/C)] or
    one more, and it is exactly [ceil(N/C)] when every chain holds at least
    one quad. *)
Theorem DrawBasicSprites_packs_in_order (vc : nat) chains :
  1 <= maxSpriteCount_of vc ->
  Forall chain_wf chains ->
  exists tr,
    (forall fuel, length chains + total_quads chains + 2 <= fuel ->
                  DrawBasicSprites_chains vc chains fuel = Finished tr) /\
    Forall (fun n => n <= maxSpriteCount_of vc) (draw_quad_counts tr) /\
    sum_list (draw_quad_counts tr) = total_quads chains /\
    filled_vertices tr = all_vertices chains /\
    drawn_vertices [] tr = all_vertices chains /\
    (chains = [] -> tr = []) /\
    (0 < total_quads chains ->
     ceil_div (total_quads chains) (maxSpriteCount_of vc)
     <= length (draw_index_counts tr)
     <= ceil_div (total_quads chains) (maxSpriteCount_of vc) + 1) /\
    (Forall (fun c => 1 <= spriteCount c) chains ->
     0 < total_quads chains ->
     length (draw_index_counts tr)
     = ceil_div (total_quads chains) (maxSpriteCount_of vc)).
Proof.
  intros HC Hwf. unfold DrawBasicSprites_chains.
  destruct chains as [|c0 rest] eqn:Echains.
  - exists []. split; [reflexivity|].
    split; [constructor|]. split; [reflexivity|]. split; [reflexivity|].
    split; [reflexivity|]. split; [reflexivity|].
    split; intros; match goal with Hq : 0 < _ |- _ => cbn in Hq; lia end.
  - rewrite <- Echains in *.
    assert (Hc0 : chains !! 0 = Some c0) by (rewrite Echains; reflexivity).
    assert (Hrem : remaining_quads chains 0 0 = total_quads chains).
    { unfold remaining_quads. rewrite drop_0. lia. }
    assert (Hremv : remaining_vertices chains 0 0 = all_vertices chains).
    { unfold remaining_vertices. rewrite drop_0. reflexivity. }
    destruct (batch_loop_spec (maxSpriteCount_of vc) chains Hwf
                (total_quads chains) (length chains + total_quads chains + 2) 0 0 c0)
      as (tr & k & last & Hrun & Hfv & Hdv & Hdr & Hsum & Hlast & Hone);
      try lia; try assumption.
    exists tr. replace (0 <? length chains) with true by (rewrite Echains; reflexivity).
    assert (Hq : draw_quad_counts tr = replicate k (maxSpriteCount_of vc) ++ [last]).
    { unfold draw_quad_counts. rewrite Hdr, fmap_app, fmap_replicate.
      cbn [fmap list_fmap]. rewrite !Nat.div_mul by lia. reflexivity. }
    assert (Hlen : length (draw_index_counts tr) = k + 1).
    { rewrite Hdr, length_app, length_replicate. reflexivity. }
    rewrite Hrem in Hsum.
    split; [|split; [|split; [|split; [|split; [|split; [|split]]]]]].
    + intros fuel Hfuel. exact (batch_loop_fuel_mono _ _ _ _ _ _ _ Hrun Hfuel).
    + rewrite Hq. apply Forall_app. split; [apply Forall_replicate; lia|].
      constructor; [exact Hlast|constructor].
    + rewrite Hq, sum_list_with_app, sum_list_replicate. simpl. lia.
    + rewrite Hfv. exact Hremv.
    + rewrite Hdv. exact Hremv.
    + intros Hnil. congruence.
    + intros HN. rewrite Hlen, <- Hsum.
      destruct last as [|last'].
      * rewrite Nat.add_0_r, ceil_div_mul by exact HC. lia.
      * rewrite ceil_div_split by lia. lia.
    + intros Hpos HN. rewrite Hlen, <- Hsum. symmetry.
      apply ceil_div_split; [|exact Hlast].
      apply Hone; [exact Hpos|].
      exact (Forall_lookup_1 _ _ _ _ Hpos Hc0).
Qed.

End BasicTop.

(** The theorem applies: capacity 2, a chain of three quads then one of
    one. *)
Lemma DrawBasicSprites_packs_in_order_witness :
  let chains := [ {| vertices := seq 0 12; spriteCount := 3 |};
                  {| vertices := seq 100 4; spriteCount := 1 |} ] in
  exists tr : list (RenderEvent nat),
    (forall fuel, length chains + total_quads chains + 2 <= fuel ->
                  DrawBasicSprites_chains 8 chains fuel = Finished tr) /\
    Forall (fun n => n <= maxSpriteCount_of 8) (draw_quad_counts tr) /\
    sum_list (draw_quad_counts tr) = total_quads chains /\
    filled_vertices tr = all_vertices chains /\
    drawn_vertices [] tr = all_vertices chains /\
    (chains = [] -> tr = []) /\
    (0 < total_quads chains ->
     ceil_div (total_quads chains) (maxSpriteCount_of 8)
     <= length (draw_index_counts tr)
     <= ceil_div (total_quads chains) (maxSpriteCount_of 8) + 1) /\
    (Forall (fun c => 1 <= spriteCount c) chains ->
     0 < total_quads chains ->
     length (draw_index_counts tr)
     = ceil_div (total_quads chains) (maxSpriteCount_of 8)).
Proof.
  apply (DrawBasicSprites_packs_in_order 8).
  - vm_compute. lia.
  - repeat constructor.
Defined.

(** C2 as stated fails when a chain without sprites follows a full batch:
    capacity 2, a chain of two quads and an empty chain hold [N = 2] quads
    and every finished run issues two draws (of 2 and of 0 quads), where
    [ceil(N/C) = 1]. *)
Lemma DrawBasicSprites_empty_chain_extra_draw :
  let chains := [ {| vertices := seq 0 8; spriteCount := 2 |};
                  {| vertices := @nil nat; spriteCount := 0 |} ] in
  Forall chain_wf chains /\
  0 < total_quads chains /\
  maxSpriteCount_of 8 = 2 /\
  ceil_div (total_quads chains) (maxSpriteCount_of 8) = 1 /\
  DrawBasicSprites_chains 8 chains 3
  = Finished [FillBuffer (seq 0 8); DrawIndexedPrimitives 0 12;
              FillBuffer []; DrawIndexedPrimitives 0 0] /\
  (forall fuel (tr : list (RenderEvent nat)),
     DrawBasicSprites_chains 8 chains fuel = Finished tr ->
     length (draw_index_counts tr) = 2) /\
  ~ (forall fuel (tr : list (RenderEvent nat)),
       DrawBasicSprites_chains 8 chains fuel = Finished tr ->
       length (draw_index_counts tr)
       = ceil_div (total_quads chains) (maxSpriteCount_of 8)).
Proof.
  intros chains.
  assert (Hrun : DrawBasicSprites_chains 8 chains 3
                 = Finished [FillBuffer (seq 0 8); DrawIndexedPrimitives 0 12;
                             FillBuffer []; DrawIndexedPrimitives 0 0])
    by (vm_compute; reflexivity).
  split; [repeat constructor|].
  split; [vm_compute; lia|].
  split; [vm_compute; reflexivity|].
  split; [vm_compute; reflexivity|].
  split; [exact Hrun|].
  split.
  - intros fuel tr H.
    rewrite (DrawBasicSprites_chains_deterministic _ _ _ _ _ _ H Hrun). reflexivity.
  - intros H. specialize (H 3 _ Hrun). vm_compute in H. discriminate.
Qed.


Section Ordered.
Context {Vertex : Type}.
Implicit Types (c : SpriteChain Vertex) (st : OrderedState).
Local Arguments Nat.min : simpl never.
Local Arguments Nat.sub : simpl never.
Local Arguments Nat.mul : simpl never.
Local Arguments Nat.add : simpl never.

(** First half of C1: a single chain that fills the buffer exactly is
    drawn by one call of [C] quads, and the loop ends with no pending split,
    a zero offset and nothing marked as already drawn. *)
Lemma DrawOrderedSprites_exact_capacity (C fuel : nat) c :
  chain_wf c ->
  spriteCount c = C ->
  ordered_loop C [c] (S fuel) (ordered_init [c])
  = Finished ({| os_it := 1;
                 os_updateVertexBuffer := false;
                 os_alreadyDrawnCount := 0;
                 os_spriteIndex := C;
                 os_spriteChainOffset := 0;
                 os_splitChainIt := 1 |},
              [FillBuffer (vertices c); DrawIndexedPrimitives 0 (C * 6)]).
Proof.
  intros Hwf HC. unfold chain_wf in Hwf.
  unfold ordered_init. simpl ordered_loop.
  unfold ordered_step, ordered_refill. simpl.
  rewrite Nat.sub_0_r, HC, Nat.min_id, Nat.eqb_refl. simpl.
  rewrite Nat.add_0_l, Nat.mul_0_l.
  unfold memcpy_quads. rewrite Nat.mul_0_r, drop_0, take_ge by lia.
  destruct fuel; reflexivity.
Qed.

(** On a single chain longer than the capacity the loop body always leaves
    the iterator on that chain and asks for a new fill. *)
Lemma ordered_step_long_chain (C : nat) c st :
  C < spriteCount c ->
  os_it st = 0 ->
  os_updateVertexBuffer st = true ->
  os_spriteChainOffset st <= spriteCount c ->
  exists st' fill draw,
    ordered_step C [c] st = Finished (st', [FillBuffer fill; draw]) /\
    draw_index_counts [FillBuffer fill; draw]
    = [(os_spriteChainOffset st
        + Nat.min C (spriteCount c - os_spriteChainOffset st)) * 6] /\
    os_it st' = 0 /\
    os_updateVertexBuffer st' = true /\
    os_spriteChainOffset st' <= spriteCount c.
Proof.
  intros Hlong Hit Hup Hoff. destruct st as [it up already idx off split].
  simpl in Hit, Hup, Hoff. subst it up.
  unfold ordered_step, ordered_refill. simpl.
  replace (Nat.min C (spriteCount c - off) =? spriteCount c) with false
    by (symmetry; apply Nat.eqb_neq; lia).
  simpl. do 3 eexists. split; [reflexivity|]. repeat split. simpl. lia.
Qed.

Lemma ordered_turns_long_chain (C n : nat) c st :
  C < spriteCount c ->
  os_it st = 0 ->
  os_updateVertexBuffer st = true ->
  os_spriteChainOffset st <= spriteCount c ->
  exists st' tr,
    ordered_turns C [c] n st = Finished (st', tr) /\
    length (draw_index_counts tr) = n /\
    os_it st' = 0 /\
    os_updateVertexBuffer st' = true /\
    os_spriteChainOffset st' <= spriteCount c.
Proof.
  intros Hlong. revert st. induction n as [|n IH]; intros st Hit Hup Hoff.
  - exists st, []. repeat split; assumption.
  - destruct (ordered_step_long_chain C c st Hlong Hit Hup Hoff)
      as (st1 & fill & draw & Hstep & Hdraw & Hit1 & Hup1 & Hoff1).
    destruct (IH st1 Hit1 Hup1 Hoff1) as (st' & tr & Hrun & Hlen & Hit' & Hup' & Hoff').
    exists st', ([FillBuffer fill; draw] ++ tr).
    split; [|split; [|split; [|split]; assumption]].
    + simpl ordered_turns. rewrite Hstep. simpl. rewrite Hrun. reflexivity.
    + rewrite draw_index_counts_app, length_app, Hlen, Hdraw. reflexivity.
Qed.

Lemma ordered_loop_long_chain (C fuel : nat) c st :
  C < spriteCount c ->
  os_it st = 0 ->
  os_updateVertexBuffer st = true ->
  os_spriteChainOffset st <= spriteCount c ->
  ordered_loop C [c] fuel st = OutOfFuel.
Proof.
  intros Hlong. revert st. induction fuel as [|fuel IH]; intros st Hit Hup Hoff.
  - simpl. rewrite Hit. reflexivity.
  - destruct (ordered_step_long_chain C c st Hlong Hit Hup Hoff)
      as (st1 & fill & draw & Hstep & _ & Hit1 & Hup1 & Hoff1).
    simpl. rewrite Hit. simpl. rewrite Hstep. simpl.
    rewrite (IH st1 Hit1 Hup1 Hoff1). reflexivity.
Qed.

(** C1, second half, on the code.  With capacity [C >= 1] and a single
    chain of [C + 1] quads, the first two turns of the loop fill the buffer
    with the first [C] quads and draw [C] quads, then fill it with the one
    quad left and draw [C + 1] quads from index 0; after them the iterator
    still stands on the chain ([os_it = 0]) with a new fill requested. *)
Theorem DrawOrderedSprites_capacity_plus_one (C : nat) c :
  1 <= C ->
  spriteCount c = C + 1 ->
  ordered_turns C [c] 2 (ordered_init [c])
  = Finished ({| os_it := 0;
                 os_updateVertexBuffer := true;
                 os_alreadyDrawnCount := C + 1;
                 os_spriteIndex := C + 1;
                 os_spriteChainOffset := C + 1;
                 os_splitChainIt := 0 |},
              [FillBuffer (memcpy_quads c 0 C);
               DrawIndexedPrimitives 0 (C * 6);
               FillBuffer (memcpy_quads c C 1);
               DrawIndexedPrimitives 0 ((C + 1) * 6)]).
Proof.
  intros HC Hc. unfold ordered_init. simpl ordered_turns.
  unfold ordered_step at 1, ordered_refill. simpl.
  rewrite Hc, Nat.sub_0_r.
  replace (Nat.min C (C + 1)) with C by lia.
  replace (C =? C + 1) with false by (symmetry; apply Nat.eqb_neq; lia).
  simpl. unfold ordered_step, ordered_refill. simpl.
  rewrite Hc, !Nat.add_0_l, !Nat.mul_0_l.
  replace (C + 1 - C) with 1 by lia.
  replace (Nat.min C 1) with 1 by lia.
  replace (1 =? C + 1) with false by (symmetry; apply Nat.eqb_neq; lia).
  reflexivity.
Qed.

(** C9 on the code.  A single depth-sorted chain with more sprites than the
    capacity keeps the loop of [DrawOrderedSprites] running: no amount of
    fuel lets it return, and [n] turns of its body issue [n] draw calls and
    leave the iterator on the chain, the offset never beyond the chain's
    sprite count (no unsigned subtraction wraps on the way). *)
Theorem DrawOrderedSprites_long_chain_never_returns (vc : nat) c :
  1 <= maxSpriteCount_of vc ->
  maxSpriteCount_of vc < spriteCount c ->
  (forall fuel, DrawOrderedSprites vc [c] fuel = OutOfFuel) /\
  (forall n, exists st tr,
      ordered_turns (maxSpriteCount_of vc) [c] n (ordered_init [c]) = Finished (st, tr) /\
      length (draw_index_counts tr) = n /\
      os_it st <> length [c] /\
      os_spriteChainOffset st <= spriteCount c).
Proof.
  intros _ Hlong. split.
  - intros fuel. apply ordered_loop_long_chain; [exact Hlong|reflexivity| |];
      simpl; [reflexivity|lia].
  - intros n.
    destruct (ordered_turns_long_chain _ n c (ordered_init [c]) Hlong eq_refl eq_refl)
      as (st & tr & Hrun & Hlen & Hit & _ & Hoff); [simpl; lia|].
    exists st, tr. rewrite Hit.
    split; [exact Hrun|]. split; [exact Hlen|]. split; [discriminate|exact Hoff].
Qed.

End Ordered.

Lemma DrawOrderedSprites_capacity_plus_one_witness :
  ordered_turns 2 [ {| vertices := seq 0 12; spriteCount := 3 |} ] 2
    (ordered_init [ {| vertices := seq 0 12; spriteCount := 3 |} ])
  = Finished ({| os_it := 0;
                 os_updateVertexBuffer := true;
                 os_alreadyDrawnCount := 3;
                 os_spriteIndex := 3;
                 os_spriteChainOffset := 3;
                 os_splitChainIt := 0 |},
              [FillBuffer (seq 0 8);
               DrawIndexedPrimitives 0 12;
               FillBuffer (seq 8 4);
               DrawIndexedPrimitives 0 18]).
Proof.
  apply (DrawOrderedSprites_capacity_plus_one 2
           {| vertices := seq 0 12; spriteCount := 3 |}).
  - lia.
  - reflexivity.
Defined.

Lemma DrawOrderedSprites_long_chain_never_returns_witness :
  (forall fuel,
     DrawOrderedSprites 8 [ {| vertices := seq 0 12; spriteCount := 3 |} ] fuel
     = OutOfFuel) /\
  (forall n, exists st tr,
      ordered_turns (maxSpriteCount_of 8)
        [ {| vertices := seq 0 12; spriteCount := 3 |} ] n
        (ordered_init [ {| vertices := seq 0 12; spriteCount := 3 |} ])
      = Finished (st, tr) /\
      length (draw_index_counts tr) = n /\
      os_it st <> 1 /\
      os_spriteChainOffset st <= 3).
Proof.
  apply (DrawOrderedSprites_long_chain_never_returns 8
           {| vertices := seq 0 12; spriteCount := 3 |}).
  - vm_compute. lia.
  - vm_compute. lia.
Defined.

End SpritesFacts.

(** ** Sorting with a comparator *)

Section Sort.
Context {A : Type}.
Variable comp : A -> A -> bool.

Lemma sort_insert_Permutation (x : A) (l : list A) :
  Permutation (sort_insert comp x l) (x :: l).
Proof.
  induction l as [|y l IH]; simpl.
  - reflexivity.
  - destruct (comp x y); [reflexivity|].
    rewrite IH. apply perm_swap.
Qed.

Lemma std_sort_Permutation (l : list A) : Permutation (std_sort comp l) l.
Proof.
  induction l as [|x l IH]; simpl.
  - reflexivity.
  - rewrite sort_insert_Permutation. constructor. exact IH.
Qed.

(** [x] may stand before [y]: the comparator does not put [y] first. *)
Hypothesis comp_asym : forall x y, comp x y = true -> comp y x = false.
Hypothesis comp_negtrans :
  forall x y z, comp y x = false -> comp z y = false -> comp z x = false.

Lemma sort_insert_StronglySorted (x : A) (l : list A) :
  StronglySorted (fun a b => comp b a = false) l ->
  StronglySorted (fun a b => comp b a = false) (sort_insert comp x l).
Proof using comp_asym comp_negtrans.
  induction 1 as [|y l Hl IH Hy]; simpl.
  - repeat constructor.
  - destruct (comp x y) eqn:E.
    + constructor; [constructor; assumption|].
      constructor; [exact (comp_asym _ _ E)|].
      rewrite Forall_forall in Hy |- *. intros z Hz.
      exact (comp_negtrans _ _ _ (comp_asym _ _ E) (Hy z Hz)).
    + constructor; [exact IH|].
      eapply Permutation_Forall; [symmetry; apply sort_insert_Permutation|].
      constructor; assumption.
Qed.

Lemma std_sort_StronglySorted (l : list A) :
  StronglySorted (fun a b => comp b a = false) (std_sort comp l).
Proof using comp_asym comp_negtrans.
  induction l as [|x l IH]; simpl.
  - constructor.
  - apply sort_insert_StronglySorted, IH.
Qed.

End Sort.

(** The invariant rule of [for_loop]. *)
Lemma for_loop_inv {W St : Type} (I : nat -> St -> W -> Prop)
    (body : nat -> St -> M W St) (n start : nat) (s : St) (w : W) :
  I start s w ->
  (forall i s w, start <= i -> i < start + n -> I i s w ->
                 exists s' w', body i s w = Finished (s', w') /\ I (S i) s' w') ->
  exists s' w', for_loop n start s body w = Finished (s', w') /\ I (start + n) s' w'.
Proof.
  revert start s w. induction n as [|n IH]; intros start s w HI Hbody.
  - exists s, w. rewrite Nat.add_0_r. split; [reflexivity|exact HI].
  - destruct (Hbody start s w) as (s1 & w1 & Hrun & HI1); [lia|lia|exact HI|].
    destruct (IH (S start) s1 w1 HI1) as (s' & w' & Hrun' & HI').
    + intros i s2 w2 Hge Hlt. apply Hbody; lia.
    + exists s', w'. simpl. unfold bind. rewrite Hrun. simpl.
      rewrite Nat.add_succ_r. split; [exact Hrun'|exact HI'].
Qed.

Lemma passCount_of_ceil_div (MAX k : nat) :
  1 <= MAX ->
  Technique.passCount_of MAX k = if k =? 0 then 1 else ceil_div k MAX.
Proof.
  intros HM. unfold Technique.passCount_of.
  destruct (k =? 0) eqn:E; [reflexivity|]. apply Nat.eqb_neq in E.
  pose proof (Nat.div_mod_eq (k - 1) MAX) as Hdm.
  pose proof (Nat.mod_upper_bound (k - 1) MAX ltac:(lia)) as Hub.
  set (q := (k - 1) / MAX) in *. set (r := (k - 1) mod MAX) in *.
  clearbody q r.
  assert (Hk : k = q * MAX + (r + 1)) by lia.
  rewrite Hk, ceil_div_split by lia. reflexivity.
Qed.

Module TechniqueFacts.
Import Technique.

Section Lights.
Variable T : Payload.
Variable H : Helpers T.
Variable queue : RenderQueue T.
Variable object : Spheref T.

Lemma push_suitable_Forall {L : Type} (P : LightIndex T -> Prop) (type : LightType)
    (suitable : Spheref T -> L -> bool) (score : Spheref T -> L -> float32 T)
    (lights : list L) (i : nat) (acc : list (LightIndex T)) :
  Forall P acc ->
  (forall j light,
      lights !! j = Some light ->
      suitable object light = true ->
      P {| li_type := type; li_score := score object light; li_index := i + j |}) ->
  Forall P (push_suitable T type suitable score object lights i acc).
Proof.
  revert i acc. induction lights as [|light rest IH]; intros i acc Hacc Hnew; simpl.
  - exact Hacc.
  - apply IH.
    + destruct (suitable object light) eqn:E; [|exact Hacc].
      apply Forall_app. split; [exact Hacc|].
      constructor; [|constructor].
      specialize (Hnew 0 light eq_refl E). rewrite Nat.add_0_r in Hnew. exact Hnew.
    + intros j l Hj Hs. specialize (Hnew (S j) l Hj Hs).
      rewrite Nat.add_succ_r in Hnew. exact Hnew.
Qed.

Lemma collect_lights_ok (includeDirectionalLights : bool) :
  Forall (selected_light_ok H queue object)
         (collect_lights H queue object includeDirectionalLights).
Proof.
  unfold collect_lights.
  apply push_suitable_Forall; [apply push_suitable_Forall|].
  - destruct includeDirectionalLights; [|constructor].
    apply push_suitable_Forall; [constructor|].
    intros j light Hj Hs. unfold selected_light_ok. simpl. eauto.
  - intros j light Hj Hs. unfold selected_light_ok. simpl. eauto.
  - intros j light Hj Hs. unfold selected_light_ok. simpl. eauto.
Qed.

Lemma collect_lights_no_directional :
  Forall (fun li => li_type li <> LightType_Directional)
         (collect_lights H queue object false).
Proof.
  unfold collect_lights.
  apply push_suitable_Forall; [apply push_suitable_Forall; [constructor|]|];
    intros j light _ _; simpl; discriminate.
Qed.

Lemma selected_light_in_range (li : LightIndex T) :
  selected_light_ok H queue object li -> light_in_range queue li.
Proof.
  unfold selected_light_ok, light_in_range.
  destruct (li_type li); intros (light & Hl & _); exact (lookup_lt_Some _ _ _ Hl).
Qed.

(** C4. Whatever the three light lists and the bounding sphere, every
    entry [ChooseLights] leaves in [m_lights] names a light of its kind's
    list for which that kind's suitability test holds (and carries its
    score), the entries are sorted non-decreasingly by score, and no entry
    is a directional light when directional lights are excluded.  The order
    on scores is assumed to be a strict weak order, as [std::sort]
    requires. *)
Theorem ChooseLights_suitable_sorted (includeDirectionalLights : bool) :
  (forall x y, float32_lt H x y = true -> float32_lt H y x = false) ->
  (forall x y z, float32_lt H y x = false -> float32_lt H z y = false ->
                 float32_lt H z x = false) ->
  Forall (selected_light_ok H queue object)
         (ChooseLights H queue object includeDirectionalLights) /\
  StronglySorted (score_le H) (ChooseLights H queue object includeDirectionalLights) /\
  (includeDirectionalLights = false ->
   Forall (fun li => li_type li <> LightType_Directional)
          (ChooseLights H queue object includeDirectionalLights)).
Proof.
  intros Hasym Htrans. unfold ChooseLights.
  set (comp := fun light1 light2 : LightIndex T =>
                 float32_lt H (li_score light1) (li_score light2)).
  split; [|split].
  - eapply Permutation_Forall; [symmetry; apply std_sort_Permutation|].
    apply collect_lights_ok.
  - apply (std_sort_StronglySorted comp).
    + intros x y. apply Hasym.
    + intros x y z. apply Htrans.
  - intros ->.
    eapply Permutation_Forall; [symmetry; apply std_sort_Permutation|].
    apply collect_lights_no_directional.
Qed.

Lemma ChooseLights_in_range (includeDirectionalLights : bool) :
  Forall (light_in_range queue) (ChooseLights H queue object includeDirectionalLights).
Proof.
  eapply Permutation_Forall; [symmetry; apply std_sort_Permutation|].
  eapply Forall_impl; [apply collect_lights_ok|].
  apply selected_light_in_range.
Qed.

End Lights.

(** C4 applies: one directional light and three point lights, of which
    the farthest is out of reach. *)
Lemma ChooseLights_suitable_sorted_witness :
  let queue := {| directionalLights := [sun];
                  pointLights := [lamp 5 10; lamp 2 10; lamp 50 10];
                  spotLights := [] |} in
  Forall (selected_light_ok natH queue 0) (ChooseLights natH queue 0 true) /\
  StronglySorted (score_le natH) (ChooseLights natH queue 0 true) /\
  (true = false ->
   Forall (fun li => li_type li <> LightType_Directional)
          (ChooseLights natH queue 0 true)).
Proof.
  apply (ChooseLights_suitable_sorted natT natH).
  - intros x y Hxy. apply Nat.ltb_lt in Hxy. apply Nat.ltb_ge. lia.
  - intros x y z Hyx Hzy. apply Nat.ltb_ge in Hyx, Hzy. apply Nat.ltb_ge. lia.
Defined.

Section Send.
Variable T : Payload.
Variable queue : RenderQueue T.
Implicit Types (m_lights : list (LightIndex T)) (uniforms : LightUniforms).

(** C10. Past the selected lights [SendLightUniforms] reads no light list
    (its result is the same for every queue) and its only uniform write is
    the integer [-1] to the slot's type location, made exactly when
    [uniforms.locations.type] is not [-1]. *)
Theorem SendLightUniforms_past_selection m_lights uniforms
    (index lightIndex : nat) (uniformOffset : Z) :
  length m_lights <= lightIndex ->
  SendLightUniforms queue m_lights uniforms index lightIndex uniformOffset
  = Some (if (loc_type (locations uniforms) =? -1)%Z
          then []
          else [Shader_Send
                  (location_plus (loc_type (locations uniforms)) uniformOffset)
                  (Int_value (-1))]) /\
  (forall queue',
      SendLightUniforms queue' m_lights uniforms index lightIndex uniformOffset
      = SendLightUniforms queue m_lights uniforms index lightIndex uniformOffset).
Proof.
  intros Hle. unfold SendLightUniforms.
  replace (lightIndex <? length m_lights) with false
    by (symmetry; apply Nat.ltb_ge; exact Hle).
  split; [reflexivity|]. intros queue'. reflexivity.
Qed.

End Send.

Lemma SendLightUniforms_past_selection_witness :
  SendLightUniforms
    {| directionalLights := [sun]; pointLights := []; spotLights := [] |}
    [selected LightType_Directional 0 0]
    (lightUniforms example_uniforms) 1 1 8
  = Some [Shader_Send 18 (Int_value (-1))] /\
  (forall queue',
      SendLightUniforms queue'
        [selected LightType_Directional 0 0]
        (lightUniforms example_uniforms) 1 1 8
      = SendLightUniforms
          {| directionalLights := [sun]; pointLights := []; spotLights := [] |}
          [selected LightType_Directional 0 0]
          (lightUniforms example_uniforms) 1 1 8).
Proof.
  apply (SendLightUniforms_past_selection natT).
  simpl. lia.
Defined.

Section Passes.
Variable T : Payload.
Variable MAX : nat.
Variable H : Helpers T.
Variable queue : RenderQueue T.
Variable su : ShaderUniforms.
Implicit Types (w : World T) (calls : list (Call T)).

Lemma draw_states_app calls calls' :
  draw_states (calls ++ calls') = draw_states calls ++ draw_states calls'.
Proof. apply omap_app. Qed.

Lemma draw_states_send (location : Z) (value : UniformValue T) calls :
  draw_states (Shader_Send location value :: calls) = draw_states calls.
Proof. reflexivity. Qed.

Lemma runs_to_refl w : runs_to w w [].
Proof. split; [reflexivity|]. exists []. rewrite app_nil_r. split; reflexivity. Qed.

Lemma runs_to_trans w w1 w2 (d1 d2 : list RenderStates) :
  runs_to w w1 d1 -> runs_to w1 w2 d2 -> runs_to w w2 (d1 ++ d2).
Proof.
  intros [Hl1 (c1 & Ht1 & Hd1)] [Hl2 (c2 & Ht2 & Hd2)].
  split; [congruence|]. exists (c1 ++ c2).
  rewrite Ht2, Ht1, app_assoc, draw_states_app, Hd1, Hd2. split; reflexivity.
Qed.

Lemma emit_spec calls w :
  exists w', emit calls w = Finished (tt, w') /\
             runs_to w w' (draw_states calls) /\
             w_states w' = w_states w.
Proof.
  eexists. split; [reflexivity|]. split; [|reflexivity].
  split; [reflexivity|]. exists calls. split; reflexivity.
Qed.

Lemma Enable_Blend_spec (enable : bool) w :
  exists w', Enable_Blend enable w = Finished (tt, w') /\
             runs_to w w' [] /\
             w_states w' = {| blending := enable;
                              srcBlend := srcBlend (w_states w);
                              dstBlend := dstBlend (w_states w);
                              depthFunc := depthFunc (w_states w) |}.
Proof.
  eexists. split; [reflexivity|]. split; [|reflexivity].
  split; [reflexivity|]. eexists. split; reflexivity.
Qed.

Lemma SetBlendFunc_spec (src dst : BlendFunc) w :
  exists w', SetBlendFunc src dst w = Finished (tt, w') /\
             runs_to w w' [] /\
             w_states w' = {| blending := blending (w_states w);
                              srcBlend := src;
                              dstBlend := dst;
                              depthFunc := depthFunc (w_states w) |}.
Proof.
  eexists. split; [reflexivity|]. split; [|reflexivity].
  split; [reflexivity|]. eexists. split; reflexivity.
Qed.

Lemma SetDepthFunc_spec (comparison : RendererComparison) w :
  exists w', SetDepthFunc comparison w = Finished (tt, w') /\
             runs_to w w' [] /\
             w_states w' = {| blending := blending (w_states w);
                              srcBlend := srcBlend (w_states w);
                              dstBlend := dstBlend (w_states w);
                              depthFunc := comparison |}.
Proof.
  eexists. split; [reflexivity|]. split; [|reflexivity].
  split; [reflexivity|]. eexists. split; reflexivity.
Qed.

Lemma enable_additive_blending_spec w :
  exists w', enable_additive_blending w = Finished (tt, w') /\
             runs_to w w' [] /\
             w_states w' = additive_states.
Proof.
  unfold enable_additive_blending.
  run_with (Enable_Blend_spec true w) w1 Hto1 Hst1.
  run_with (SetBlendFunc_spec BlendFunc_One BlendFunc_One w1) w2 Hto2 Hst2.
  destruct (SetDepthFunc_spec RendererComparison_Equal w2) as (w3 & Hrun3 & Hto3 & Hst3).
  exists w3. split; [exact Hrun3|]. split.
  - exact (runs_to_trans _ _ _ _ _ (runs_to_trans _ _ _ _ _ Hto1 Hto2) Hto3).
  - rewrite Hst3, Hst2, Hst1. reflexivity.
Qed.

Lemma drawFunc_spec (indexed : bool) (indexCount : nat) w :
  exists w', drawFunc indexed indexCount w = Finished (tt, w') /\
             runs_to w w' [w_states w] /\
             w_states w' = w_states w.
Proof.
  eexists. split; [reflexivity|]. split; [|reflexivity].
  split; [reflexivity|]. eexists. split; reflexivity.
Qed.

Lemma send_shadowMapping_no_draw (uniforms : LightUniforms) (offset : Z)
    (shadowMap : option (Texture T)) :
  draw_states (send_shadowMapping T uniforms offset shadowMap) = [].
Proof. unfold send_shadowMapping. destruct (_ =? _)%Z; reflexivity. Qed.

Lemma send_shadow2D_no_draw (uniforms : LightUniforms) (index : nat)
    (shadowMap : option (Texture T)) (m : Matrix4f T) :
  draw_states (send_shadow2D T uniforms index shadowMap m) = [].
Proof.
  unfold send_shadow2D. destruct shadowMap; [|reflexivity].
  destruct (_ =? _)%Z; reflexivity.
Qed.

(** With every entry of [m_lights] in range, [SendLightUniforms] indexes
    the light lists safely and issues no draw call. *)
Lemma SendLightUniforms_in_range (lights : list (LightIndex T)) (uniforms : LightUniforms)
    (index lightIndex : nat) (offset : Z) :
  Forall (light_in_range queue) lights ->
  exists calls,
    SendLightUniforms queue lights uniforms index lightIndex offset = Some calls /\
    draw_states calls = [].
Proof.
  intros Hrange. unfold SendLightUniforms.
  destruct (lightIndex <? length lights) eqn:E.
  - apply Nat.ltb_lt in E.
    destruct (lookup_lt_is_Some_2 _ _ E) as [li Hli]. rewrite Hli. simpl.
    pose proof (Forall_lookup_1 _ _ _ _ Hrange Hli) as Hin.
    unfold light_in_range in Hin.
    destruct (li_type li);
      destruct (lookup_lt_is_Some_2 _ _ Hin) as [light Hlight];
      rewrite Hlight; simpl; eexists; (split; [reflexivity|]);
      rewrite !draw_states_send, !draw_states_app,
        ?send_shadowMapping_no_draw, ?send_shadow2D_no_draw;
      try reflexivity.
    destruct (pl_shadowMap T light); reflexivity.
  - eexists. split; [reflexivity|]. destruct (_ =? _)%Z; reflexivity.
Qed.

Lemma call_SendLightUniforms_spec (uniforms : LightUniforms) (index lightIndex : nat)
    (offset : Z) w :
  Forall (light_in_range queue) (m_lights w) ->
  exists w', call_SendLightUniforms queue uniforms index lightIndex offset w
             = Finished (tt, w') /\
             runs_to w w' [] /\
             w_states w' = w_states w.
Proof.
  intros Hrange. unfold call_SendLightUniforms.
  destruct (SendLightUniforms_in_range (m_lights w) uniforms index lightIndex offset Hrange)
    as (calls & -> & Hnd).
  destruct (emit_spec calls w) as (w' & Hrun & Hto & Hst).
  exists w'. rewrite Hnd in Hto. auto.
Qed.

Lemma send_pass_lights_spec (lightIndex : nat) w :
  Forall (light_in_range queue) (m_lights w) ->
  exists lightIndex' w',
    send_pass_lights MAX queue su lightIndex w = Finished (lightIndex', w') /\
    runs_to w w' [] /\
    w_states w' = w_states w.
Proof.
  intros Hrange. unfold send_pass_lights.
  destruct (for_loop_inv
              (fun (_ : nat) (_ : nat) w' => runs_to w w' [] /\ w_states w' = w_states w)
              (fun i lightIndex =>
                 (call_SendLightUniforms queue (lightUniforms su) i lightIndex
                    (to_uint32 (lightOffset su * Z.of_nat i));;;
                  ret (S lightIndex))%exec)
              MAX 0 lightIndex w)
    as (li' & w' & Hrun & Hto & Hst).
  - split; [apply runs_to_refl|reflexivity].
  - intros i li w1 _ _ [Hto Hst].
    assert (Hrange1 : Forall (light_in_range queue) (m_lights w1))
      by (destruct Hto as [-> _]; exact Hrange).
    run_with (call_SendLightUniforms_spec (lightUniforms su) i li
                (to_uint32 (lightOffset su * Z.of_nat i)) w1 Hrange1) w2 Hto2 Hst2.
    exists (S li), w2. split; [reflexivity|]. split.
    + exact (runs_to_trans _ _ _ _ _ Hto Hto2).
    + congruence.
  - exists li', w'. auto.
Qed.

(** One pass of the non-instanced submitter (lines 739-757). *)
Lemma lit_pass_spec (indexed : bool) (indexCount : nat) (w0 : World T)
    (pass : nat) (counters : nat * nat) w :
  Forall (light_in_range queue) (m_lights w0) ->
  runs_to w0 w (draws_before (w_states w0) pass) ->
  w_states w = states_at (w_states w0) pass ->
  exists counters' w',
    (let '(lightCount, lightIndex) := counters in
     let lightCount := lightCount - Nat.min lightCount MAX in
     (if pass =? 1 then enable_additive_blending else ret tt);;;
     let* lightIndex := send_pass_lights MAX queue su lightIndex in
     drawFunc indexed indexCount;;;
     ret (lightCount, lightIndex))%exec w = Finished (counters', w') /\
    runs_to w0 w' (draws_before (w_states w0) (S pass)) /\
    w_states w' = states_at (w_states w0) (S pass).
Proof.
  intros Hrange Hto Hst. destruct counters as [lightCount lightIndex].
  assert (Hpre : exists w1,
             (if pass =? 1 then enable_additive_blending else ret tt) w
             = Finished (tt, w1) /\
             runs_to w w1 [] /\
             w_states w1 = states_at (w_states w0) (S pass)
             \/ False).
  { destruct (pass =? 1) eqn:E.
    - destruct (enable_additive_blending_spec w) as (w1 & Hrun & Hto1 & Hst1).
      exists w1. left. apply Nat.eqb_eq in E. subst pass. auto.
    - exists w. left. split; [reflexivity|]. split; [apply runs_to_refl|].
      rewrite Hst. apply Nat.eqb_neq in E. unfold states_at.
      destruct pass as [|[|pass]]; try reflexivity. lia. }
  destruct Hpre as (w1 & [(Hrun1 & Hto1 & Hst1)|[]]).
  unfold bind at 1. rewrite Hrun1. cbn [outcome_bind].
  assert (Hrange1 : Forall (light_in_range queue) (m_lights w1)).
  { destruct Hto1 as [-> _]. destruct Hto as [-> _]. exact Hrange. }
  destruct (send_pass_lights_spec lightIndex w1 Hrange1)
    as (li' & w2 & Hrun2 & Hto2 & Hst2).
  unfold bind at 1. rewrite Hrun2. cbn [outcome_bind].
  run_with (drawFunc_spec indexed indexCount w2) w3 Hto3 Hst3.
  eexists _, w3. split; [reflexivity|]. split.
  - pose proof (runs_to_trans _ _ _ _ _ Hto
                  (runs_to_trans _ _ _ _ _ Hto1 (runs_to_trans _ _ _ _ _ Hto2 Hto3)))
      as Hall.
    simpl in Hall. rewrite Hst2, Hst1 in Hall.
    replace (draws_before (w_states w0) (S pass))
      with (draws_before (w_states w0) pass ++ [states_at (w_states w0) (S pass)]);
      [exact Hall|].
    destruct pass as [|pass]; [reflexivity|]. simpl.
    unfold states_at. simpl.
    change (additive_states :: replicate pass additive_states)
      with (replicate (S pass) additive_states).
    rewrite replicate_S_end. reflexivity.
  - congruence.
Qed.

(** C3 (amended). An object drawn without instancing under a shader with
    light uniforms, with [k] lights selected by [ChooseLights] and [m >= 1]
    lights per pass: the submitter returns after exactly [ceil(k/m)] draw
    calls (one when [k = 0]); the first runs under the state found on
    entry, every later one with blending enabled, factors one and one and
    depth comparison "equal"; on exit the depth function is the one found
    on entry, blending is disabled, and the blend factors are those found
    on entry when a single pass ran, one and one otherwise. *)
Theorem draw_lit_instance_passes (indexed : bool) (indexCount : nat)
    (squaredBoundingSphere : Spheref T) (matrix : Matrix4f T) w :
  1 <= MAX ->
  exists w' calls,
    draw_lit_instance MAX H queue su indexed indexCount squaredBoundingSphere matrix w
    = Finished (tt, w') /\
    m_lights w' = ChooseLights H queue (object_sphere H matrix squaredBoundingSphere) true /\
    w_trace w' = w_trace w ++ calls /\
    length (draw_states calls)
    = (if length (m_lights w') =? 0 then 1 else ceil_div (length (m_lights w')) MAX) /\
    draw_states calls !! 0 = Some (w_states w) /\
    (forall pass st, 1 <= pass -> draw_states calls !! pass = Some st ->
                     st = additive_states) /\
    depthFunc (w_states w') = depthFunc (w_states w) /\
    blending (w_states w') = false /\
    (srcBlend (w_states w'), dstBlend (w_states w'))
    = (if length (draw_states calls) <=? 1
       then (srcBlend (w_states w), dstBlend (w_states w))
       else (BlendFunc_One, BlendFunc_One)).
Proof.
  intros HM. unfold draw_lit_instance.
  set (lights := ChooseLights H queue (object_sphere H matrix squaredBoundingSphere) true).
  set (wc := {| w_states := w_states w; m_lights := lights; w_trace := w_trace w |}).
  unfold bind at 1. change (call_ChooseLights _ _ _ _ w) with (Finished (tt, wc)).
  cbn [outcome_bind].
  change (m_lights wc) with lights.
  run_with (emit_spec [Renderer_SetMatrix_World matrix] wc) w0 Hto0 Hst0.
  unfold bind at 1. unfold GetDepthFunc at 1. cbn [outcome_bind].
  assert (Hl0 : m_lights w0 = lights) by (destruct Hto0 as [-> _]; reflexivity).
  assert (Hrange : Forall (light_in_range queue) (m_lights w0))
    by (rewrite Hl0; apply ChooseLights_in_range).
  assert (Hpos : 1 <= passCount_of MAX (length lights)).
  { unfold passCount_of. destruct (_ =? _); lia. }
  match goal with
  | |- context [for_loop ?n 0 ?c ?body] =>
    destruct (for_loop_inv
                (fun pass (_ : nat * nat) w1 =>
                   runs_to w0 w1 (draws_before (w_states w0) pass) /\
                   w_states w1 = states_at (w_states w0) pass)
                body n 0 c w0)
      as (counters & w1 & Hrun1 & Hto1 & Hst1)
  end.
  { split; [apply runs_to_refl|reflexivity]. }
  { intros pass counters w1 _ _ [Hto1 Hst1].
    exact (lit_pass_spec indexed indexCount w0 pass counters w1 Hrange Hto1 Hst1). }
  unfold bind at 1. rewrite Hrun1. cbn [outcome_bind].
  run_with (Enable_Blend_spec false w1) w2 Hto2 Hst2.
  destruct (SetDepthFunc_spec (depthFunc (w_states w0)) w2) as (w3 & Hrun3 & Hto3 & Hst3).
  rewrite Hrun3.
  pose proof (runs_to_trans _ _ _ _ _ Hto0
                (runs_to_trans _ _ _ _ _ Hto1 (runs_to_trans _ _ _ _ _ Hto2 Hto3)))
    as [Hl (calls & Htr & Hdraws)].
  simpl in Hl, Htr, Hdraws. rewrite app_nil_r in Hdraws.
  rewrite Hst0 in *. change (w_states wc) with (w_states w) in *.
  exists w3, calls.
  destruct (passCount_of MAX (length lights)) as [|n] eqn:EP; [lia|].
  simpl in Hdraws.
  assert (Hlen : length (draw_states calls) = S n)
    by (rewrite Hdraws; simpl; rewrite length_replicate; reflexivity).
  split; [reflexivity|]. split; [exact Hl|]. split; [exact Htr|].
  split; [|split; [|split; [|split; [|split]]]].
  - rewrite Hlen, Hl, <- EP. apply passCount_of_ceil_div. exact HM.
  - rewrite Hdraws. reflexivity.
  - intros pass st Hp Hlook. rewrite Hdraws in Hlook.
    destruct pass as [|pass]; [lia|]. simpl in Hlook.
    apply lookup_replicate in Hlook as [-> _]. reflexivity.
  - rewrite Hst3. reflexivity.
  - rewrite Hst3, Hst2. reflexivity.
  - rewrite Hlen, Hst3, Hst2, Hst1. simpl. unfold states_at.
    destruct n as [|n]; reflexivity.
Qed.

End Passes.

(** C3 applies: four point lights in reach, three lights per pass. *)
Lemma draw_lit_instance_passes_witness :
  exists w' calls,
    draw_lit_instance 3 natH four_lamps example_uniforms true 36 0 0 fresh_world
    = Finished (tt, w') /\
    m_lights w' = ChooseLights natH four_lamps (object_sphere natH 0 0) true /\
    w_trace w' = w_trace fresh_world ++ calls /\
    length (draw_states calls)
    = (if length (m_lights w') =? 0 then 1 else ceil_div (length (m_lights w')) 3) /\
    draw_states calls !! 0 = Some (w_states fresh_world) /\
    (forall pass st, 1 <= pass -> draw_states calls !! pass = Some st ->
                     st = additive_states) /\
    depthFunc (w_states w') = depthFunc (w_states fresh_world) /\
    blending (w_states w') = false /\
    (srcBlend (w_states w'), dstBlend (w_states w'))
    = (if length (draw_states calls) <=? 1
       then (srcBlend (w_states fresh_world), dstBlend (w_states fresh_world))
       else (BlendFunc_One, BlendFunc_One)).
Proof.
  apply (draw_lit_instance_passes natT 3 natH four_lamps example_uniforms
           true 36 0 0 fresh_world).
  lia.
Defined.

(** C3 as stated fails on the blend state.  An opaque object (blending
    off, factors one and zero, depth test "less") lit by four lights with
    three lights per pass takes two passes; afterwards the depth function is
    back to "less" but the destination factor is one, not zero: the state
    after the last pass is not the state from before the first.  And an
    object of a material that blends (source alpha, inverse source alpha),
    lit by no light, is drawn in one pass and leaves blending disabled. *)
Lemma draw_lit_instance_blend_not_restored :
  (exists w',
      draw_lit_instance 3 natH four_lamps example_uniforms true 36 0 0 fresh_world
      = Finished (tt, w') /\
      length (m_lights w') = 4 /\
      w_states fresh_world
      = {| blending := false; srcBlend := BlendFunc_One; dstBlend := BlendFunc_Zero;
           depthFunc := RendererComparison_Less |} /\
      w_states w'
      = {| blending := false; srcBlend := BlendFunc_One; dstBlend := BlendFunc_One;
           depthFunc := RendererComparison_Less |} /\
      w_states w' <> w_states fresh_world) /\
  (exists w',
      draw_lit_instance 3 natH no_lights example_uniforms true 36 0 0 blending_world
      = Finished (tt, w') /\
      length (m_lights w') = 0 /\
      blending (w_states blending_world) = true /\
      blending (w_states w') = false /\
      w_states w' <> w_states blending_world).
Proof.
  split.
  - eexists. split; [vm_compute; reflexivity|].
    split; [reflexivity|]. split; [reflexivity|]. split; [reflexivity|].
    discriminate.
  - eexists. split; [vm_compute; reflexivity|].
    split; [reflexivity|]. split; [reflexivity|]. split; [reflexivity|].
    discriminate.
Qed.

(** C5 on the code.  Under instancing the light slots are filled from
    [m_lights], which the instancing path never sets.  With one directional
    light queued, a technique whose [m_lights] is still empty sends no light
    at all (every slot is disabled), and one whose [m_lights] was left by
    [ChooseLights(sphere, false)] sends the point light found there. *)
Theorem draw_instanced_sends_m_lights :
  length (directionalLights sun_and_lamp) = 1 /\
  (exists w',
      draw_instanced 3 sun_and_lamp example_uniforms 2 true 36 8 [0; 0] fresh_world
      = Finished (tt, w') /\
      sent_light_types (w_trace w') = []) /\
  (exists w',
      draw_instanced 3 sun_and_lamp example_uniforms 2 true 36 8 [0; 0]
        (Build_World natT opaque_states (ChooseLights natH sun_and_lamp 0 false) [])
      = Finished (tt, w') /\
      sent_light_types (w_trace w') = [LightType_Point]).
Proof.
  split; [reflexivity|]. split.
  - eexists. split; [vm_compute; reflexivity|]. reflexivity.
  - eexists. split; [vm_compute; reflexivity|]. reflexivity.
Qed.

Section Cache.
Implicit Types (programs : Programs) (shader : Shader) (st : CacheState).

(** What a cache miss resolves (lines 1037-1059). *)
Lemma resolve_uniforms_spec programs shader st :
  exists uniforms more,
    resolve_uniforms programs shader st
    = Finished (uniforms,
                {| m_shaderUniforms := m_shaderUniforms st;
                   resolved := resolved st
                               ++ [(shader, "EyePosition"%string);
                                   (shader, "SceneAmbient"%string);
                                   (shader, "TextureOverlay"%string);
                                   (shader, "Lights[0].type"%string);
                                   (shader, "Lights[1].type"%string)]
                               ++ more |}) /\
    eyePosition uniforms = programs shader "EyePosition"%string /\
    sceneAmbient uniforms = programs shader "SceneAmbient"%string /\
    textureOverlay uniforms = programs shader "TextureOverlay"%string /\
    hasLightUniforms uniforms
    = (0 <? programs shader "Lights[0].type"%string)%Z
      && (0 <? programs shader "Lights[1].type"%string)%Z /\
    (hasLightUniforms uniforms = true ->
     lightOffset uniforms
     = (programs shader "Lights[1].type"%string
        - programs shader "Lights[0].type"%string)%Z /\
     loc_type (locations (lightUniforms uniforms))
     = programs shader "Lights[0].type"%string).
Proof.
  unfold resolve_uniforms, bind, GetUniformLocation. cbn [outcome_bind].
  destruct ((0 <? programs shader "Lights[0].type"%string)%Z
            && (0 <? programs shader "Lights[1].type"%string)%Z) eqn:E;
    cbn [outcome_bind ret m_shaderUniforms resolved];
    eexists; eexists; (split; [rewrite <- !app_assoc; simpl; reflexivity|]);
    simpl; rewrite ?E; repeat split; try reflexivity; discriminate.
Qed.

(** C6. A first [GetShaderUniforms] leaves an entry for the shader; a
    second call, with no signal in between, returns that same binding,
    resolves no location and leaves the cache as it was, whatever the shader
    would answer by then.  Either signal of the shader removes the entry and
    nothing else, and the next call resolves the locations again, from what
    the shader answers at that time. *)
Theorem GetShaderUniforms_cached_until_invalidated programs programs' shader st :
  exists uniforms st1,
    GetShaderUniforms programs shader st = Finished (uniforms, st1) /\
    m_shaderUniforms st1 !! shader = Some uniforms /\
    GetShaderUniforms programs' shader st1 = Finished (uniforms, st1) /\
    forall signal,
    exists st2,
      Shader_signal signal shader st1 = Finished (tt, st2) /\
      m_shaderUniforms st2 = delete shader (m_shaderUniforms st1) /\
      m_shaderUniforms st2 !! shader = None /\
      resolved st2 = resolved st1 /\
      exists uniforms' st3 more,
        GetShaderUniforms programs' shader st2 = Finished (uniforms', st3) /\
        m_shaderUniforms st3 !! shader = Some uniforms' /\
        resolved st3
        = resolved st2
          ++ [(shader, "EyePosition"%string);
              (shader, "SceneAmbient"%string);
              (shader, "TextureOverlay"%string);
              (shader, "Lights[0].type"%string);
              (shader, "Lights[1].type"%string)]
          ++ more /\
        eyePosition uniforms' = programs' shader "EyePosition"%string /\
        sceneAmbient uniforms' = programs' shader "SceneAmbient"%string /\
        textureOverlay uniforms' = programs' shader "TextureOverlay"%string.
Proof.
  assert (Hhit : forall p u s1, m_shaderUniforms s1 !! shader = Some u ->
                                GetShaderUniforms p shader s1 = Finished (u, s1)).
  { intros p u s1 Hu. unfold GetShaderUniforms. rewrite Hu. reflexivity. }
  assert (Hmiss : forall p s1, m_shaderUniforms s1 !! shader = None ->
            exists u s2 more,
              GetShaderUniforms p shader s1 = Finished (u, s2) /\
              m_shaderUniforms s2 !! shader = Some u /\
              resolved s2
              = resolved s1
                ++ [(shader, "EyePosition"%string);
                    (shader, "SceneAmbient"%string);
                    (shader, "TextureOverlay"%string);
                    (shader, "Lights[0].type"%string);
                    (shader, "Lights[1].type"%string)]
                ++ more /\
              eyePosition u = p shader "EyePosition"%string /\
              sceneAmbient u = p shader "SceneAmbient"%string /\
              textureOverlay u = p shader "TextureOverlay"%string).
  { intros p s1 Hnone. unfold GetShaderUniforms. rewrite Hnone.
    destruct (resolve_uniforms_spec p shader s1)
      as (u & more & Hres & He & Hs & Ht & _).
    unfold bind. rewrite Hres. cbn [outcome_bind]. unfold emplace.
    cbn [m_shaderUniforms]. rewrite Hnone.
    eexists u, _, more. split; [reflexivity|]. simpl.
    rewrite lookup_insert_eq. auto. }
  assert (Hfirst : exists uniforms st1,
             GetShaderUniforms programs shader st = Finished (uniforms, st1) /\
             m_shaderUniforms st1 !! shader = Some uniforms).
  { destruct (m_shaderUniforms st !! shader) as [u|] eqn:E.
    - exists u, st. split; [apply Hhit; exact E|exact E].
    - destruct (Hmiss programs st E) as (u & s2 & more & Hrun & Hin & _).
      exists u, s2. auto. }
  destruct Hfirst as (uniforms & st1 & Hrun & Hin).
  exists uniforms, st1. split; [exact Hrun|]. split; [exact Hin|].
  split; [apply Hhit; exact Hin|].
  intros signal. unfold Shader_signal, OnShaderInvalidated. rewrite Hin.
  eexists. split; [reflexivity|]. cbn [m_shaderUniforms resolved].
  split; [reflexivity|]. split; [apply lookup_delete_eq|]. split; [reflexivity|].
  match goal with
  | |- context [GetShaderUniforms programs' shader ?s2] =>
    destruct (Hmiss programs' s2) as (u & s3 & more & Hrun3 & Hin3 & Hres3 & He & Hs & Ht);
      [apply lookup_delete_eq|]
  end.
  exists u, s3, more. auto 10.
Qed.

(** C7 on the code.  A shader whose light array starts at location 0 has
    valid locations for both [Lights[0].type] and [Lights[1].type], and
    [GetShaderUniforms] records no light uniforms for it. *)
Theorem GetShaderUniforms_location_zero :
  valid_location (program_lights_at_zero 1%positive "Lights[0].type"%string) /\
  valid_location (program_lights_at_zero 1%positive "Lights[1].type"%string) /\
  exists uniforms st,
    GetShaderUniforms program_lights_at_zero 1%positive empty_cache
    = Finished (uniforms, st) /\
    hasLightUniforms uniforms = false.
Proof.
  split; [discriminate|]. split; [discriminate|].
  eexists _, _. split; [reflexivity|]. reflexivity.
Qed.

(** What the code does decide on: both locations strictly positive; the
    stride is then the difference of the two. *)
Lemma GetShaderUniforms_hasLightUniforms programs shader st uniforms st' :
  m_shaderUniforms st !! shader = None ->
  GetShaderUniforms programs shader st = Finished (uniforms, st') ->
  (hasLightUniforms uniforms = true <->
   (0 < programs shader "Lights[0].type"%string
    /\ 0 < programs shader "Lights[1].type"%string)%Z) /\
  (hasLightUniforms uniforms = true ->
   lightOffset uniforms
   = (programs shader "Lights[1].type"%string
      - programs shader "Lights[0].type"%string)%Z).
Proof.
  intros Hnone. unfold GetShaderUniforms. rewrite Hnone.
  destruct (resolve_uniforms_spec programs shader st)
    as (u & more & Hres & _ & _ & _ & Hhas & Hoff).
  unfold bind. rewrite Hres. cbn [outcome_bind]. unfold emplace.
  cbn [m_shaderUniforms]. rewrite Hnone.
  intros [= <- _]. split.
  - rewrite Hhas, andb_true_iff, !Z.ltb_lt. reflexivity.
  - intros Htrue. apply Hoff, Htrue.
Qed.

End Cache.

End TechniqueFacts.

Module InitFacts.
Import Init.

(** C8. [Initialize] always returns a boolean, never an exception.  It
    returns true exactly when no step of the [try] block fails, and has
    then done every step and logged nothing.  When a step fails it returns
    false after logging one error, "Failed to initialise: " followed by the
    message of the first step that failed. *)
Theorem Initialize_reports_by_boolean (failure : InitStep -> option string)
    (st : InitState) :
  exists b st',
    Initialize failure st = (Returned b, st') /\
    (b = true <-> forall step, In step init_steps -> failure step = None) /\
    (b = true ->
     errors st' = errors st /\ performed st' = performed st ++ init_steps) /\
    (b = false ->
     exists done step rest what,
       init_steps = done ++ step :: rest /\
       Forall (fun s => failure s = None) done /\
       failure step = Some what /\
       performed st' = performed st ++ done /\
       errors st' = errors st ++ ["Failed to initialise: " ++ what]%string).
Proof.
  unfold Initialize, try_block, e_bind, do_step, write_quad_indices, NazaraError, e_ret.
  repeat first_failure failure.
  all: eexists _, _; (split; [reflexivity|]); cbn [quadIndices performed errors].
  all: split; [split; [try discriminate|]|split; [try discriminate|try discriminate]].
  all: try (intros Hall; exfalso;
            match goal with
            | E : ?f ?s = Some _ |- _ =>
              assert (Hs : f s = None) by (apply Hall; simpl; tauto);
              congruence
            end).
  all: try (intros _;
            match goal with
            | E : _ ?s = Some ?what |- _ =>
              let l := eval cbv [init_steps] in init_steps in
              match split_at s l with
              | (?done, ?rest) => exists done, s, rest, what
              end
            end;
            split; [reflexivity|];
            split; [repeat constructor; assumption|];
            split; [assumption|];
            split; [rewrite ?app_nil_r, <- ?app_assoc; reflexivity|reflexivity]).
  - intros _ step Hin. simpl in Hin.
    repeat (destruct Hin as [<-|Hin]; [assumption|]). destruct Hin.
  - reflexivity.
  - intros _. split; [reflexivity|].
    rewrite <- !app_assoc. reflexivity.
Qed.

End InitFacts.

(* ===================================================================== *)
(** * Further properties of the code *)
(* ===================================================================== *)

Module SpritesMoreFacts.
Import Sprites SpritesMore SpritesFacts.

Section Unsplit.
Context {Vertex : Type}.
Implicit Types (c : SpriteChain Vertex) (chains sprites : list (SpriteChain Vertex)).
Local Arguments Nat.min : simpl never.
Local Arguments Nat.sub : simpl never.
Local Arguments Nat.mul : simpl never.
Local Arguments Nat.add : simpl never.

Lemma memcpy_quads_whole c :
  chain_wf c -> memcpy_quads c 0 (spriteCount c) = vertices c.
Proof.
  unfold chain_wf, memcpy_quads. intros Hwf.
  rewrite Nat.mul_0_r, drop_0, take_ge by lia. reflexivity.
Qed.

(** A fill that has room for every chain left copies them all and breaks
    on none. *)
Lemma ordered_fill_fits chains (it2 available : nat) (written : list Vertex) :
  Forall chain_wf chains ->
  total_quads chains <= available ->
  ordered_fill chains it2 available 0 written
  = {| of_spriteChainOffset := 0;
       of_split := None;
       of_written := written ++ all_vertices chains |}.
Proof.
  revert it2 available written.
  induction chains as [|c rest IH]; intros it2 available written Hwf Hfit.
  - simpl. rewrite app_nil_r. reflexivity.
  - apply Forall_cons in Hwf as [Hc Hrest].
    assert (Hsplit : total_quads (c :: rest) = spriteCount c + total_quads rest)
      by reflexivity.
    cbn [ordered_fill]. rewrite Nat.sub_0_r.
    replace (Nat.min available (spriteCount c)) with (spriteCount c) by lia.
    rewrite Nat.eqb_refl. cbn [negb].
    rewrite IH by (try assumption; lia).
    rewrite memcpy_quads_whole by exact Hc.
    unfold all_vertices. simpl. rewrite <- app_assoc. reflexivity.
Qed.

(** With whole chains in the buffer and no split pending, the loop draws
    the chains left one by one and returns. *)
Lemma ordered_loop_draws (C fuel i spriteIndex : nat) sprites :
  i <= length sprites ->
  length sprites - i <= fuel ->
  ordered_loop C sprites fuel
    {| os_it := i;
       os_updateVertexBuffer := false;
       os_alreadyDrawnCount := 0;
       os_spriteIndex := spriteIndex;
       os_spriteChainOffset := 0;
       os_splitChainIt := length sprites |}
  = Finished ({| os_it := length sprites;
                 os_updateVertexBuffer := false;
                 os_alreadyDrawnCount := 0;
                 os_spriteIndex := spriteIndex + total_quads (drop i sprites);
                 os_spriteChainOffset := 0;
                 os_splitChainIt := length sprites |},
              chain_draws spriteIndex (drop i sprites)).
Proof.
  revert i spriteIndex. induction fuel as [|fuel IH]; intros i spriteIndex Hi Hfuel.
  - assert (i = length sprites) as -> by lia.
    simpl. rewrite Nat.eqb_refl, drop_all. cbn. rewrite Nat.add_0_r. reflexivity.
  - destruct (Nat.eq_dec i (length sprites)) as [->|Hne].
    + simpl. rewrite Nat.eqb_refl, drop_all. cbn. rewrite Nat.add_0_r. reflexivity.
    + assert (Hlt : i < length sprites) by lia.
      destruct (lookup_lt_is_Some_2 _ _ Hlt) as [c Hc].
      cbn [ordered_loop os_it].
      replace (i =? length sprites) with false by (symmetry; apply Nat.eqb_neq; exact Hne).
      unfold ordered_step, ordered_refill.
      cbn [os_updateVertexBuffer os_it os_splitChainIt os_alreadyDrawnCount
           os_spriteIndex os_spriteChainOffset].
      rewrite Hc.
      replace (i =? length sprites) with false by (symmetry; apply Nat.eqb_neq; exact Hne).
      cbn [negb outcome_bind app]. rewrite Nat.sub_0_r.
      rewrite IH by lia. cbn [outcome_bind].
      rewrite (drop_S _ _ _ Hc). cbn [chain_draws].
      change (total_quads (c :: drop (S i) sprites))
        with (spriteCount c + total_quads (drop (S i) sprites)).
      rewrite Nat.add_assoc. reflexivity.
Qed.

(** What the draws of [chain_draws] read from a buffer that holds the
    chains after [4 * spriteIndex] other vertices. *)
Lemma drawn_vertices_chain_draws (before : list Vertex) (spriteIndex : nat) chains :
  Forall chain_wf chains ->
  length before = 4 * spriteIndex ->
  drawn_vertices (before ++ all_vertices chains) (chain_draws spriteIndex chains)
  = all_vertices chains.
Proof.
  revert before spriteIndex.
  induction chains as [|c rest IH]; intros before spriteIndex Hwf Hlen.
  - reflexivity.
  - apply Forall_cons in Hwf as [Hc Hrest]. unfold chain_wf in Hc.
    cbn [chain_draws drawn_vertices].
    rewrite !Nat.div_mul by lia.
    change (all_vertices (c :: rest)) with (vertices c ++ all_vertices rest).
    rewrite drop_app_length' by lia.
    rewrite take_app_length' by lia.
    f_equal.
    rewrite app_assoc. apply IH; [exact Hrest|].
    rewrite length_app. lia.
Qed.

(** X1. When the depth-sorted chains of a layer fit in the sprite buffer
    together, [DrawOrderedSprites] returns after one fill of the buffer with
    the vertices of all chains, in order, followed by one draw per chain,
    each starting where the previous one ended; the draws read exactly the
    vertices of the chains in chain order, and the loop ends with no split
    pending, a zero offset and nothing marked as already drawn.  Without
    chains it issues no call. *)
Theorem DrawOrderedSprites_unsplit (vc : nat) sprites :
  Forall chain_wf sprites ->
  total_quads sprites <= maxSpriteCount_of vc ->
  exists st tr,
    (forall fuel, length sprites <= fuel ->
                  DrawOrderedSprites vc sprites fuel = Finished (st, tr)) /\
    tr = match sprites with
         | [] => []
         | _ :: _ => FillBuffer (all_vertices sprites) :: chain_draws 0 sprites
         end /\
    drawn_vertices [] tr = all_vertices sprites /\
    length (draw_index_counts tr) = length sprites /\
    os_it st = length sprites /\
    os_splitChainIt st = length sprites /\
    os_spriteChainOffset st = 0 /\
    os_alreadyDrawnCount st = 0.
Proof.
  intros Hwf Hfit. unfold DrawOrderedSprites.
  destruct sprites as [|c rest] eqn:E.
  - exists (ordered_init (@nil (SpriteChain Vertex))), []. split; [|repeat split].
    intros fuel _. destruct fuel; reflexivity.
  - rewrite <- E in *.
    assert (Hlen : length sprites = S (length rest)) by (rewrite E; reflexivity).
    assert (Hc : sprites !! 0 = Some c) by (rewrite E; reflexivity).
    assert (Hdraws : forall idx (l : list (SpriteChain Vertex)),
               length (draw_index_counts (chain_draws idx l)) = length l).
    { intros idx l. revert idx. induction l as [|x l IHl]; intros idx; [reflexivity|].
      cbn [chain_draws]. rewrite draw_index_counts_draw. simpl. rewrite IHl.
      reflexivity. }
    eexists _, (FillBuffer (all_vertices sprites) :: chain_draws 0 sprites).
    split; [|split; [rewrite E; reflexivity|split; [|split; [|repeat split]]]].
    + intros fuel Hfuel. destruct fuel as [|fuel]; [lia|].
      unfold ordered_init.
      cbn [ordered_loop os_it].
      replace (0 =? length sprites) with false by (rewrite Hlen; reflexivity).
      unfold ordered_step, ordered_refill.
      cbn [os_updateVertexBuffer os_it os_spriteChainOffset os_alreadyDrawnCount
           os_splitChainIt os_spriteIndex].
      rewrite drop_0, ordered_fill_fits by assumption.
      cbn [of_split of_spriteChainOffset of_written os_it os_splitChainIt
           os_alreadyDrawnCount os_spriteIndex os_spriteChainOffset
           os_updateVertexBuffer app].
      rewrite Hc.
      replace (0 =? length sprites) with false by (rewrite Hlen; reflexivity).
      cbn [negb outcome_bind app]. rewrite Nat.sub_0_r, Nat.add_0_l, Nat.mul_0_l.
      rewrite ordered_loop_draws by lia. cbn [outcome_bind].
      assert (Hhead : chain_draws 0 sprites
                      = DrawIndexedPrimitives 0 (spriteCount c * 6)
                        :: chain_draws (spriteCount c) (drop 1 sprites)).
      { rewrite <- (drop_0 sprites) at 1. rewrite (drop_S _ _ _ Hc).
        cbn [chain_draws]. rewrite Nat.add_0_l, Nat.mul_0_l. reflexivity. }
      rewrite Hhead. reflexivity.
    + cbn [drawn_vertices].
      apply (drawn_vertices_chain_draws [] 0 sprites Hwf). reflexivity.
    + rewrite draw_index_counts_fill. apply Hdraws.
    + reflexivity.
    + reflexivity.
    + reflexivity.
    + reflexivity.
Qed.

End Unsplit.

(** X1 applies: capacity 2, two chains of one quad each. *)
Lemma DrawOrderedSprites_unsplit_witness :
  let sprites := [ {| vertices := seq 0 4; spriteCount := 1 |};
                   {| vertices := seq 100 4; spriteCount := 1 |} ] in
  exists st (tr : list (RenderEvent nat)),
    (forall fuel, length sprites <= fuel ->
                  DrawOrderedSprites 8 sprites fuel = Finished (st, tr)) /\
    tr = FillBuffer (all_vertices sprites) :: chain_draws 0 sprites /\
    drawn_vertices [] tr = all_vertices sprites /\
    length (draw_index_counts tr) = length sprites /\
    os_it st = length sprites /\
    os_splitChainIt st = length sprites /\
    os_spriteChainOffset st = 0 /\
    os_alreadyDrawnCount st = 0.
Proof.
  apply (DrawOrderedSprites_unsplit 8
           [ {| vertices := seq 0 4; spriteCount := 1 |};
             {| vertices := seq 100 4; spriteCount := 1 |} ]).
  - repeat constructor.
  - vm_compute. lia.
Defined.

End SpritesMoreFacts.

Lemma chunk_sizes_small (n capacity : nat) :
  1 <= n -> n < capacity -> chunk_sizes n capacity = [n].
Proof.
  intros Hn Hlt. unfold chunk_sizes.
  rewrite Nat.div_small, Nat.mod_small by lia.
  destruct (n =? 0) eqn:E; [apply Nat.eqb_eq in E; lia|reflexivity].
Qed.

Lemma chunk_sizes_step (n capacity : nat) :
  1 <= capacity -> capacity <= n ->
  chunk_sizes n capacity = capacity :: chunk_sizes (n - capacity) capacity.
Proof.
  intros HC Hle. unfold chunk_sizes.
  remember (n - capacity) as m eqn:Hm.
  assert (Hn : n = m + 1 * capacity) by lia.
  rewrite Hn, Nat.div_add, Nat.Div0.mod_add by lia.
  rewrite Nat.add_1_r. reflexivity.
Qed.

Lemma chunk_sizes_zero (capacity : nat) : chunk_sizes 0 capacity = [].
Proof.
  unfold chunk_sizes. destruct capacity as [|c]; [reflexivity|].
  rewrite Nat.Div0.div_0_l, Nat.Div0.mod_0_l. reflexivity.
Qed.

Lemma chunk_sizes_length (n capacity : nat) :
  length (chunk_sizes n capacity) = ceil_div n capacity.
Proof.
  unfold chunk_sizes, ceil_div. rewrite length_app, length_replicate.
  destruct (n mod capacity =? 0); simpl; lia.
Qed.


Lemma chunk_sizes_bound (n capacity : nat) :
  1 <= capacity -> Forall (fun k => 1 <= k <= capacity) (chunk_sizes n capacity).
Proof.
  intros HC. unfold chunk_sizes. apply Forall_app. split.
  - apply Forall_replicate. lia.
  - pose proof (Nat.mod_upper_bound n capacity ltac:(lia)).
    destruct (n mod capacity =? 0) eqn:E; [constructor|].
    apply Nat.eqb_neq in E. repeat constructor; lia.
Qed.

Lemma chunk_sizes_cons (n capacity : nat) :
  1 <= capacity -> 1 <= n ->
  chunk_sizes n capacity
  = Nat.min n capacity :: chunk_sizes (n - Nat.min n capacity) capacity.
Proof.
  intros HC Hn. destruct (le_lt_dec capacity n) as [Hle|Hlt].
  - rewrite Nat.min_r by exact Hle. apply chunk_sizes_step; assumption.
  - rewrite Nat.min_l, Nat.sub_diag, chunk_sizes_zero by lia.
    apply chunk_sizes_small; assumption.
Qed.

Lemma ceil_div_chunk (n capacity : nat) :
  1 <= capacity -> 1 <= n ->
  ceil_div n capacity = S (ceil_div (n - Nat.min n capacity) capacity).
Proof.
  intros HC Hn. rewrite <- !chunk_sizes_length.
  rewrite (chunk_sizes_cons n capacity HC Hn) at 1. reflexivity.
Qed.

Module TechniqueMoreFacts.
Import Technique TechniqueMore TechniqueFacts.

Section Submit.
Variable T : Payload.
Variable MAX : nat.
Variable H : Helpers T.
Variable queue : RenderQueue T.
Implicit Types (w : World T) (calls : list (Call T)) (su : ShaderUniforms).

Lemma geometry_app calls calls' :
  geometry (calls ++ calls') = geometry calls ++ geometry calls'.
Proof. apply List.filter_app. Qed.

Lemma draw_states_geometry calls : draw_states calls = draw_states (geometry calls).
Proof.
  induction calls as [|c calls IH]; [reflexivity|].
  destruct c; simpl; rewrite ?IH; reflexivity.
Qed.

Lemma instance_fills_geometry calls : instance_fills calls = instance_fills (geometry calls).
Proof.
  induction calls as [|c calls IH]; [reflexivity|].
  destruct c; simpl; rewrite ?IH; reflexivity.
Qed.


Lemma world_matrices_geometry calls : world_matrices calls = world_matrices (geometry calls).
Proof.
  induction calls as [|c calls IH]; [reflexivity|].
  destruct c; simpl; rewrite ?IH; reflexivity.
Qed.

Lemma submits_refl w : submits w w [].
Proof. split; [reflexivity|]. exists []. rewrite app_nil_r. split; reflexivity. Qed.

Lemma submits_trans w w1 w2 (g1 g2 : list (Call T)) :
  submits w w1 g1 -> submits w1 w2 g2 -> submits w w2 (g1 ++ g2).
Proof.
  intros [Hl1 (c1 & Ht1 & Hg1)] [Hl2 (c2 & Ht2 & Hg2)].
  split; [congruence|]. exists (c1 ++ c2).
  rewrite Ht2, Ht1, app_assoc, geometry_app, Hg1, Hg2. split; reflexivity.
Qed.


Lemma emit_submits calls w :
  exists w', emit calls w = Finished (tt, w') /\
             submits w w' (geometry calls) /\
             w_states w' = w_states w.
Proof.
  eexists. split; [reflexivity|]. split; [|reflexivity].
  split; [reflexivity|]. exists calls. split; reflexivity.
Qed.

Lemma Enable_Blend_submits (enable : bool) w :
  exists w', Enable_Blend enable w = Finished (tt, w') /\
             submits w w' [] /\
             w_states w' = {| blending := enable;
                              srcBlend := srcBlend (w_states w);
                              dstBlend := dstBlend (w_states w);
                              depthFunc := depthFunc (w_states w) |}.
Proof.
  eexists. split; [reflexivity|]. split; [|reflexivity].
  split; [reflexivity|]. eexists. split; reflexivity.
Qed.

Lemma SetDepthFunc_submits (comparison : RendererComparison) w :
  exists w', SetDepthFunc comparison w = Finished (tt, w') /\
             submits w w' [] /\
             w_states w' = {| blending := blending (w_states w);
                              srcBlend := srcBlend (w_states w);
                              dstBlend := dstBlend (w_states w);
                              depthFunc := comparison |}.
Proof.
  eexists. split; [reflexivity|]. split; [|reflexivity].
  split; [reflexivity|]. eexists. split; reflexivity.
Qed.

Lemma enable_additive_blending_submits w :
  exists w', enable_additive_blending w = Finished (tt, w') /\
             submits w w' [] /\
             w_states w' = additive_states.
Proof.
  eexists. split; [reflexivity|]. split; [|reflexivity].
  split; [reflexivity|]. eexists.
  split; [simpl; rewrite <- !app_assoc; reflexivity|reflexivity].
Qed.

Lemma drawFunc_submits (indexed : bool) (indexCount : nat) w :
  exists w', drawFunc indexed indexCount w = Finished (tt, w') /\
             submits w w' [Renderer_Draw (w_states w) indexed indexCount] /\
             w_states w' = w_states w.
Proof.
  eexists. split; [reflexivity|]. split; [|reflexivity].
  split; [reflexivity|]. eexists. split; reflexivity.
Qed.

Lemma geometry_send (location : Z) (value : UniformValue T) calls :
  geometry (Shader_Send location value :: calls) = geometry calls.
Proof. reflexivity. Qed.

Lemma send_shadowMapping_geometry (uniforms : LightUniforms) (offset : Z)
    (shadowMap : option (Texture T)) :
  geometry (send_shadowMapping T uniforms offset shadowMap) = [].
Proof. unfold send_shadowMapping. destruct (_ =? _)%Z; reflexivity. Qed.

Lemma send_shadow2D_geometry (uniforms : LightUniforms) (index : nat)
    (shadowMap : option (Texture T)) (m : Matrix4f T) :
  geometry (send_shadow2D T uniforms index shadowMap m) = [].
Proof.
  unfold send_shadow2D. destruct shadowMap; [|reflexivity].
  destruct (_ =? _)%Z; reflexivity.
Qed.

(** With every entry of [m_lights] in range, [SendLightUniforms] indexes
    the light lists safely and submits no geometry. *)
Lemma SendLightUniforms_geometry (lights : list (LightIndex T)) (uniforms : LightUniforms)
    (index lightIndex : nat) (offset : Z) :
  Forall (light_in_range queue) lights ->
  exists calls,
    SendLightUniforms queue lights uniforms index lightIndex offset = Some calls /\
    geometry calls = [].
Proof.
  intros Hrange. unfold SendLightUniforms.
  destruct (lightIndex <? length lights) eqn:E.
  - apply Nat.ltb_lt in E.
    destruct (lookup_lt_is_Some_2 _ _ E) as [li Hli]. rewrite Hli. simpl.
    pose proof (Forall_lookup_1 _ _ _ _ Hrange Hli) as Hin.
    unfold light_in_range in Hin.
    destruct (li_type li);
      destruct (lookup_lt_is_Some_2 _ _ Hin) as [light Hlight];
      rewrite Hlight; simpl; eexists; (split; [reflexivity|]);
      rewrite !geometry_send, !geometry_app,
        ?send_shadowMapping_geometry, ?send_shadow2D_geometry;
      try reflexivity.
    destruct (pl_shadowMap T light); reflexivity.
  - eexists. split; [reflexivity|]. destruct (_ =? _)%Z; reflexivity.
Qed.

Lemma call_SendLightUniforms_submits (uniforms : LightUniforms) (index lightIndex : nat)
    (offset : Z) w :
  Forall (light_in_range queue) (m_lights w) ->
  exists w', call_SendLightUniforms queue uniforms index lightIndex offset w
             = Finished (tt, w') /\
             submits w w' [] /\
             w_states w' = w_states w.
Proof.
  intros Hrange. unfold call_SendLightUniforms.
  destruct (SendLightUniforms_geometry (m_lights w) uniforms index lightIndex offset Hrange)
    as (calls & -> & Hg).
  destruct (emit_submits calls w) as (w' & Hrun & Hto & Hst).
  exists w'. rewrite Hg in Hto. auto.
Qed.

Lemma send_pass_lights_submits su (lightIndex : nat) w :
  Forall (light_in_range queue) (m_lights w) ->
  exists lightIndex' w',
    send_pass_lights MAX queue su lightIndex w = Finished (lightIndex', w') /\
    submits w w' [] /\
    w_states w' = w_states w.
Proof.
  intros Hrange. unfold send_pass_lights.
  destruct (for_loop_inv
              (fun (_ : nat) (_ : nat) w' => submits w w' [] /\ w_states w' = w_states w)
              (fun i lightIndex =>
                 (call_SendLightUniforms queue (lightUniforms su) i lightIndex
                    (to_uint32 (lightOffset su * Z.of_nat i));;;
                  ret (S lightIndex))%exec)
              MAX 0 lightIndex w)
    as (li' & w' & Hrun & Hto & Hst).
  - split; [apply submits_refl|reflexivity].
  - intros i li w1 _ _ [Hto Hst].
    assert (Hrange1 : Forall (light_in_range queue) (m_lights w1))
      by (destruct Hto as [-> _]; exact Hrange).
    run_with (call_SendLightUniforms_submits (lightUniforms su) i li
                (to_uint32 (lightOffset su * Z.of_nat i)) w1 Hrange1) w2 Hto2 Hst2.
    exists (S li), w2. split; [reflexivity|]. split.
    + exact (submits_trans _ _ _ _ _ Hto Hto2).
    + congruence.
  - exists li', w'. auto.
Qed.

Lemma send_slots_submits su (first count : nat) w :
  Forall (light_in_range queue) (m_lights w) ->
  exists w', send_slots queue su first count w = Finished (tt, w') /\
             submits w w' [] /\
             w_states w' = w_states w.
Proof.
  intros Hrange. unfold send_slots.
  destruct (for_loop_inv
              (fun (_ : nat) (_ : unit) w' => submits w w' [] /\ w_states w' = w_states w)
              (fun i (_ : unit) =>
                 call_SendLightUniforms queue (lightUniforms su) i i
                   (to_uint32 (lightOffset su * Z.of_nat i)))
              count first tt w)
    as ([] & w' & Hrun & Hto & Hst).
  - split; [apply submits_refl|reflexivity].
  - intros i [] w1 _ _ [Hto Hst].
    assert (Hrange1 : Forall (light_in_range queue) (m_lights w1))
      by (destruct Hto as [-> _]; exact Hrange).
    destruct (call_SendLightUniforms_submits (lightUniforms su) i i
                (to_uint32 (lightOffset su * Z.of_nat i)) w1 Hrange1)
      as (w2 & Hrun2 & Hto2 & Hst2).
    exists tt, w2. split; [exact Hrun2|]. split.
    + exact (submits_trans _ _ _ _ _ Hto Hto2).
    + congruence.
  - exists w'. auto.
Qed.







Lemma for_each_unlit (indexed : bool) (indexCount : nat) (instances : list (Matrix4f T)) :
  forall w,
    for_each_instance instances
      (fun matrix => (emit [Renderer_SetMatrix_World matrix];;;
                      drawFunc indexed indexCount)%exec) w
    = Finished (tt, {| w_states := w_states w;
                       m_lights := m_lights w;
                       w_trace := w_trace w
                                  ++ flat_map (fun matrix =>
                                                 [Renderer_SetMatrix_World matrix;
                                                  Renderer_Draw (w_states w) indexed
                                                                indexCount])
                                              instances |}).
Proof.
  induction instances as [|matrix rest IH]; intros w.
  - simpl. rewrite app_nil_r. destruct w; reflexivity.
  - cbn [for_each_instance]. unfold bind, drawFunc, emit.
    cbn [outcome_bind w_states m_lights w_trace].
    rewrite IH. cbn [w_states m_lights w_trace flat_map].
    rewrite <- !app_assoc. reflexivity.
Qed.

(** X4. Without instancing and under a shader without light uniforms, a
    mesh entry gives, for each instance in order, the instance's world
    matrix followed by one draw call, and nothing else: no uniform is
    written, no light is chosen, and the renderer's state, under which
    every draw runs, is left as it was. *)
Theorem DrawOpaqueModels_mesh_unlit su (fuel : nat) (meshData : MeshData)
    (instanceBufferVertexCount : nat) (squaredBoundingSphere : Spheref T)
    (instances : list (Matrix4f T)) w :
  hasLightUniforms su = false ->
  DrawOpaqueModels_mesh MAX H queue su fuel false meshData instanceBufferVertexCount
                        squaredBoundingSphere instances w
  = Finished (tt, {| w_states := w_states w;
                     m_lights := m_lights w;
                     w_trace :=
                       w_trace w
                       ++ flat_map (fun matrix =>
                                      [Renderer_SetMatrix_World matrix;
                                       Renderer_Draw (w_states w)
                                         (not_null (indexBuffer meshData))
                                         (match indexBuffer meshData with
                                          | Some indexCount => indexCount
                                          | None => vertexBuffer meshData
                                          end)])
                                   instances |}).
Proof.
  intros Hhas. unfold DrawOpaqueModels_mesh. rewrite Hhas.
  destruct instances as [|matrix rest].
  - simpl. rewrite app_nil_r. destruct w; reflexivity.
  - apply for_each_unlit.
Qed.

Lemma draws_before_S (initial : RenderStates) (pass : nat) :
  draws_before initial (S pass) = draws_before initial pass ++ [states_at initial (S pass)].
Proof.
  destruct pass as [|pass]; [reflexivity|]. simpl.
  unfold states_at. simpl.
  change (additive_states :: replicate pass additive_states)
    with (replicate (S pass) additive_states).
  rewrite replicate_S_end. reflexivity.
Qed.

(** One pass of the non-instanced submitter (lines 739-757), with what it
    submits. *)
Lemma lit_pass_submits su (indexed : bool) (indexCount : nat) (initial : RenderStates)
    (pass : nat) (counters : nat * nat) w :
  Forall (light_in_range queue) (m_lights w) ->
  w_states w = states_at initial pass ->
  exists counters' w',
    (let '(lightCount, lightIndex) := counters in
     let lightCount := lightCount - Nat.min lightCount MAX in
     (if pass =? 1 then enable_additive_blending else ret tt);;;
     let* lightIndex := send_pass_lights MAX queue su lightIndex in
     drawFunc indexed indexCount;;;
     ret (lightCount, lightIndex))%exec w = Finished (counters', w') /\
    submits w w' [Renderer_Draw (states_at initial (S pass)) indexed indexCount] /\
    w_states w' = states_at initial (S pass).
Proof.
  intros Hrange Hst. destruct counters as [lightCount lightIndex].
  assert (Hblend : exists w0,
             (if pass =? 1 then enable_additive_blending else ret tt) w
             = Finished (tt, w0) /\
             submits w w0 [] /\
             w_states w0 = states_at initial (S pass)).
  { destruct (pass =? 1) eqn:E.
    - destruct (enable_additive_blending_submits w) as (w0 & Hrun & Hto0 & Hst0).
      exists w0. apply Nat.eqb_eq in E. subst pass. auto.
    - exists w. split; [reflexivity|]. split; [apply submits_refl|].
      rewrite Hst. apply Nat.eqb_neq in E. unfold states_at.
      destruct pass as [|[|pass]]; try reflexivity. lia. }
  destruct Hblend as (w0 & Hrun0 & Hto0 & Hst0).
  unfold bind at 1. rewrite Hrun0. cbn [outcome_bind].
  assert (Hrange0 : Forall (light_in_range queue) (m_lights w0))
    by (destruct Hto0 as [-> _]; exact Hrange).
  destruct (send_pass_lights_submits su lightIndex w0 Hrange0)
    as (li' & w1 & Hrun1 & Hto1 & Hst1).
  unfold bind at 1. rewrite Hrun1. cbn [outcome_bind].
  run_with (drawFunc_submits indexed indexCount w1) w2 Hto2 Hst2.
  eexists _, w2. split; [reflexivity|]. split; [|congruence].
  rewrite Hst1, Hst0 in Hto2.
  exact (submits_trans _ _ _ _ _ Hto0 (submits_trans _ _ _ _ _ Hto1 Hto2)).
Qed.

(** One instance of the non-instanced submitter under a shader with light
    uniforms (lines 727-761), with what it submits. *)
Lemma draw_lit_instance_submits su (indexed : bool) (indexCount : nat)
    (squaredBoundingSphere : Spheref T) (matrix : Matrix4f T) w :
  exists w' calls,
    draw_lit_instance MAX H queue su indexed indexCount squaredBoundingSphere matrix w
    = Finished (tt, w') /\
    m_lights w' = ChooseLights H queue (object_sphere H matrix squaredBoundingSphere) true /\
    w_trace w' = w_trace w ++ calls /\
    geometry calls
    = Renderer_SetMatrix_World matrix
      :: ((fun st => Renderer_Draw st indexed indexCount)
            <$> draws_before (w_states w)
                  (passCount_of MAX (length (m_lights w')))) /\
    depthFunc (w_states w') = depthFunc (w_states w) /\
    blending (w_states w') = false.
Proof.
  unfold draw_lit_instance.
  set (lights := ChooseLights H queue (object_sphere H matrix squaredBoundingSphere) true).
  set (wc := {| w_states := w_states w; m_lights := lights; w_trace := w_trace w |}).
  unfold bind at 1. change (call_ChooseLights _ _ _ _ w) with (Finished (tt, wc)).
  cbn [outcome_bind].
  change (m_lights wc) with lights.
  run_with (emit_submits [Renderer_SetMatrix_World matrix] wc) w0 Hto0 Hst0.
  unfold bind at 1. unfold GetDepthFunc at 1. cbn [outcome_bind].
  assert (Hl0 : m_lights w0 = lights) by (destruct Hto0 as [-> _]; reflexivity).
  assert (Hrange : Forall (light_in_range queue) (m_lights w0))
    by (rewrite Hl0; apply ChooseLights_in_range).
  match goal with
  | |- context [for_loop ?n 0 ?c ?body] =>
    destruct (for_loop_inv
                (fun pass (_ : nat * nat) w1 =>
                   submits w0 w1 ((fun st => Renderer_Draw st indexed indexCount)
                                    <$> draws_before (w_states w0) pass) /\
                   w_states w1 = states_at (w_states w0) pass)
                body n 0 c w0)
      as (counters & w1 & Hrun1 & Hto1 & Hst1)
  end.
  { split; [apply submits_refl|reflexivity]. }
  { intros pass counters w1 _ _ [Hto1 Hst1].
    assert (Hrange1 : Forall (light_in_range queue) (m_lights w1))
      by (destruct Hto1 as [-> _]; exact Hrange).
    destruct (lit_pass_submits su indexed indexCount (w_states w0) pass counters w1
                Hrange1 Hst1) as (counters' & w2 & Hrun2 & Hto2 & Hst2).
    exists counters', w2. split; [exact Hrun2|]. split; [|exact Hst2].
    rewrite draws_before_S, fmap_app.
    exact (submits_trans _ _ _ _ _ Hto1 Hto2). }
  unfold bind at 1. rewrite Hrun1. cbn [outcome_bind].
  run_with (Enable_Blend_submits false w1) w2 Hto2 Hst2.
  destruct (SetDepthFunc_submits (depthFunc (w_states w0)) w2) as (w3 & Hrun3 & Hto3 & Hst3).
  rewrite Hrun3.
  pose proof (submits_trans _ _ _ _ _ Hto0
                (submits_trans _ _ _ _ _ Hto1 (submits_trans _ _ _ _ _ Hto2 Hto3)))
    as [Hl (calls & Htr & Hg)].
  rewrite !app_nil_r in Hg. simpl in Hl, Htr, Hg.
  rewrite Hst0 in *. change (w_states wc) with (w_states w) in *.
  exists w3, calls. split; [reflexivity|]. split; [exact Hl|]. split; [exact Htr|].
  split; [rewrite Hl; exact Hg|]. rewrite Hst3, Hst2. split; reflexivity.
Qed.

Lemma draw_states_draws (indexed : bool) (indexCount : nat) (states : list RenderStates) :
  draw_states ((fun st => @Renderer_Draw T st indexed indexCount) <$> states) = states.
Proof. induction states as [|st states IH]; [reflexivity|]. simpl. f_equal. exact IH. Qed.

Lemma world_matrices_draws (indexed : bool) (indexCount : nat) (states : list RenderStates) :
  world_matrices ((fun st => @Renderer_Draw T st indexed indexCount) <$> states) = [].
Proof. induction states as [|st states IH]; [reflexivity|]. exact IH. Qed.

Lemma world_matrices_app calls calls' :
  world_matrices (calls ++ calls') = world_matrices calls ++ world_matrices calls'.
Proof. apply omap_app. Qed.

Lemma world_matrices_matrix (matrix : Matrix4f T) calls :
  world_matrices (Renderer_SetMatrix_World matrix :: calls) = matrix :: world_matrices calls.
Proof. reflexivity. Qed.

Lemma draw_states_matrix (matrix : Matrix4f T) calls :
  draw_states (Renderer_SetMatrix_World matrix :: calls) = draw_states calls.
Proof. reflexivity. Qed.

Lemma draws_before_length (initial : RenderStates) (pass : nat) :
  length (draws_before initial pass) = pass.
Proof. destruct pass; simpl; rewrite ?length_replicate; reflexivity. Qed.

(** The instances of a mesh entry, one after the other (lines 725-761). *)
Lemma for_each_lit su (indexed : bool) (indexCount : nat)
    (squaredBoundingSphere : Spheref T) (instances : list (Matrix4f T)) :
  forall w,
  exists w' calls entry_states,
    for_each_instance instances
      (draw_lit_instance MAX H queue su indexed indexCount squaredBoundingSphere) w
    = Finished (tt, w') /\
    w_trace w' = w_trace w ++ calls /\
    length entry_states = length instances /\
    head entry_states = (fun _ => w_states w) <$> head instances /\
    Forall (fun st => depthFunc st = depthFunc (w_states w)) entry_states /\
    geometry calls
    = concat (zip_with
                (fun matrix st =>
                   Renderer_SetMatrix_World matrix
                   :: ((fun st => Renderer_Draw st indexed indexCount)
                         <$> draws_before st
                               (passCount_of MAX
                                  (length (ChooseLights H queue
                                             (object_sphere H matrix squaredBoundingSphere)
                                             true)))))
                instances entry_states) /\
    world_matrices calls = instances /\
    length (draw_states calls)
    = sum_list ((fun matrix =>
                   passCount_of MAX
                     (length (ChooseLights H queue
                                (object_sphere H matrix squaredBoundingSphere) true)))
                  <$> instances) /\
    depthFunc (w_states w') = depthFunc (w_states w) /\
    m_lights w'
    = default (m_lights w)
        ((fun matrix => ChooseLights H queue
                          (object_sphere H matrix squaredBoundingSphere) true)
           <$> last instances) /\
    (instances <> [] -> blending (w_states w') = false).
Proof.
  induction instances as [|matrix rest IH]; intros w.
  - exists w, [], []. rewrite app_nil_r. repeat split; try reflexivity.
    + constructor.
    + congruence.
  - cbn [for_each_instance].
    destruct (draw_lit_instance_submits su indexed indexCount squaredBoundingSphere matrix w)
      as (w1 & calls1 & Hrun1 & Hl1 & Htr1 & Hg1 & Hd1 & Hb1).
    unfold bind at 1. rewrite Hrun1. cbn [outcome_bind].
    destruct (IH w1)
      as (w' & calls2 & es & Hrun2 & Htr2 & Hlen & Hhead & Hdepth & Hg2 & Hwm & Hds
          & Hd2 & Hl2 & Hb2).
    exists w', (calls1 ++ calls2), (w_states w :: es).
    split; [exact Hrun2|]. split; [rewrite Htr2, Htr1, app_assoc; reflexivity|].
    split; [simpl; rewrite Hlen; reflexivity|]. split; [reflexivity|].
    split.
    { constructor; [reflexivity|].
      eapply Forall_impl; [exact Hdepth|]. intros st Hst. congruence. }
    rewrite Hl1 in Hg1.
    split; [rewrite geometry_app, Hg1, Hg2; reflexivity|].
    split.
    { rewrite world_matrices_geometry, geometry_app, Hg1.
      rewrite world_matrices_app, world_matrices_matrix, world_matrices_draws.
      rewrite <- world_matrices_geometry, Hwm. reflexivity. }
    split.
    { rewrite draw_states_geometry, geometry_app, Hg1.
      rewrite draw_states_app, draw_states_matrix, draw_states_draws.
      rewrite <- draw_states_geometry.
      rewrite !length_app, Hds, draws_before_length. reflexivity. }
    split; [congruence|]. split.
    { rewrite Hl2, Hl1. destruct rest as [|matrix' rest']; [reflexivity|].
      simpl. destruct (last (matrix' :: rest')) eqn:El; [reflexivity|].
      apply last_None in El. discriminate. }
    intros _. destruct rest as [|matrix' rest'].
    + injection Hrun2 as <-. exact Hb1.
    + apply Hb2. discriminate.
Qed.

(** X5. Without instancing and under a shader with light uniforms, a mesh
    entry returns after treating its instances in order: each instance has
    its lights chosen, its world matrix set and one draw call per pass of
    [MAX] chosen lights (one pass when none is chosen); the first pass of
    the first instance runs under the state found on entry, the first pass
    of every instance under a state with the depth function found on
    entry, every later pass in the additive state; on exit the depth
    function is the one found on entry, blending is disabled when there
    was an instance, and [m_lights] holds the lights of the last
    instance. *)
Theorem DrawOpaqueModels_mesh_lit su (fuel : nat) (meshData : MeshData)
    (instanceBufferVertexCount : nat) (squaredBoundingSphere : Spheref T)
    (instances : list (Matrix4f T)) w :
  1 <= MAX ->
  hasLightUniforms su = true ->
  exists w' calls entry_states,
    DrawOpaqueModels_mesh MAX H queue su fuel false meshData instanceBufferVertexCount
                          squaredBoundingSphere instances w
    = Finished (tt, w') /\
    w_trace w' = w_trace w ++ calls /\
    length entry_states = length instances /\
    head entry_states = (fun _ => w_states w) <$> head instances /\
    Forall (fun st => depthFunc st = depthFunc (w_states w)) entry_states /\
    geometry calls
    = concat (zip_with
                (fun matrix st =>
                   Renderer_SetMatrix_World matrix
                   :: ((fun st => Renderer_Draw st (not_null (indexBuffer meshData))
                                    (match indexBuffer meshData with
                                     | Some indexCount => indexCount
                                     | None => vertexBuffer meshData
                                     end))
                         <$> draws_before st
                               (passCount_of MAX
                                  (length (ChooseLights H queue
                                             (object_sphere H matrix squaredBoundingSphere)
                                             true)))))
                instances entry_states) /\
    world_matrices calls = instances /\
    length (draw_states calls)
    = sum_list ((fun matrix =>
                   passCount_of MAX
                     (length (ChooseLights H queue
                                (object_sphere H matrix squaredBoundingSphere) true)))
                  <$> instances) /\
    depthFunc (w_states w') = depthFunc (w_states w) /\
    m_lights w'
    = default (m_lights w)
        ((fun matrix => ChooseLights H queue
                          (object_sphere H matrix squaredBoundingSphere) true)
           <$> last instances) /\
    (instances <> [] -> blending (w_states w') = false).
Proof.
  intros _ Hhas. unfold DrawOpaqueModels_mesh. rewrite Hhas.
  destruct instances as [|matrix rest].
  - exists w, [], []. rewrite app_nil_r. repeat split; try reflexivity.
    + constructor.
    + congruence.
  - apply for_each_lit.
Qed.

Lemma sent_light_types_app calls calls' :
  sent_light_types (calls ++ calls')
  = sent_light_types calls ++ sent_light_types calls'.
Proof. apply omap_app. Qed.

Lemma send_shadowMapping_types (uniforms : LightUniforms) (offset : Z)
    (shadowMap : option (Texture T)) :
  sent_light_types (send_shadowMapping T uniforms offset shadowMap) = [].
Proof. unfold send_shadowMapping. destruct (_ =? _)%Z; reflexivity. Qed.

Lemma send_shadow2D_types (uniforms : LightUniforms) (index : nat)
    (shadowMap : option (Texture T)) (m : Matrix4f T) :
  sent_light_types (send_shadow2D T uniforms index shadowMap m) = [].
Proof.
  unfold send_shadow2D. destruct shadowMap; [|reflexivity].
  destruct (_ =? _)%Z; reflexivity.
Qed.

(** The light type [SendLightUniforms] writes: that of entry [lightIndex]
    of [m_lights], when there is one. *)
Lemma SendLightUniforms_types (lights : list (LightIndex T)) (uniforms : LightUniforms)
    (index lightIndex : nat) (offset : Z) :
  Forall (light_in_range queue) lights ->
  exists calls,
    SendLightUniforms queue lights uniforms index lightIndex offset = Some calls /\
    geometry calls = [] /\
    sent_light_types calls = li_type <$> take 1 (drop lightIndex lights).
Proof.
  intros Hrange. unfold SendLightUniforms.
  destruct (lightIndex <? length lights) eqn:E.
  - apply Nat.ltb_lt in E.
    destruct (lookup_lt_is_Some_2 _ _ E) as [li Hli]. rewrite Hli. simpl.
    rewrite (drop_S _ _ _ Hli). cbn [take fmap list_fmap].
    pose proof (Forall_lookup_1 _ _ _ _ Hrange Hli) as Hin.
    unfold light_in_range in Hin.
    destruct (li_type li);
      destruct (lookup_lt_is_Some_2 _ _ Hin) as [light Hlight];
      rewrite Hlight; simpl; eexists; (split; [reflexivity|]);
      (split;
       [rewrite !geometry_send, !geometry_app,
          ?send_shadowMapping_geometry, ?send_shadow2D_geometry;
        try reflexivity; destruct (pl_shadowMap T light); reflexivity|]);
      change (sent_light_types (Shader_Send ?l (Int_lightType ?t) :: ?a :: ?b :: ?c :: ?r))
        with (t :: sent_light_types r);
      f_equal.
    + rewrite !sent_light_types_app, send_shadowMapping_types, send_shadow2D_types.
      reflexivity.
    + change (sent_light_types (Shader_Send ?l ?v :: ?r)) with (sent_light_types r).
      rewrite !sent_light_types_app, send_shadowMapping_types.
      destruct (pl_shadowMap T light); reflexivity.
    + change (sent_light_types (Shader_Send ?l ?v :: Shader_Send ?l' ?v' :: ?r))
        with (sent_light_types r).
      rewrite !sent_light_types_app, send_shadowMapping_types, send_shadow2D_types.
      reflexivity.
  - apply Nat.ltb_ge in E. rewrite drop_ge by exact E.
    eexists. split; [reflexivity|]. destruct (_ =? _)%Z; split; reflexivity.
Qed.

(** Slots [first], [first + 1], ... receive the entries of [m_lights] of
    the same numbers. *)
Lemma send_slots_types su (first count : nat) w :
  Forall (light_in_range queue) (m_lights w) ->
  exists w',
    send_slots queue su first count w = Finished (tt, w') /\
    (m_lights w' = m_lights w /\
     exists calls,
       w_trace w' = w_trace w ++ calls /\
       geometry calls = [] /\
       sent_light_types calls = li_type <$> take count (drop first (m_lights w))) /\
    w_states w' = w_states w.
Proof.
  intros Hrange. unfold send_slots.
  destruct (for_loop_inv
              (fun i (_ : unit) w' =>
                 (m_lights w' = m_lights w /\
                  exists calls,
                    w_trace w' = w_trace w ++ calls /\
                    geometry calls = [] /\
                    sent_light_types calls
                    = li_type <$> take (i - first) (drop first (m_lights w))) /\
                 w_states w' = w_states w)
              (fun i (_ : unit) =>
                 call_SendLightUniforms queue (lightUniforms su) i i
                   (to_uint32 (lightOffset su * Z.of_nat i)))
              count first tt w)
    as ([] & w' & Hrun & Hto & Hst).
  - split; [|reflexivity]. split; [reflexivity|]. exists [].
    rewrite app_nil_r, Nat.sub_diag. repeat split; reflexivity.
  - intros i [] w1 Hge _ [(Hl & calls & Htr & Hg & Hty) Hst].
    unfold call_SendLightUniforms. rewrite Hl.
    destruct (SendLightUniforms_types (m_lights w) (lightUniforms su) i i
                (to_uint32 (lightOffset su * Z.of_nat i)) Hrange)
      as (calls2 & -> & Hg2 & Hty2).
    eexists tt, _. split; [reflexivity|]. cbn [w_states m_lights w_trace].
    split; [|exact Hst]. split; [exact Hl|]. exists (calls ++ calls2).
    split; [rewrite Htr, app_assoc; reflexivity|].
    split; [rewrite geometry_app, Hg, Hg2; reflexivity|].
    rewrite sent_light_types_app, Hty, Hty2, <- fmap_app. f_equal.
    replace (drop i (m_lights w)) with (drop (i - first) (drop first (m_lights w)))
      by (rewrite drop_drop; f_equal; lia).
    rewrite take_take_drop. f_equal. lia.
  - exists w'. replace (first + count - first) with count in Hto by lia. auto.
Qed.

(** The lights, world matrix and draw call of one depth-sorted entry. *)
Lemma draw_transparent_model_spec su (lightCount : nat) (meshData : MeshData)
    (matrix : Matrix4f T) (obbSphere : Spheref T) w :
  exists w' calls,
    draw_transparent_model MAX H queue su lightCount meshData matrix obbSphere w
    = Finished (tt, w') /\
    w_trace w' = w_trace w ++ calls /\
    geometry calls
    = [Renderer_SetMatrix_World matrix;
       Renderer_Draw (w_states w) (not_null (indexBuffer meshData))
                     (match indexBuffer meshData with
                      | Some indexCount => indexCount
                      | None => vertexBuffer meshData
                      end)] /\
    w_states w' = w_states w /\
    (if hasLightUniforms su && (lightCount <? MAX)
     then m_lights w' = ChooseLights H queue (object_sphere H matrix obbSphere) false /\
          sent_light_types calls
          = li_type <$> take (MAX - lightCount) (drop lightCount (m_lights w'))
     else m_lights w' = m_lights w /\ sent_light_types calls = []).
Proof.
  unfold draw_transparent_model.
  destruct (hasLightUniforms su && (lightCount <? MAX)) eqn:Econd.
  - set (lights := ChooseLights H queue (object_sphere H matrix obbSphere) false).
    set (wc := {| w_states := w_states w; m_lights := lights; w_trace := w_trace w |}).
    unfold bind at 1. unfold bind at 1.
    change (call_ChooseLights _ _ _ _ w) with (Finished (tt, wc)).
    cbn [outcome_bind].
    assert (Hrange : Forall (light_in_range queue) (m_lights wc))
      by apply ChooseLights_in_range.
    destruct (send_slots_types su lightCount (MAX - lightCount) wc Hrange)
      as (w1 & Hrun1 & (Hl1 & calls & Htr1 & Hg1 & Hty1) & Hst1).
    rewrite Hrun1. cbn [outcome_bind].
    unfold bind, drawFunc, emit. cbn [outcome_bind w_states m_lights w_trace].
    eexists _, (calls ++ [_; _]). split; [reflexivity|]. cbn [w_states m_lights w_trace].
    split; [rewrite Htr1, <- !app_assoc; reflexivity|].
    rewrite sent_light_types_app, geometry_app, Hg1, Hty1, Hl1, Hst1.
    change (m_lights wc) with lights. change (w_states wc) with (w_states w).
    rewrite app_nil_r. repeat split; reflexivity.
  - unfold bind, drawFunc, emit, ret. cbn [outcome_bind w_states m_lights w_trace].
    eexists _, [_; _]. split; [reflexivity|]. cbn [w_states m_lights w_trace].
    rewrite <- !app_assoc. repeat split; reflexivity.
Qed.


Lemma send_directional_slots_spec su (lightCount : nat) w :
  Forall (light_in_range queue) (m_lights w) ->
  exists lightCount' w',
    send_directional_slots MAX queue su lightCount w = Finished (lightCount', w') /\
    submits w w' [] /\
    w_states w' = w_states w.
Proof.
  intros Hrange. unfold send_directional_slots.
  destruct (hasLightUniforms su).
  - cbn zeta.
    run_with (send_slots_submits su 0
                (Nat.min (length (directionalLights queue)) MAX) w Hrange) w1 Hto1 Hst1.
    eexists _, w1. split; [reflexivity|]. auto.
  - exists lightCount, w. split; [reflexivity|]. split; [apply submits_refl|reflexivity].
Qed.

Section Entries.
Variable uniforms_of : Shader -> ShaderUniforms.

Lemma DrawTransparentModels_from_spec (models : list (UnbatchedModelData T)) :
  forall (lastShader : option Shader) su (lightCount : nat) w,
    Forall (light_in_range queue) (m_lights w) ->
    exists w' calls,
      DrawTransparentModels_from MAX H queue uniforms_of lastShader su lightCount models w
      = Finished (tt, w') /\
      w_trace w' = w_trace w ++ calls /\
      geometry calls
      = flat_map (fun modelData =>
                    [Renderer_SetMatrix_World (md_transformMatrix modelData);
                     Renderer_Draw (w_states w)
                       (not_null (indexBuffer (md_meshData modelData)))
                       (match indexBuffer (md_meshData modelData) with
                        | Some indexCount => indexCount
                        | None => vertexBuffer (md_meshData modelData)
                        end)])
                 models /\
      w_states w' = w_states w /\
      Forall (light_in_range queue) (m_lights w').
Proof.
  induction models as [|modelData rest IH]; intros lastShader su lightCount w Hrange.
  - exists w, []. rewrite app_nil_r. repeat split; try reflexivity. exact Hrange.
  - cbn [DrawTransparentModels_from].
    assert (Hpre : exists su1 lightCount1 w1,
               (if bool_decide (lastShader = Some (md_shader modelData))
                then ret (su, lightCount)
                else
                  let shaderUniforms := uniforms_of (md_shader modelData) in
                  let* lightCount :=
                    send_directional_slots MAX queue shaderUniforms lightCount in
                  ret (shaderUniforms, lightCount))%exec w
               = Finished ((su1, lightCount1), w1) /\
               submits w w1 [] /\
               w_states w1 = w_states w).
    { destruct (bool_decide (lastShader = Some (md_shader modelData))).
      - exists su, lightCount, w. split; [reflexivity|].
        split; [apply submits_refl|reflexivity].
      - cbn zeta.
        destruct (send_directional_slots_spec (uniforms_of (md_shader modelData))
                    lightCount w Hrange) as (lc1 & w1 & Hrun1 & Hto1 & Hst1).
        unfold bind at 1. rewrite Hrun1. cbn [outcome_bind].
        eexists _, _, w1. split; [reflexivity|]. auto. }
    destruct Hpre as (su1 & lc1 & w1 & Hrun1 & [Hl1 (calls1 & Htr1 & Hg1)] & Hst1).
    cbn zeta in Hrun1.
    unfold bind at 1. rewrite Hrun1. cbn [outcome_bind].
    destruct (draw_transparent_model_spec su1 lc1 (md_meshData modelData)
                (md_transformMatrix modelData) (md_obbSphere modelData) w1)
      as (w2 & calls2 & Hrun2 & Htr2 & Hg2 & Hst2 & Hlights).
    unfold bind at 1. rewrite Hrun2. cbn [outcome_bind].
    assert (Hrange2 : Forall (light_in_range queue) (m_lights w2)).
    { destruct (hasLightUniforms su1 && (lc1 <? MAX)).
      - destruct Hlights as [-> _]. apply ChooseLights_in_range.
      - destruct Hlights as [-> _]. rewrite Hl1. exact Hrange. }
    destruct (IH (Some (md_shader modelData)) su1 lc1 w2 Hrange2)
      as (w' & calls3 & Hrun3 & Htr3 & Hg3 & Hst3 & Hrange3).
    exists w', (calls1 ++ calls2 ++ calls3). split; [exact Hrun3|].
    split; [rewrite Htr3, Htr2, Htr1, <- !app_assoc; reflexivity|].
    split; [|split; [congruence|exact Hrange3]].
    rewrite !geometry_app, Hg1, Hg2, Hg3, Hst2, Hst1. reflexivity.
Qed.

Lemma flat_map_zip_replicate {A B C : Type} (f : A -> B -> list C) (l : list A) (b : B) :
  flat_map (fun a => f a b) l = concat (zip_with f l (replicate (length l) b)).
Proof. induction l as [|a l IH]; [reflexivity|]. simpl. rewrite IH. reflexivity. Qed.

(** X7. With [m_lights] indexing the light lists in range on entry,
    [DrawTransparentModels] returns and submits, for each depth-sorted
    entry in order, the entry's world matrix followed by one draw call of
    its mesh, whatever the number of lights: no entry is drawn in more than
    one pass and nothing goes through the instancing buffer; [m_lights]
    still indexes the light lists in range on exit. *)
Theorem DrawTransparentModels_one_draw_each (models : list (UnbatchedModelData T)) w :
  Forall (light_in_range queue) (m_lights w) ->
  exists w' calls states,
    DrawTransparentModels MAX H queue uniforms_of models w = Finished (tt, w') /\
    w_trace w' = w_trace w ++ calls /\
    length states = length models /\
    geometry calls
    = concat (zip_with
                (fun modelData st =>
                   [Renderer_SetMatrix_World (md_transformMatrix modelData);
                    Renderer_Draw st
                      (not_null (indexBuffer (md_meshData modelData)))
                      (match indexBuffer (md_meshData modelData) with
                       | Some indexCount => indexCount
                       | None => vertexBuffer (md_meshData modelData)
                       end)])
                models states) /\
    world_matrices calls = md_transformMatrix <$> models /\
    length (draw_states calls) = length models /\
    instance_fills calls = [] /\
    Forall (light_in_range queue) (m_lights w').
Proof.
  intros Hrange.
  assert (Hrun : exists w' calls,
             DrawTransparentModels MAX H queue uniforms_of models w = Finished (tt, w') /\
             w_trace w' = w_trace w ++ calls /\
             geometry calls
             = flat_map (fun modelData =>
                           [Renderer_SetMatrix_World (md_transformMatrix modelData);
                            Renderer_Draw (w_states w)
                              (not_null (indexBuffer (md_meshData modelData)))
                              (match indexBuffer (md_meshData modelData) with
                               | Some indexCount => indexCount
                               | None => vertexBuffer (md_meshData modelData)
                               end)])
                        models /\
             Forall (light_in_range queue) (m_lights w')).
  { unfold DrawTransparentModels. destruct models as [|modelData rest].
    - exists w, []. rewrite app_nil_r. repeat split; try reflexivity. exact Hrange.
    - destruct (DrawTransparentModels_from_spec (modelData :: rest) None
                  (uniforms_of (md_shader modelData)) 0 w Hrange)
        as (w' & calls & Hrun & Htr & Hg & _ & Hrange').
      exists w', calls. auto. }
  destruct Hrun as (w' & calls & Hrun & Htr & Hg & Hrange').
  exists w', calls, (replicate (length models) (w_states w)).
  split; [exact Hrun|]. split; [exact Htr|]. split; [apply length_replicate|].
  split.
  { rewrite Hg.
    match goal with
    | |- _ = concat (zip_with ?f _ _) => apply (flat_map_zip_replicate f)
    end. }
  rewrite world_matrices_geometry, draw_states_geometry, instance_fills_geometry, Hg.
  split; [|split; [|split; [|exact Hrange']]].
  - clear. induction models as [|modelData rest IH]; [reflexivity|].
    cbn [flat_map]. rewrite world_matrices_app, fmap_cons, IH. reflexivity.
  - clear. induction models as [|modelData rest IH]; [reflexivity|].
    cbn [flat_map]. rewrite draw_states_app, length_app, IH. reflexivity.
  - clear. induction models as [|modelData rest IH]; [reflexivity|]. exact IH.
Qed.

End Entries.

(** The slots of one pass receive the entries of [m_lights] from
    [lightIndex] on. *)
Lemma send_pass_lights_types su (lightIndex : nat) w :
  Forall (light_in_range queue) (m_lights w) ->
  exists lightIndex' w',
    send_pass_lights MAX queue su lightIndex w = Finished (lightIndex', w') /\
    (lightIndex' = lightIndex + MAX /\
     m_lights w' = m_lights w /\
     exists calls,
       w_trace w' = w_trace w ++ calls /\
       sent_light_types calls = li_type <$> take MAX (drop lightIndex (m_lights w))) /\
    w_states w' = w_states w.
Proof.
  intros Hrange. unfold send_pass_lights.
  destruct (for_loop_inv
              (fun i (li : nat) w' =>
                 (li = lightIndex + i /\
                  m_lights w' = m_lights w /\
                  exists calls,
                    w_trace w' = w_trace w ++ calls /\
                    sent_light_types calls
                    = li_type <$> take i (drop lightIndex (m_lights w))) /\
                 w_states w' = w_states w)
              (fun i lightIndex =>
                 (call_SendLightUniforms queue (lightUniforms su) i lightIndex
                    (to_uint32 (lightOffset su * Z.of_nat i));;;
                  ret (S lightIndex))%exec)
              MAX 0 lightIndex w)
    as (li' & w' & Hrun & Hto & Hst).
  - split; [|reflexivity]. split; [lia|]. split; [reflexivity|]. exists [].
    rewrite app_nil_r. split; reflexivity.
  - intros i li w1 _ _ [(Hli & Hl & calls & Htr & Hty) Hst].
    unfold bind, call_SendLightUniforms. rewrite Hl.
    destruct (SendLightUniforms_types (m_lights w) (lightUniforms su) i li
                (to_uint32 (lightOffset su * Z.of_nat i)) Hrange)
      as (calls2 & -> & _ & Hty2).
    eexists (S li), _. split; [reflexivity|]. cbn [w_states m_lights w_trace].
    split; [|exact Hst]. split; [lia|]. split; [exact Hl|]. exists (calls ++ calls2).
    split; [rewrite Htr, app_assoc; reflexivity|].
    rewrite sent_light_types_app, Hty, Hty2, <- fmap_app. f_equal.
    replace (drop li (m_lights w)) with (drop i (drop lightIndex (m_lights w)))
      by (rewrite drop_drop; f_equal; lia).
    rewrite take_take_drop. f_equal. lia.
  - exists li', w'. auto.
Qed.

Lemma passCount_of_covers (k : nat) : 1 <= MAX -> k <= passCount_of MAX k * MAX.
Proof.
  intros HM. unfold passCount_of. destruct (k =? 0) eqn:E.
  - apply Nat.eqb_eq in E. lia.
  - apply Nat.eqb_neq in E.
    pose proof (Nat.div_mod_eq (k - 1) MAX) as Hdm.
    pose proof (Nat.mod_upper_bound (k - 1) MAX ltac:(lia)) as Hub.
    nia.
Qed.

(** X15. An object drawn without instancing under a shader with light
    uniforms and [MAX >= 1] lights per pass: over its passes the light
    types written to the shader are those of the lights [ChooseLights]
    selected for it, each light once, in the order of the selection. *)
Theorem draw_lit_instance_sends_selection su (indexed : bool) (indexCount : nat)
    (squaredBoundingSphere : Spheref T) (matrix : Matrix4f T) w :
  1 <= MAX ->
  exists w' calls,
    draw_lit_instance MAX H queue su indexed indexCount squaredBoundingSphere matrix w
    = Finished (tt, w') /\
    w_trace w' = w_trace w ++ calls /\
    m_lights w' = ChooseLights H queue (object_sphere H matrix squaredBoundingSphere) true /\
    sent_light_types calls = li_type <$> m_lights w'.
Proof.
  intros HM. unfold draw_lit_instance.
  set (lights := ChooseLights H queue (object_sphere H matrix squaredBoundingSphere) true).
  set (wc := {| w_states := w_states w; m_lights := lights; w_trace := w_trace w |}).
  unfold bind at 1. change (call_ChooseLights _ _ _ _ w) with (Finished (tt, wc)).
  cbn [outcome_bind].
  change (m_lights wc) with lights.
  unfold bind at 1. unfold emit at 1. cbn [outcome_bind].
  unfold bind at 1. unfold GetDepthFunc at 1. cbn [outcome_bind w_states m_lights w_trace].
  set (w0 := {| w_states := w_states wc; m_lights := m_lights wc;
                w_trace := w_trace wc ++ [Renderer_SetMatrix_World matrix] |}).
  assert (Hrange : Forall (light_in_range queue) (m_lights w0))
    by apply ChooseLights_in_range.
  match goal with
  | |- context [for_loop ?n 0 ?c ?body] =>
    destruct (for_loop_inv
                (fun pass (counters : nat * nat) w1 =>
                   snd counters = pass * MAX /\
                   m_lights w1 = lights /\
                   exists calls,
                     w_trace w1 = w_trace w0 ++ calls /\
                     sent_light_types calls = li_type <$> take (pass * MAX) lights)
                body n 0 c w0)
      as (counters & w1 & Hrun1 & _ & Hl1 & calls1 & Htr1 & Hty1)
  end.
  { split; [reflexivity|]. split; [reflexivity|]. exists [].
    rewrite app_nil_r. split; reflexivity. }
  { intros pass [lightCount lightIndex] w1 _ _ (Hli & Hl & calls & Htr & Hty).
    cbn [snd] in Hli. subst lightIndex.
    assert (Hblend : exists w2 calls2,
               (if pass =? 1 then enable_additive_blending else ret tt) w1
               = Finished (tt, w2) /\
               m_lights w2 = m_lights w1 /\
               w_trace w2 = w_trace w1 ++ calls2 /\
               sent_light_types calls2 = []).
    { destruct (pass =? 1).
      - eexists _, [_; _; _]. split; [reflexivity|]. split; [reflexivity|].
        split; [simpl; rewrite <- !app_assoc; reflexivity|reflexivity].
      - exists w1, []. rewrite app_nil_r. repeat split; reflexivity. }
    destruct Hblend as (w2 & calls2 & Hrun2 & Hl2 & Htr2 & Hty2).
    unfold bind at 1. rewrite Hrun2. cbn [outcome_bind].
    assert (Hrange2 : Forall (light_in_range queue) (m_lights w2))
      by (rewrite Hl2, Hl; exact Hrange).
    destruct (send_pass_lights_types su (pass * MAX) w2 Hrange2)
      as (li' & w3 & Hrun3 & (Hli' & Hl3 & calls3 & Htr3 & Hty3) & _).
    unfold bind at 1. rewrite Hrun3. cbn [outcome_bind].
    unfold bind, drawFunc, emit, ret. cbn [outcome_bind w_states m_lights w_trace].
    eexists (_, li'), _. split; [reflexivity|]. cbn [snd m_lights w_trace].
    split; [lia|]. split; [congruence|].
    exists (calls ++ calls2 ++ calls3 ++ [Renderer_Draw (w_states w3) indexed indexCount]).
    split; [rewrite Htr3, Htr2, Htr, <- !app_assoc; reflexivity|].
    rewrite !sent_light_types_app, Hty, Hty2, Hty3, Hl2, Hl.
    cbn [sent_light_types omap app]. rewrite app_nil_r, <- fmap_app, take_take_drop.
    do 2 f_equal. lia. }
  unfold bind at 1. rewrite Hrun1. cbn [outcome_bind].
  unfold bind, Enable_Blend, SetDepthFunc, set_states, emit.
  cbn [outcome_bind w_states m_lights w_trace].
  eexists _, (Renderer_SetMatrix_World matrix :: calls1 ++ [_; _]).
  split; [reflexivity|]. cbn [w_states m_lights w_trace].
  split; [rewrite Htr1; unfold w0, wc; cbn [w_trace]; rewrite <- !app_assoc;
          reflexivity|].
  split; [exact Hl1|].
  change (sent_light_types (Renderer_SetMatrix_World matrix :: ?l))
    with (sent_light_types l).
  rewrite sent_light_types_app, Hty1, Hl1. cbn [sent_light_types omap].
  rewrite app_nil_r, take_ge; [reflexivity|].
  apply passCount_of_covers. exact HM.
Qed.

Lemma location_plus_exact (location offset : Z) :
  (- 2 ^ 31 <= location + offset < 2 ^ 31)%Z ->
  location_plus location (to_uint32 offset) = (location + offset)%Z.
Proof.
  intros Hfits. unfold location_plus, to_int32, to_uint32.
  rewrite Zplus_mod_idemp_r, Zplus_mod_idemp_l.
  rewrite Z.mod_small by lia. lia.
Qed.

(** X16. The light of a slot is written at the locations of the first
    array element moved by the slot's offset: when entry [lightIndex] of
    [m_lights] is in range and the location of the type member plus
    [stride * slot] fits a 32-bit [int], [SendLightUniforms], given the
    offset [stride * slot] as an [unsigned int], first writes the type of
    that entry at exactly that location, also for a negative stride. *)
Theorem SendLightUniforms_type_location (lights : list (LightIndex T))
    (uniforms : LightUniforms) (index lightIndex : nat) (stride : Z) (slot : nat)
    (li : LightIndex T) :
  lights !! lightIndex = Some li ->
  light_in_range queue li ->
  (- 2 ^ 31 <= loc_type (locations uniforms) + stride * Z.of_nat slot < 2 ^ 31)%Z ->
  exists rest,
    SendLightUniforms queue lights uniforms index lightIndex
                      (to_uint32 (stride * Z.of_nat slot))
    = Some (Shader_Send (loc_type (locations uniforms) + stride * Z.of_nat slot)
                        (Int_lightType (li_type li))
            :: rest).
Proof.
  intros Hli Hin Hfits. unfold SendLightUniforms.
  replace (lightIndex <? length lights) with true
    by (symmetry; apply Nat.ltb_lt; exact (lookup_lt_Some _ _ _ Hli)).
  rewrite Hli. cbn [mbind option_bind]. rewrite (location_plus_exact _ _ Hfits).
  unfold light_in_range in Hin.
  destruct (li_type li);
    destruct (lookup_lt_is_Some_2 _ _ Hin) as [light Hlight];
    rewrite Hlight; cbn [mbind option_bind]; eexists; reflexivity.
Qed.

(** X8. Whatever the light lists, the object and the slot, after
    [ChooseLights] a call of [SendLightUniforms] reads no light list out of
    range; it writes the type of entry [lightIndex] of the selection when
    there is such an entry and no light type otherwise, and it submits no
    geometry. *)
Theorem SendLightUniforms_after_ChooseLights (object : Spheref T)
    (includeDirectionalLights : bool) (uniforms : LightUniforms)
    (index lightIndex : nat) (offset : Z) :
  exists calls,
    SendLightUniforms queue (ChooseLights H queue object includeDirectionalLights)
                      uniforms index lightIndex offset
    = Some calls /\
    geometry calls = [] /\
    sent_light_types calls
    = li_type <$> take 1 (drop lightIndex
                            (ChooseLights H queue object includeDirectionalLights)).
Proof. apply SendLightUniforms_types, ChooseLights_in_range. Qed.

End Submit.

Section Selection.
Variable T : Payload.
Variable H : Helpers T.
Variable queue : RenderQueue T.
Variable object : Spheref T.

Lemma push_suitable_app {L : Type} (type : LightType)
    (suitable : Spheref T -> L -> bool) (score : Spheref T -> L -> float32 T)
    (lights : list L) :
  forall (i : nat) (acc : list (LightIndex T)),
    push_suitable T type suitable score object lights i acc
    = acc ++ push_suitable T type suitable score object lights i [].
Proof.
  induction lights as [|light rest IH]; intros i acc; simpl.
  - rewrite app_nil_r. reflexivity.
  - destruct (suitable object light); [|apply IH].
    rewrite (IH _ (acc ++ _)), (IH _ [_]), <- app_assoc. reflexivity.
Qed.

Lemma push_suitable_complete {L : Type} (type : LightType)
    (suitable : Spheref T -> L -> bool) (score : Spheref T -> L -> float32 T)
    (lights : list L) :
  forall (i j : nat) (light : L) (acc : list (LightIndex T)),
    lights !! j = Some light ->
    suitable object light = true ->
    {| li_type := type; li_score := score object light; li_index := i + j |}
    ∈ push_suitable T type suitable score object lights i acc.
Proof.
  induction lights as [|light0 rest IH]; intros i j light acc Hj Hs; [discriminate|].
  simpl. destruct j as [|j].
  - injection Hj as ->. rewrite Hs, push_suitable_app, Nat.add_0_r.
    apply elem_of_app. left. apply elem_of_app. right. apply list_elem_of_singleton.
    reflexivity.
  - rewrite Nat.add_succ_r. apply (IH (S i) j light _ Hj Hs).
Qed.

Lemma push_suitable_length {L : Type} (type : LightType)
    (suitable : Spheref T -> L -> bool) (score : Spheref T -> L -> float32 T)
    (lights : list L) :
  forall (i : nat) (acc : list (LightIndex T)),
    length (push_suitable T type suitable score object lights i acc)
    = length acc + length (List.filter (suitable object) lights).
Proof.
  induction lights as [|light rest IH]; intros i acc; simpl; [lia|].
  rewrite IH. destruct (suitable object light); [|reflexivity].
  rewrite length_app. simpl. lia.
Qed.

Lemma push_suitable_NoDup {L : Type} (type : LightType)
    (suitable : Spheref T -> L -> bool) (score : Spheref T -> L -> float32 T)
    (lights : list L) :
  forall (i : nat) (acc : list (LightIndex T)),
    NoDup ((fun li => (li_type li, li_index li)) <$> acc) ->
    Forall (fun li => li_type li = type -> li_index li < i) acc ->
    NoDup ((fun li => (li_type li, li_index li))
             <$> push_suitable T type suitable score object lights i acc).
Proof.
  induction lights as [|light rest IH]; intros i acc Hnd Hlt; simpl; [exact Hnd|].
  apply IH.
  - destruct (suitable object light); [|exact Hnd].
    rewrite fmap_app. apply NoDup_app. split; [exact Hnd|]. split; [|apply NoDup_singleton].
    intros key Hin Hkey. apply list_elem_of_singleton in Hkey. subst key.
    apply list_elem_of_fmap in Hin as (li & Hkey & Hli).
    injection Hkey as Htype Hindex.
    pose proof (proj1 (Forall_forall _ _) Hlt li Hli) as Hbound.
    simpl in Hbound. specialize (Hbound (eq_sym Htype)). lia.
  - destruct (suitable object light).
    + apply Forall_app. split.
      * eapply Forall_impl; [exact Hlt|]. intros li Hli Ht. specialize (Hli Ht). lia.
      * constructor; [|constructor]. intros _. simpl. lia.
    + eapply Forall_impl; [exact Hlt|]. intros li Hli Ht. specialize (Hli Ht). lia.
Qed.

Lemma collect_lights_NoDup (includeDirectionalLights : bool) :
  NoDup ((fun li => (li_type li, li_index li))
           <$> collect_lights H queue object includeDirectionalLights).
Proof.
  unfold collect_lights.
  apply push_suitable_NoDup; [apply push_suitable_NoDup|].
  - destruct includeDirectionalLights; [|constructor].
    apply push_suitable_NoDup; constructor.
  - destruct includeDirectionalLights; [|constructor].
    apply push_suitable_Forall; [constructor|]. intros j light _ _. discriminate.
  - apply push_suitable_Forall.
    + destruct includeDirectionalLights; [|constructor].
      apply push_suitable_Forall; [constructor|]. intros j light _ _. discriminate.
    + intros j light _ _. discriminate.
Qed.

(** X9. [ChooseLights] leaves out no suitable light: every point light
    and every spot light of the queue that is suitable for the object has
    its entry in [m_lights], with its score and its index, and so has
    every suitable directional light when directional lights are included;
    no light has two entries, and the number of entries is the number of
    suitable lights.  The order on scores is assumed to be a strict weak
    order, as [std::sort] requires. *)
Theorem ChooseLights_complete (includeDirectionalLights : bool) :
  (forall x y, float32_lt H x y = true -> float32_lt H y x = false) ->
  (forall x y z, float32_lt H y x = false -> float32_lt H z y = false ->
                 float32_lt H z x = false) ->
  (forall j light,
      pointLights queue !! j = Some light ->
      IsPointLightSuitable H object light = true ->
      {| li_type := LightType_Point;
         li_score := ComputePointLightScore H object light;
         li_index := j |}
      ∈ ChooseLights H queue object includeDirectionalLights) /\
  (forall j light,
      spotLights queue !! j = Some light ->
      IsSpotLightSuitable H object light = true ->
      {| li_type := LightType_Spot;
         li_score := ComputeSpotLightScore H object light;
         li_index := j |}
      ∈ ChooseLights H queue object includeDirectionalLights) /\
  (includeDirectionalLights = true ->
   forall j light,
     directionalLights queue !! j = Some light ->
     IsDirectionalLightSuitable H object light = true ->
     {| li_type := LightType_Directional;
        li_score := ComputeDirectionalLightScore H object light;
        li_index := j |}
     ∈ ChooseLights H queue object includeDirectionalLights) /\
  NoDup ((fun li => (li_type li, li_index li))
           <$> ChooseLights H queue object includeDirectionalLights) /\
  length (ChooseLights H queue object includeDirectionalLights)
  = (if includeDirectionalLights
     then length (List.filter (IsDirectionalLightSuitable H object)
                              (directionalLights queue))
     else 0)
    + length (List.filter (IsPointLightSuitable H object) (pointLights queue))
    + length (List.filter (IsSpotLightSuitable H object) (spotLights queue)).
Proof.
  intros _ _. unfold ChooseLights.
  set (comp := fun light1 light2 : LightIndex T =>
                 float32_lt H (li_score light1) (li_score light2)).
  pose proof (std_sort_Permutation comp
                (collect_lights H queue object includeDirectionalLights)) as Hperm.
  split; [|split; [|split; [|split]]].
  - intros j light Hj Hs. rewrite Hperm. unfold collect_lights.
    rewrite push_suitable_app. apply elem_of_app. left.
    apply (push_suitable_complete LightType_Point _ _ _ 0 j light _ Hj Hs).
  - intros j light Hj Hs. rewrite Hperm. unfold collect_lights.
    apply (push_suitable_complete LightType_Spot _ _ _ 0 j light _ Hj Hs).
  - intros Hincl j light Hj Hs. rewrite Hperm. unfold collect_lights. rewrite Hincl.
    rewrite push_suitable_app. apply elem_of_app. left.
    rewrite push_suitable_app. apply elem_of_app. left.
    apply (push_suitable_complete LightType_Directional _ _ _ 0 j light _ Hj Hs).
  - rewrite Hperm. apply collect_lights_NoDup.
  - rewrite Hperm. unfold collect_lights. rewrite !push_suitable_length.
    destruct includeDirectionalLights; [rewrite push_suitable_length|]; simpl; lia.
Qed.

End Selection.



(** X4 applies: a shader without light uniforms. *)
Lemma DrawOpaqueModels_mesh_unlit_witness :
  DrawOpaqueModels_mesh (T := natT) 3 natH four_lamps
    {| lightUniforms := unset_LightUniforms;
       hasLightUniforms := false;
       lightOffset := 0;
       eyePosition := 1;
       sceneAmbient := 2;
       textureOverlay := 3 |}
    0 false {| indexBuffer := None; vertexBuffer := 24 |} 2 0 [7; 8] fresh_world
  = Finished
      (tt, Build_World natT (w_states fresh_world) (m_lights fresh_world)
             (w_trace fresh_world
              ++ flat_map (fun matrix =>
                             [Renderer_SetMatrix_World (T := natT) matrix;
                              Renderer_Draw (w_states fresh_world)
                                (not_null (indexBuffer
                                   {| indexBuffer := None; vertexBuffer := 24 |}))
                                (match indexBuffer
                                         {| indexBuffer := None; vertexBuffer := 24 |} with
                                 | Some indexCount => indexCount
                                 | None => vertexBuffer
                                             {| indexBuffer := None; vertexBuffer := 24 |}
                                 end)])
                          [7; 8])).
Proof.
  apply (DrawOpaqueModels_mesh_unlit natT 3 natH four_lamps).
  reflexivity.
Defined.

(** X5 applies: two instances, four point lights in reach, three lights
    per pass. *)
Lemma DrawOpaqueModels_mesh_lit_witness :
  exists w' calls entry_states,
    DrawOpaqueModels_mesh (T := natT) 3 natH four_lamps example_uniforms 0 false
                          {| indexBuffer := Some 36; vertexBuffer := 24 |} 2 0
                          [0; 1] fresh_world
    = Finished (tt, w') /\
    w_trace w' = w_trace fresh_world ++ calls /\
    length entry_states = length [0; 1] /\
    head entry_states = (fun _ => w_states fresh_world) <$> head [0; 1] /\
    Forall (fun st => depthFunc st = depthFunc (w_states fresh_world)) entry_states /\
    geometry calls
    = concat (zip_with
                (fun matrix st =>
                   Renderer_SetMatrix_World (T := natT) matrix
                   :: ((fun st => Renderer_Draw st
                                    (not_null (indexBuffer
                                       {| indexBuffer := Some 36; vertexBuffer := 24 |}))
                                    (match indexBuffer
                                             {| indexBuffer := Some 36;
                                                vertexBuffer := 24 |} with
                                     | Some indexCount => indexCount
                                     | None => vertexBuffer
                                                 {| indexBuffer := Some 36;
                                                    vertexBuffer := 24 |}
                                     end))
                         <$> draws_before st
                               (passCount_of 3
                                  (length (ChooseLights natH four_lamps
                                             (object_sphere natH matrix 0) true)))))
                [0; 1] entry_states) /\
    world_matrices calls = [0; 1] /\
    length (draw_states calls)
    = sum_list ((fun matrix =>
                   passCount_of 3
                     (length (ChooseLights natH four_lamps
                                (object_sphere natH matrix 0) true)))
                  <$> [0; 1]) /\
    depthFunc (w_states w') = depthFunc (w_states fresh_world) /\
    m_lights w'
    = default (m_lights fresh_world)
        ((fun matrix => ChooseLights natH four_lamps (object_sphere natH matrix 0) true)
           <$> last [0; 1]) /\
    ([0; 1] <> [] -> blending (w_states w') = false).
Proof.
  apply (DrawOpaqueModels_mesh_lit natT 3 natH four_lamps example_uniforms 0
           {| indexBuffer := Some 36; vertexBuffer := 24 |} 2 0 [0; 1] fresh_world).
  - lia.
  - reflexivity.
Defined.


(** X7 applies: two depth-sorted entries of two shaders, [m_lights]
    empty on entry. *)
Lemma DrawTransparentModels_one_draw_each_witness :
  let models :=
    [Build_UnbatchedModelData natT 1%positive
       {| indexBuffer := Some 36; vertexBuffer := 24 |} 0 0;
     Build_UnbatchedModelData natT 2%positive
       {| indexBuffer := None; vertexBuffer := 3 |} 4 0] in
  exists w' calls states,
    DrawTransparentModels (T := natT) 3 natH sun_and_lamp (fun _ => example_uniforms)
                          models fresh_world
    = Finished (tt, w') /\
    w_trace w' = w_trace fresh_world ++ calls /\
    length states = length models /\
    geometry calls
    = concat (zip_with
                (fun modelData st =>
                   [Renderer_SetMatrix_World (T := natT) (md_transformMatrix modelData);
                    Renderer_Draw st
                      (not_null (indexBuffer (md_meshData modelData)))
                      (match indexBuffer (md_meshData modelData) with
                       | Some indexCount => indexCount
                       | None => vertexBuffer (md_meshData modelData)
                       end)])
                models states) /\
    world_matrices calls = md_transformMatrix <$> models /\
    length (draw_states calls) = length models /\
    instance_fills calls = [] /\
    Forall (light_in_range sun_and_lamp) (m_lights w').
Proof.
  intros models.
  apply (DrawTransparentModels_one_draw_each natT 3 natH sun_and_lamp
           (fun _ => example_uniforms) models fresh_world).
  constructor.
Defined.

(** X15 applies: four point lights in reach, three lights per pass. *)
Lemma draw_lit_instance_sends_selection_witness :
  exists w' calls,
    draw_lit_instance (T := natT) 3 natH four_lamps example_uniforms true 36 0 0 fresh_world
    = Finished (tt, w') /\
    w_trace w' = w_trace fresh_world ++ calls /\
    m_lights w' = ChooseLights natH four_lamps (object_sphere natH 0 0) true /\
    sent_light_types calls = li_type <$> m_lights w'.
Proof.
  apply (draw_lit_instance_sends_selection natT 3 natH four_lamps example_uniforms
           true 36 0 0 fresh_world).
  lia.
Defined.

(** X16 applies: the second slot of a shader with eight locations per
    light, for a point light of the queue. *)
Lemma SendLightUniforms_type_location_witness :
  exists rest,
    SendLightUniforms four_lamps [selected LightType_Point 1 0] (lightUniforms example_uniforms)
                      1 0 (to_uint32 (8 * Z.of_nat 1))
    = Some (Shader_Send (loc_type (locations (lightUniforms example_uniforms))
                         + 8 * Z.of_nat 1)
                        (Int_lightType (li_type (selected LightType_Point 1 0)))
            :: rest).
Proof.
  apply (SendLightUniforms_type_location natT four_lamps
           [selected LightType_Point 1 0] (lightUniforms example_uniforms) 1 0 8 1
           (selected LightType_Point 1 0)).
  - reflexivity.
  - unfold light_in_range. simpl. lia.
  - simpl. lia.
Defined.

(** X9 applies: one directional light and three point lights, of which
    the farthest is out of reach. *)
Lemma ChooseLights_complete_witness :
  let queue := {| directionalLights := [sun];
                  pointLights := [lamp 5 10; lamp 2 10; lamp 50 10];
                  spotLights := [] |} in
  (forall j light,
      pointLights queue !! j = Some light ->
      IsPointLightSuitable natH 0 light = true ->
      {| li_type := LightType_Point;
         li_score := ComputePointLightScore natH 0 light;
         li_index := j |}
      ∈ ChooseLights natH queue 0 true) /\
  (forall j light,
      spotLights queue !! j = Some light ->
      IsSpotLightSuitable natH 0 light = true ->
      {| li_type := LightType_Spot;
         li_score := ComputeSpotLightScore natH 0 light;
         li_index := j |}
      ∈ ChooseLights natH queue 0 true) /\
  (true = true ->
   forall j light,
     directionalLights queue !! j = Some light ->
     IsDirectionalLightSuitable natH 0 light = true ->
     {| li_type := LightType_Directional;
        li_score := ComputeDirectionalLightScore natH 0 light;
        li_index := j |}
     ∈ ChooseLights natH queue 0 true) /\
  NoDup ((fun li => (li_type li, li_index li)) <$> ChooseLights natH queue 0 true) /\
  length (ChooseLights natH queue 0 true)
  = (if true
     then length (List.filter (IsDirectionalLightSuitable natH 0)
                              (directionalLights queue))
     else 0)
    + length (List.filter (IsPointLightSuitable natH 0) (pointLights queue))
    + length (List.filter (IsSpotLightSuitable natH 0) (spotLights queue)).
Proof.
  apply (ChooseLights_complete natT natH).
  - intros x y Hxy. apply Nat.ltb_lt in Hxy. apply Nat.ltb_ge. lia.
  - intros x y z Hyx Hzy. apply Nat.ltb_ge in Hyx, Hzy. apply Nat.ltb_ge. lia.
Defined.

End TechniqueMoreFacts.

Module CacheMoreFacts.
Import Technique TechniqueFacts.

Section Cache.
Implicit Types (programs : Programs) (shader : Shader) (st : CacheState).

(** X10. A call of [GetShaderUniforms] for a shader without cache entry
    returns and inserts the binding it returns.  The binding has light
    uniforms exactly when the locations of [Lights[0].type] and
    [Lights[1].type] are both strictly positive; the stride is then their
    difference and the eight light locations are those the shader answers
    for the members of [Lights[0]] and for [LightViewProjMatrix[0]], twelve
    locations being queried in all; otherwise only the first five are
    queried. *)
Theorem GetShaderUniforms_miss_binding programs shader st :
  m_shaderUniforms st !! shader = None ->
  exists uniforms st',
    GetShaderUniforms programs shader st = Finished (uniforms, st') /\
    m_shaderUniforms st' = <[shader := uniforms]> (m_shaderUniforms st) /\
    (hasLightUniforms uniforms = true <->
     (0 < programs shader "Lights[0].type"%string
      /\ 0 < programs shader "Lights[1].type"%string)%Z) /\
    (hasLightUniforms uniforms = true ->
     lightOffset uniforms
     = (programs shader "Lights[1].type"%string
        - programs shader "Lights[0].type"%string)%Z /\
     lightUniforms uniforms
     = {| ubo := false;
          locations :=
            {| loc_type := programs shader "Lights[0].type"%string;
               loc_color := programs shader "Lights[0].color"%string;
               loc_factors := programs shader "Lights[0].factors"%string;
               loc_lightViewProjMatrix := programs shader "LightViewProjMatrix[0]"%string;
               loc_parameters1 := programs shader "Lights[0].parameters1"%string;
               loc_parameters2 := programs shader "Lights[0].parameters2"%string;
               loc_parameters3 := programs shader "Lights[0].parameters3"%string;
               loc_shadowMapping := programs shader "Lights[0].shadowMapping"%string |} |} /\
     length (resolved st') = length (resolved st) + 12) /\
    (hasLightUniforms uniforms = false ->
     resolved st'
     = resolved st ++ [(shader, "EyePosition"%string);
                       (shader, "SceneAmbient"%string);
                       (shader, "TextureOverlay"%string);
                       (shader, "Lights[0].type"%string);
                       (shader, "Lights[1].type"%string)]).
Proof.
  intros Hnone. unfold GetShaderUniforms. rewrite Hnone.
  unfold resolve_uniforms, bind, GetUniformLocation, emplace.
  cbn [outcome_bind m_shaderUniforms resolved].
  destruct ((0 <? programs shader "Lights[0].type"%string)%Z
            && (0 <? programs shader "Lights[1].type"%string)%Z) eqn:E;
    cbn [outcome_bind ret m_shaderUniforms resolved]; rewrite Hnone;
    eexists _, _; (split; [reflexivity|]);
    cbn [m_shaderUniforms resolved hasLightUniforms lightOffset lightUniforms];
    (split; [reflexivity|]).
  - apply andb_true_iff in E as [E0 E1]. apply Z.ltb_lt in E0, E1.
    split; [tauto|]. split; [|discriminate].
    intros _. split; [reflexivity|]. split; [reflexivity|].
    rewrite !length_app. simpl. lia.
  - split.
    + split; [discriminate|]. intros [E0 E1].
      apply Z.ltb_lt in E0, E1. rewrite E0, E1 in E. discriminate.
    + split; [discriminate|]. intros _. rewrite <- !app_assoc. reflexivity.
Qed.

(** X11. The cache entries of different shaders do not interfere: a call
    of [GetShaderUniforms] for a shader leaves the entry of every other
    shader as it was, and a signal of another shader leaves the binding of
    this one in place, so that the next call for it returns the same
    binding without resolving any location. *)
Theorem cache_entries_independent programs programs' shader other st :
  shader <> other ->
  exists uniforms st1,
    GetShaderUniforms programs shader st = Finished (uniforms, st1) /\
    m_shaderUniforms st1 !! other = m_shaderUniforms st !! other /\
    forall signal,
    exists st2,
      Shader_signal signal other st1 = Finished (tt, st2) /\
      m_shaderUniforms st2 !! other = None /\
      m_shaderUniforms st2 !! shader = Some uniforms /\
      resolved st2 = resolved st1 /\
      GetShaderUniforms programs' shader st2 = Finished (uniforms, st2).
Proof.
  intros Hne.
  assert (Hfirst : exists uniforms st1,
             GetShaderUniforms programs shader st = Finished (uniforms, st1) /\
             m_shaderUniforms st1 !! other = m_shaderUniforms st !! other /\
             m_shaderUniforms st1 !! shader = Some uniforms).
  { unfold GetShaderUniforms.
    destruct (m_shaderUniforms st !! shader) as [u|] eqn:E.
    - exists u, st. auto.
    - destruct (resolve_uniforms_spec programs shader st) as (u & more & Hres & _).
      unfold bind. rewrite Hres. cbn [outcome_bind]. unfold emplace.
      cbn [m_shaderUniforms]. rewrite E.
      eexists u, _. split; [reflexivity|]. cbn [m_shaderUniforms].
      rewrite lookup_insert_ne by exact Hne. rewrite lookup_insert_eq. auto. }
  destruct Hfirst as (uniforms & st1 & Hrun & Hother & Hin).
  exists uniforms, st1. split; [exact Hrun|]. split; [exact Hother|].
  intros signal. unfold Shader_signal, OnShaderInvalidated.
  destruct (m_shaderUniforms st1 !! other) as [u|] eqn:E.
  - eexists. split; [reflexivity|]. cbn [m_shaderUniforms resolved].
    split; [apply lookup_delete_eq|].
    assert (Hkept : delete other (m_shaderUniforms st1) !! shader = Some uniforms)
      by (rewrite lookup_delete_ne by congruence; exact Hin).
    split; [exact Hkept|]. split; [reflexivity|].
    unfold GetShaderUniforms. cbn [m_shaderUniforms]. rewrite Hkept. reflexivity.
  - exists st1. split; [reflexivity|]. split; [exact E|]. split; [exact Hin|].
    split; [reflexivity|]. unfold GetShaderUniforms. rewrite Hin. reflexivity.
Qed.

End Cache.

(** X10 applies: an empty cache. *)
Lemma GetShaderUniforms_miss_binding_witness :
  exists uniforms st',
    GetShaderUniforms program_lights_at_zero 1%positive empty_cache
    = Finished (uniforms, st') /\
    m_shaderUniforms st' = <[1%positive := uniforms]> (m_shaderUniforms empty_cache) /\
    (hasLightUniforms uniforms = true <->
     (0 < program_lights_at_zero 1%positive "Lights[0].type"%string
      /\ 0 < program_lights_at_zero 1%positive "Lights[1].type"%string)%Z) /\
    (hasLightUniforms uniforms = true ->
     lightOffset uniforms
     = (program_lights_at_zero 1%positive "Lights[1].type"%string
        - program_lights_at_zero 1%positive "Lights[0].type"%string)%Z /\
     lightUniforms uniforms
     = {| ubo := false;
          locations :=
            {| loc_type := program_lights_at_zero 1%positive "Lights[0].type"%string;
               loc_color := program_lights_at_zero 1%positive "Lights[0].color"%string;
               loc_factors := program_lights_at_zero 1%positive "Lights[0].factors"%string;
               loc_lightViewProjMatrix :=
                 program_lights_at_zero 1%positive "LightViewProjMatrix[0]"%string;
               loc_parameters1 :=
                 program_lights_at_zero 1%positive "Lights[0].parameters1"%string;
               loc_parameters2 :=
                 program_lights_at_zero 1%positive "Lights[0].parameters2"%string;
               loc_parameters3 :=
                 program_lights_at_zero 1%positive "Lights[0].parameters3"%string;
               loc_shadowMapping :=
                 program_lights_at_zero 1%positive "Lights[0].shadowMapping"%string |} |} /\
     length (resolved st') = length (resolved empty_cache) + 12) /\
    (hasLightUniforms uniforms = false ->
     resolved st'
     = resolved empty_cache ++ [(1%positive, "EyePosition"%string);
                                (1%positive, "SceneAmbient"%string);
                                (1%positive, "TextureOverlay"%string);
                                (1%positive, "Lights[0].type"%string);
                                (1%positive, "Lights[1].type"%string)]).
Proof.
  apply (GetShaderUniforms_miss_binding program_lights_at_zero 1%positive empty_cache).
  reflexivity.
Defined.

(** X11 applies: two shaders and an empty cache. *)
Lemma cache_entries_independent_witness :
  exists uniforms st1,
    GetShaderUniforms program_lights_at_zero 1%positive empty_cache
    = Finished (uniforms, st1) /\
    m_shaderUniforms st1 !! 2%positive = m_shaderUniforms empty_cache !! 2%positive /\
    forall signal,
    exists st2,
      Shader_signal signal 2%positive st1 = Finished (tt, st2) /\
      m_shaderUniforms st2 !! 2%positive = None /\
      m_shaderUniforms st2 !! 1%positive = Some uniforms /\
      resolved st2 = resolved st1 /\
      GetShaderUniforms program_lights_at_zero 1%positive st2 = Finished (uniforms, st2).
Proof.
  apply (cache_entries_independent program_lights_at_zero program_lights_at_zero
           1%positive 2%positive empty_cache).
  discriminate.
Defined.

End CacheMoreFacts.

Module InitMoreFacts.
Import Init.

Lemma flat_map_chunk {A : Type} (f : nat -> list A) (size : nat) :
  (forall i, length (f i) = size) ->
  forall q n start,
    q < n ->
    take size (drop (size * q) (flat_map f (seq start n))) = f (start + q).
Proof.
  intros Hsize. induction q as [|q IH]; intros n start Hq;
    (destruct n as [|n]; [lia|]); cbn [seq flat_map].
  - rewrite Nat.mul_0_r, Nat.add_0_r. cbn [drop].
    apply take_app_length'. symmetry. apply Hsize.
  - replace (size * S q) with (length (f start) + size * q) by (rewrite Hsize; lia).
    rewrite drop_app_add, IH by lia. f_equal. lia.
Qed.

Lemma flat_map_chunk_length {A : Type} (f : nat -> list A) (size : nat) :
  (forall i, length (f i) = size) ->
  forall l, length (flat_map f l) = size * length l.
Proof.
  intros Hsize. induction l as [|i l IH]; cbn [flat_map length]; [lia|].
  rewrite length_app, Hsize, IH. lia.
Qed.

Lemma to_uint16_small (z : Z) : (0 <= z < 65536)%Z -> to_uint16 z = z.
Proof. intros Hz. unfold to_uint16. apply Z.mod_small. lia. Qed.

Lemma quad_indices_layout (quads : nat) :
  (4 * Z.of_nat quads <= 65536)%Z ->
  length (quad_indices quads) = 6 * quads /\
  (forall q, q < quads ->
             take 6 (drop (6 * q) (quad_indices quads))
             = [4 * Z.of_nat q; 4 * Z.of_nat q + 2; 4 * Z.of_nat q + 1;
                4 * Z.of_nat q + 2; 4 * Z.of_nat q + 3; 4 * Z.of_nat q + 1]%Z) /\
  Forall (fun index => 0 <= index < 4 * Z.of_nat quads)%Z (quad_indices quads).
Proof.
  intros Hsmall. unfold quad_indices. split; [|split].
  - rewrite (flat_map_chunk_length _ 6) by reflexivity. rewrite length_seq. reflexivity.
  - intros q Hq. rewrite (flat_map_chunk _ 6) by (reflexivity || exact Hq).
    cbn [Nat.add]. rewrite !to_uint16_small by lia.
    repeat (apply (f_equal2 cons); [lia|]). reflexivity.
  - apply List.Forall_flat_map. apply List.Forall_forall. intros q Hin.
    apply List.in_seq in Hin. rewrite !to_uint16_small by lia.
    repeat constructor; lia.
Qed.



Lemma do_step_keeps (failure : InitStep -> option string) (step : InitStep)
    (st : InitState) :
  quadIndices (snd (do_step failure step st)) = quadIndices st.
Proof. unfold do_step. destruct (failure step); reflexivity. Qed.

Lemma e_bind_keeps {A B : Type} (c : E A) (k : A -> E B) :
  (forall st, quadIndices (snd (c st)) = quadIndices st) ->
  (forall a st, quadIndices (snd (k a st)) = quadIndices st) ->
  forall st, quadIndices (snd (e_bind c k st)) = quadIndices st.
Proof.
  intros Hc Hk st. unfold e_bind. specialize (Hc st).
  destruct (c st) as [[a|what] st1]; simpl in *; [|exact Hc].
  rewrite Hk. exact Hc.
Qed.

(** X12. Once the quad index buffer has been created and mapped,
    [Initialize] writes six indices for each of the [s_maxQuads] quads,
    whatever the later steps do: quad [q] gets the triangles
    [(4q, 4q+2, 4q+1)] and [(4q+2, 4q+3, 4q+1)] over the vertices
    [4q .. 4q+3]; no index wraps around in its 16 bits, and every index is
    below [4 * s_maxQuads]. *)
Theorem Initialize_quad_indices (failure : InitStep -> option string) (st : InitState) :
  failure QuadIndexBuffer_Reset = None ->
  failure QuadIndexBuffer_Map = None ->
  exists completed st',
    Initialize failure st = (Returned completed, st') /\
    length (quadIndices st') = 6 * s_maxQuads /\
    (forall q, q < s_maxQuads ->
               take 6 (drop (6 * q) (quadIndices st'))
               = [4 * Z.of_nat q; 4 * Z.of_nat q + 2; 4 * Z.of_nat q + 1;
                  4 * Z.of_nat q + 2; 4 * Z.of_nat q + 3; 4 * Z.of_nat q + 1]%Z) /\
    Forall (fun index => 0 <= index < 4 * Z.of_nat s_maxQuads)%Z (quadIndices st').
Proof.
  intros Hreset Hmap.
  assert (Hsmall : (4 * Z.of_nat s_maxQuads <= 65536)%Z).
  { unfold s_maxQuads. rewrite Z2Nat.id by (vm_compute; discriminate).
    vm_compute. discriminate. }
  assert (Hkept : exists completed st',
             Initialize failure st = (Returned completed, st') /\
             quadIndices st' = quad_indices s_maxQuads).
  { unfold Initialize, try_block.
    unfold e_bind at 1. unfold do_step at 1. rewrite Hreset.
    unfold e_bind at 1. unfold do_step at 1. rewrite Hmap.
    unfold e_bind at 1. unfold write_quad_indices at 1.
    match goal with
    | |- context [match ?rest ?s with _ => _ end] =>
      assert (Hrest : quadIndices (snd (rest s)) = quad_indices s_maxQuads);
        [|destruct (rest s) as [[[]|what] st1]; simpl in Hrest]
    end.
    - match goal with
      | |- quadIndices (snd (?rest ?s)) = _ =>
        change (quad_indices s_maxQuads) with (quadIndices s)
      end.
      repeat (apply e_bind_keeps; [intros; apply do_step_keeps|intros _]).
      intros; apply do_step_keeps.
    - eexists _, _. split; [reflexivity|exact Hrest].
    - eexists _, _. split; [reflexivity|exact Hrest]. }
  destruct Hkept as (completed & st' & Hrun & Hindices).
  exists completed, st'. split; [exact Hrun|].
  rewrite Hindices. apply quad_indices_layout. exact Hsmall.
Qed.

(** X12 applies: no step fails. *)
Lemma Initialize_quad_indices_witness :
  exists completed st',
    Initialize (fun _ => None) init_state = (Returned completed, st') /\
    length (quadIndices st') = 6 * s_maxQuads /\
    (forall q, q < s_maxQuads ->
               take 6 (drop (6 * q) (quadIndices st'))
               = [4 * Z.of_nat q; 4 * Z.of_nat q + 2; 4 * Z.of_nat q + 1;
                  4 * Z.of_nat q + 2; 4 * Z.of_nat q + 3; 4 * Z.of_nat q + 1]%Z) /\
    Forall (fun index => 0 <= index < 4 * Z.of_nat s_maxQuads)%Z (quadIndices st').
Proof.
  apply (Initialize_quad_indices (fun _ => None) init_state); reflexivity.
Defined.

End InitMoreFacts.

Module BillboardsFacts.
Import Billboards.

Section Chunks.
Context {Color Vector3f Vector2f Material : Type}.
Local Notation "'Data'" := (BillboardData Color Vector3f Vector2f).
Local Notation "'Event'" := (BillboardEvent Color Vector3f Vector2f Material).
Implicit Types (data billboardVector : list Data) (events : list Event).

(** The loop cuts the first [n] billboards into chunks of [max], the last
    one holding what is left, and runs its body once on each. *)
Lemma do_while_chunks_spec (body : nat -> list Data -> list Event)
    (chunk_events : list Data -> list Event) (max : nat) :
  (forall rendered data, rendered <= length data ->
                         body rendered data = chunk_events (take rendered data)) ->
  1 <= max ->
  forall k n data,
    1 <= n -> n <= length data -> ceil_div n max = k ->
    exists chunks : list (list Data),
      concat chunks = take n data /\
      length <$> chunks = chunk_sizes n max /\
      forall fuel, k <= fuel ->
                   do_while_chunks fuel body max data n
                   = Finished (flat_map chunk_events chunks).
Proof.
  intros Hbody HM. induction k as [|k IH]; intros n data Hn Hlen Hk.
  - rewrite (ceil_div_chunk n max HM Hn) in Hk. discriminate.
  - set (r := Nat.min n max).
    assert (Hr : 1 <= r <= n) by (unfold r; lia).
    destruct (Nat.eq_dec (n - r) 0) as [Hlast|Hmore].
    + exists [take r data]. split; [|split].
      * simpl. rewrite app_nil_r. f_equal. lia.
      * rewrite (chunk_sizes_cons n max HM Hn). fold r.
        rewrite Hlast, chunk_sizes_zero. simpl. rewrite length_take_le by lia.
        reflexivity.
      * intros fuel Hfuel. destruct fuel as [|fuel]; [lia|].
        cbn [do_while_chunks]. fold r. rewrite Hlast. cbn [Nat.ltb Nat.leb].
        rewrite Hbody by lia. simpl. rewrite app_nil_r. reflexivity.
    + destruct (IH (n - r) (drop r data)) as (chunks & Hconcat & Hsizes & Hrun).
      * lia.
      * rewrite length_drop. lia.
      * rewrite (ceil_div_chunk n max HM Hn) in Hk. fold r in Hk. lia.
      * exists (take r data :: chunks). split; [|split].
        -- simpl. rewrite Hconcat, take_take_drop. f_equal. lia.
        -- rewrite (chunk_sizes_cons n max HM Hn). fold r.
           rewrite fmap_cons, Hsizes, length_take_le by lia. reflexivity.
        -- intros fuel Hfuel. destruct fuel as [|fuel]; [lia|].
           cbn [do_while_chunks]. fold r.
           replace (0 <? n - r) with true by (symmetry; apply Nat.ltb_lt; lia).
           rewrite Hrun by lia. cbn [outcome_bind flat_map].
           rewrite Hbody by lia. reflexivity.
Qed.





Lemma written_vertices_chunks (chunks : list (list Data)) :
  written_vertices
    (flat_map (fun chunk => [VertexMapper_Write (length chunk * 4)
                               (flat_map billboard_vertices chunk);
                             DrawIndexedPrimitives (length chunk * 6)] : list Event)
              chunks)
  = flat_map billboard_vertices <$> chunks.
Proof. induction chunks as [|c chunks IH]; [reflexivity|]. simpl. f_equal. exact IH. Qed.

Lemma mapped_vertex_counts_chunks (chunks : list (list Data)) :
  mapped_vertex_counts
    (flat_map (fun chunk => [VertexMapper_Write (length chunk * 4)
                               (flat_map billboard_vertices chunk);
                             DrawIndexedPrimitives (length chunk * 6)] : list Event)
              chunks)
  = (fun k => k * 4) <$> (length <$> chunks).
Proof. induction chunks as [|c chunks IH]; [reflexivity|]. simpl. f_equal. exact IH. Qed.

Lemma draw_index_counts_chunks (chunks : list (list Data)) :
  draw_index_counts
    (flat_map (fun chunk => [VertexMapper_Write (length chunk * 4)
                               (flat_map billboard_vertices chunk);
                             DrawIndexedPrimitives (length chunk * 6)] : list Event)
              chunks)
  = (fun k => k * 6) <$> (length <$> chunks).
Proof. induction chunks as [|c chunks IH]; [reflexivity|]. simpl. f_equal. exact IH. Qed.

Lemma quads_no_material (chunks : list (list Data)) :
  applied_materials
    (flat_map (fun chunk => [VertexMapper_Write (length chunk * 4)
                               (flat_map billboard_vertices chunk);
                             DrawIndexedPrimitives (length chunk * 6)] : list Event)
              chunks)
  = [].
Proof. induction chunks as [|c chunks IH]; [reflexivity|]. exact IH. Qed.

Lemma flat_map_concat {A B : Type} (f : A -> list B) (ls : list (list A)) :
  concat (flat_map f <$> ls) = flat_map f (concat ls).
Proof.
  induction ls as [|l ls IH]; [reflexivity|].
  rewrite fmap_cons. cbn [concat]. rewrite IH, List.flat_map_app. reflexivity.
Qed.

Lemma billboard_vertices_length (chunk : list Data) :
  length (flat_map billboard_vertices chunk) = length chunk * 4.
Proof. induction chunk as [|b chunk IH]; [reflexivity|]. simpl. rewrite IH. lia. Qed.

(** The path without instancing cuts a non-empty vector into chunks and
    maps and draws each. *)
Lemma DrawBillboards_quads_spec (billboardPointBufferVertexCount : nat) billboardVector :
  1 <= Nat.min s_maxQuads (billboardPointBufferVertexCount / 4) ->
  billboardVector <> [] ->
  exists chunks : list (list Data),
    concat chunks = billboardVector /\
    length <$> chunks
    = chunk_sizes (length billboardVector)
                  (Nat.min s_maxQuads (billboardPointBufferVertexCount / 4)) /\
    forall fuel,
      ceil_div (length billboardVector)
               (Nat.min s_maxQuads (billboardPointBufferVertexCount / 4)) <= fuel ->
      DrawBillboards_quads fuel billboardPointBufferVertexCount billboardVector
      = Finished (flat_map (fun chunk => [VertexMapper_Write (length chunk * 4)
                                            (flat_map billboard_vertices chunk);
                                          DrawIndexedPrimitives (length chunk * 6)]
                                         : list Event)
                           chunks).
Proof.
  intros HM Hne. unfold DrawBillboards_quads.
  set (max := Nat.min s_maxQuads (billboardPointBufferVertexCount / 4)) in *.
  destruct billboardVector as [|billboard rest] eqn:Evec; [congruence|].
  rewrite <- Evec. clear Hne.
  assert (Hn : 1 <= length billboardVector) by (rewrite Evec; simpl; lia).
  destruct (do_while_chunks_spec
              quads_body
              (fun chunk => [VertexMapper_Write (length chunk * 4)
                               (flat_map billboard_vertices chunk);
                             DrawIndexedPrimitives (length chunk * 6)])
              max) with (k := ceil_div (length billboardVector) max)
                        (n := length billboardVector) (data := billboardVector)
    as (chunks & Hconcat & Hsizes & Hrun); try (lia || reflexivity).
  { intros rendered data Hle. unfold quads_body.
    rewrite length_take_le by exact Hle. reflexivity. }
  rewrite firstn_all in Hconcat.
  exists chunks. auto.
Qed.

(** X14. The path without instancing on a non-empty billboard vector of
    one material, with room for at least one billboard in the billboard
    vertex buffer.  The billboards are written in order, each once, as four
    vertices carrying its colour, centre, size and rotation, with the
    texture coordinates (0,1), (1,1), (0,0) and (1,0); they go
    [max = min(s_maxQuads, vertexCount / 4)] at a time and what is left at
    the end, each chunk of [k] billboards mapped as [4k] vertices and drawn
    with [6k] indices, [ceil(n/max)] draws in all, none asking for more
    than [6 * s_maxQuads] indices; the material is not applied. *)
Theorem DrawBillboards_quads_chunks (billboardPointBufferVertexCount : nat)
    billboardVector :
  1 <= Nat.min s_maxQuads (billboardPointBufferVertexCount / 4) ->
  billboardVector <> [] ->
  exists events : list Event,
    (forall fuel,
        ceil_div (length billboardVector)
                 (Nat.min s_maxQuads (billboardPointBufferVertexCount / 4)) <= fuel ->
        DrawBillboards_quads fuel billboardPointBufferVertexCount billboardVector
        = Finished events) /\
    concat (written_vertices events) = flat_map billboard_vertices billboardVector /\
    length <$> written_vertices events = mapped_vertex_counts events /\
    mapped_vertex_counts events
    = (fun k => k * 4)
        <$> chunk_sizes (length billboardVector)
                        (Nat.min s_maxQuads (billboardPointBufferVertexCount / 4)) /\
    draw_index_counts events
    = (fun k => k * 6)
        <$> chunk_sizes (length billboardVector)
                        (Nat.min s_maxQuads (billboardPointBufferVertexCount / 4)) /\
    length (draw_index_counts events)
    = ceil_div (length billboardVector)
               (Nat.min s_maxQuads (billboardPointBufferVertexCount / 4)) /\
    Forall (fun indexCount => indexCount <= 6 * s_maxQuads) (draw_index_counts events) /\
    applied_materials events = [].
Proof.
  intros HM Hne.
  destruct (DrawBillboards_quads_spec billboardPointBufferVertexCount billboardVector
              HM Hne) as (chunks & Hconcat & Hsizes & Hrun).
  eexists. split; [exact Hrun|].
  rewrite written_vertices_chunks, mapped_vertex_counts_chunks, draw_index_counts_chunks,
    quads_no_material, Hsizes, flat_map_concat, Hconcat.
  split; [reflexivity|]. split.
  { rewrite <- Hsizes, <- !list_fmap_compose. apply list_fmap_ext.
    intros i chunk _. apply billboard_vertices_length. }
  split; [reflexivity|]. split; [reflexivity|].
  split; [rewrite length_fmap; apply chunk_sizes_length|].
  split; [|reflexivity].
  apply Forall_fmap. eapply Forall_impl; [apply chunk_sizes_bound; exact HM|].
  intros k [_ Hk]. unfold compose. lia.
Qed.


End Chunks.


(** X14 applies: three billboards through a vertex buffer of eight
    vertices. *)
Lemma DrawBillboards_quads_chunks_witness :
  let billboard (n : nat) : BillboardData nat nat nat :=
    {| center := n; size := 1; sinCos := 0; color := 255 |} in
  let billboardVector := [billboard 1; billboard 2; billboard 3] in
  exists events : list (BillboardEvent nat nat nat nat),
    (forall fuel,
        ceil_div (length billboardVector) (Nat.min s_maxQuads (8 / 4)) <= fuel ->
        DrawBillboards_quads fuel 8 billboardVector = Finished events) /\
    concat (written_vertices events) = flat_map billboard_vertices billboardVector /\
    length <$> written_vertices events = mapped_vertex_counts events /\
    mapped_vertex_counts events
    = (fun k => k * 4)
        <$> chunk_sizes (length billboardVector) (Nat.min s_maxQuads (8 / 4)) /\
    draw_index_counts events
    = (fun k => k * 6)
        <$> chunk_sizes (length billboardVector) (Nat.min s_maxQuads (8 / 4)) /\
    length (draw_index_counts events)
    = ceil_div (length billboardVector) (Nat.min s_maxQuads (8 / 4)) /\
    Forall (fun indexCount => indexCount <= 6 * s_maxQuads) (draw_index_counts events) /\
    applied_materials events = [].
Proof.
  intros billboard billboardVector.
  apply (DrawBillboards_quads_chunks (Material := nat) 8 billboardVector).
  - vm_compute. lia.
  - discriminate.
Defined.


End BillboardsFacts.
